(** * Filefreezer: storage engine and sync client

    A shallow embedding of [storage.go] (package [filefreezer]) and of the
    file synchronisation client of [cmd/freezer] ([runSyncFile] and the
    [sync*] helpers), followed by the properties established about them.

    The SQLite database is modelled as four tables of rows; every SQL
    statement of [storage.go] is a function on those tables, and
    [transact] is commit-or-rollback on the whole database value. *)

From Stdlib Require Import ZArith String List Bool Lia.
From Stdlib.Strings Require Import Byte.
Import ListNotations.
Local Open Scope Z_scope.

(* ================================================================= *)
(** ** Package [filefreezer]: storage.go                              *)
(* ================================================================= *)

Module Filefreezer.

(** *** Machine integers

    [quota], [allocated], [revision] and [chunkLength] are Go [int64]
    values; the only Go-side arithmetic on them is the subtraction of the
    quota test, written here with its two's-complement wrap-around. *)

Definition min_int64 : Z := - 2 ^ 63.
Definition max_int64 : Z := 2 ^ 63 - 1.

Definition int64_range (z : Z) : Prop := min_int64 <= z <= max_int64.

Definition wrap64 (z : Z) : Z := (z + 2 ^ 63) mod 2 ^ 64 - 2 ^ 63.

Definition sub64 (a b : Z) : Z := wrap64 (a - b).

(** *** Rows and tables *)

(** Table [Perms (UserID PRIMARY KEY, Quota)]. *)
Record PermsRow : Type := mkPermsRow
  { perms_UserID : Z;
    perms_Quota : Z }.

(** Table [UserInfo (UserID PRIMARY KEY, Allocated, Revision)]. *)
Record UserInfoRow : Type := mkUserInfoRow
  { ui_UserID : Z;
    ui_Allocated : Z;
    ui_Revision : Z }.

(** [type FileInfo struct]; also the row type of table [FileInfo]. *)
Record FileInfo : Type := mkFileInfo
  { fi_UserID : Z;
    fi_FileID : Z;
    fi_FileName : string;
    fi_LastMod : Z;
    fi_ChunkCount : Z;
    fi_FileHash : string }.

(** [type FileChunk struct]; also the row type of table [FileChunks]. *)
Record FileChunk : Type := mkFileChunk
  { fc_FileID : Z;
    fc_ChunkNumber : Z;
    fc_ChunkHash : string;
    fc_Chunk : list byte }.

Record DB : Type := mkDB
  { Perms : list PermsRow;
    UserInfo : list UserInfoRow;
    FileInfoT : list FileInfo;
    FileChunks : list FileChunk }.

(** [CreateTables]: five empty tables (the [Users] table plays no part in
    the operations modelled here). *)
Definition CreateTables : DB := mkDB [] [] [] [].

(** [type Storage struct]. *)
Record Storage : Type := mkStorage
  { ChunkSize : Z;
    db : DB }.

Definition with_db (s : Storage) (d : DB) : Storage := mkStorage (ChunkSize s) d.

(** *** Errors

    One constructor per [fmt.Errorf] site reached by the modelled verbs,
    named after the failure it reports. *)
Inductive error : Type :=
| ChunkTooLarge          (* "chunk supplied is %d bytes long and the server is using a max size of %d" *)
| OwnerNotFound          (* "failed to get the owning user id for a given file" *)
| NotOwner               (* "user does not own the file id supplied" *)
| QuotaNotFound          (* "failed to get the user quota from the database ..." *)
| UserInfoNotFound       (* "failed to get the user info from the database ..." *)
| QuotaExceeded          (* "not enough free allocation space ..." *)
| ChunkInsertFailed      (* "failed to add a new file chunk in the database; no rows were affected" *)
| UserInfoUpdateFailed   (* "failed to update the user info in the database ...; no rows were affected" *)
| ChunkNotFound          (* "failed to get the existing chunk before removal" *)
| ChunkDeleteFailed      (* RemoveFileChunk: DELETE affected no rows *)
| FileInfoInsertFailed   (* "failed to add a new file info in the database; no rows were affected" *)
| SqlErrNoRows.          (* sql.ErrNoRows returned unwrapped *)

Inductive result (A : Type) : Type :=
| Ok (a : A)
| Err (e : error).
Arguments Ok {A} a.
Arguments Err {A} e.

(** *** Transactions

    A statement run on [*sql.Tx] transforms the database and yields a value
    or an error.  After an error the database is the one the failing
    statement left behind; it is [transact] that throws it away. *)
Definition Tx (A : Type) : Type := DB -> DB * result A.

Definition tx_ret {A} (a : A) : Tx A := fun d => (d, Ok a).

Definition tx_fail {A} (e : error) : Tx A := fun d => (d, Err e).

Definition tx_bind {A B} (m : Tx A) (k : A -> Tx B) : Tx B :=
  fun d =>
    match m d with
    | (d', Ok a) => k a d'
    | (d', Err e) => (d', Err e)
    end.

Local Notation "x <- m ;; k" := (tx_bind m (fun x => k))
  (at level 61, m at next level, right associativity).
Local Notation "' pat <- m ;; k" := (tx_bind m (fun x => match x with pat => k end))
  (at level 61, pat pattern, m at next level, right associativity).

(** [tx.QueryRow(stmt, ...).Scan(...)]: the first selected row, or the
    error the caller wraps [sql.ErrNoRows] into. *)
Definition scan {A} (q : DB -> option A) (e : error) : Tx A :=
  fun d => match q d with
           | Some a => (d, Ok a)
           | None => (d, Err e)
           end.

(** [tx.Exec(stmt, ...)] followed by [res.RowsAffected()]. *)
Definition exec (stmt : DB -> DB * Z) : Tx Z :=
  fun d => let (d', affected) := stmt d in (d', Ok affected).

(** [func (s *Storage) transact]: commit when the function returns no
    error, roll back otherwise. *)
Definition transact {A} (s : Storage) (transFoo : Tx A) : Storage * result A :=
  match transFoo (db s) with
  | (d', Ok a) => (with_db s d', Ok a)
  | (_, Err e) => (s, Err e)
  end.

(** *** SQL statements *)

Definition count_rows {R} (p : R -> bool) (rows : list R) : Z :=
  Z.of_nat (length (filter p rows)).

(** [SELECT UserID FROM FileInfo WHERE FileID = ?] *)
Definition getFileInfoOwner (fileID : Z) (d : DB) : option Z :=
  option_map fi_UserID (find (fun r => fi_FileID r =? fileID) (FileInfoT d)).

(** [SELECT UserID, FileName, LastMod, ChunkCount, FileHash FROM FileInfo WHERE FileID = ?] *)
Definition getFileInfo (fileID : Z) (d : DB) : option FileInfo :=
  find (fun r => fi_FileID r =? fileID) (FileInfoT d).

(** [SELECT Quota FROM Perms WHERE UserID = ?] *)
Definition getUserQuota (userID : Z) (d : DB) : option Z :=
  option_map perms_Quota (find (fun r => perms_UserID r =? userID) (Perms d)).

(** [SELECT Allocated, Revision FROM UserInfo WHERE UserID = ?] *)
Definition getUserInfo (userID : Z) (d : DB) : option (Z * Z) :=
  option_map (fun r => (ui_Allocated r, ui_Revision r))
             (find (fun r => ui_UserID r =? userID) (UserInfo d)).

(** [INSERT OR REPLACE INTO Perms (UserID, Quota) VALUES (?, ?)] *)
Definition setUserQuota (userID quota : Z) (d : DB) : DB * Z :=
  (mkDB (filter (fun r => negb (perms_UserID r =? userID)) (Perms d)
           ++ [mkPermsRow userID quota])
        (UserInfo d) (FileInfoT d) (FileChunks d), 1).

(** [INSERT OR REPLACE INTO UserInfo (UserID, Allocated, Revision) VALUES (?, ?, ?)] *)
Definition setUserInfo (userID allocated revision : Z) (d : DB) : DB * Z :=
  (mkDB (Perms d)
        (filter (fun r => negb (ui_UserID r =? userID)) (UserInfo d)
           ++ [mkUserInfoRow userID allocated revision])
        (FileInfoT d) (FileChunks d), 1).

(** [UPDATE UserInfo SET Allocated = Allocated + (?), Revision = Revision + 1 WHERE UserID = ?].
    The sums are those of the integers: they are the values SQLite stores
    as long as both lie within the 64-bit integers.  A sum outside of them
    SQLite stores as a floating-point number, which the [Scan] of
    [GetUserInfo] into an [int] refuses; properties that read the updated
    row state that range. *)
Definition updateUserInfo (allocDelta userID : Z) (d : DB) : DB * Z :=
  (mkDB (Perms d)
        (map (fun r => if ui_UserID r =? userID
                       then mkUserInfoRow (ui_UserID r) (ui_Allocated r + allocDelta)
                                          (ui_Revision r + 1)
                       else r) (UserInfo d))
        (FileInfoT d) (FileChunks d),
   count_rows (fun r => ui_UserID r =? userID) (UserInfo d)).

(** The rowid SQLite gives a new row of an [INTEGER PRIMARY KEY] table: one
    more than the largest key in use. *)
Definition next_FileID (rows : list FileInfo) : Z :=
  1 + fold_right (fun r m => Z.max (fi_FileID r) m) 0 rows.

(** [INSERT INTO FileInfo (...) SELECT ?, ?, ?, ?, ? WHERE NOT EXISTS
     (SELECT 1 FROM FileInfo WHERE UserID = ? AND FileName = ?)] *)
Definition addFileInfo (userID : Z) (filename : string) (lastMod chunkCount : Z)
    (fileHash : string) (d : DB) : DB * Z :=
  if existsb (fun r => (fi_UserID r =? userID) && String.eqb (fi_FileName r) filename)
             (FileInfoT d)
  then (d, 0)
  else (mkDB (Perms d) (UserInfo d)
             (FileInfoT d ++ [mkFileInfo userID (next_FileID (FileInfoT d)) filename
                                         lastMod chunkCount fileHash])
             (FileChunks d), 1).

(** [SELECT ChunkNum, ChunkHash FROM FileChunks WHERE FileID = ?] *)
Definition getAllFileChunksByID (fileID : Z) (d : DB) : list (Z * string) :=
  map (fun r => (fc_ChunkNumber r, fc_ChunkHash r))
      (filter (fun r => fc_FileID r =? fileID) (FileChunks d)).

(** [INSERT OR REPLACE INTO FileChunks (FileID, ChunkNum, ChunkHash, Chunk) VALUES (?, ?, ?, ?)].
    [FileChunks] is declared with [FileID INTEGER PRIMARY KEY]: the rows in
    conflict with the new one, which REPLACE deletes first, are the rows
    with the same [FileID].  The deleted rows do not count as affected. *)
Definition addFileChunk (fileID chunkNumber : Z) (chunkHash : string)
    (chunk : list byte) (d : DB) : DB * Z :=
  (mkDB (Perms d) (UserInfo d) (FileInfoT d)
        (filter (fun r => negb (fc_FileID r =? fileID)) (FileChunks d)
           ++ [mkFileChunk fileID chunkNumber chunkHash chunk]), 1).

Definition chunk_at (fileID chunkNumber : Z) (r : FileChunk) : bool :=
  (fc_FileID r =? fileID) && (fc_ChunkNumber r =? chunkNumber).

(** [DELETE FROM FileChunks WHERE FileID = ? AND ChunkNum = ?] *)
Definition removeFileChunk (fileID chunkNumber : Z) (d : DB) : DB * Z :=
  (mkDB (Perms d) (UserInfo d) (FileInfoT d)
        (filter (fun r => negb (chunk_at fileID chunkNumber r)) (FileChunks d)),
   count_rows (chunk_at fileID chunkNumber) (FileChunks d)).

(** [SELECT ChunkHash, Chunk FROM FileChunks WHERE FileID = ? AND ChunkNum = ?] *)
Definition getFileChunk (fileID chunkNumber : Z) (d : DB) : option (string * list byte) :=
  option_map (fun r => (fc_ChunkHash r, fc_Chunk r))
             (find (chunk_at fileID chunkNumber) (FileChunks d)).

(** *** Administrative verbs *)

(** [func (s *Storage) SetUserQuota] *)
Definition SetUserQuota (s : Storage) (userID quota : Z) : Storage :=
  with_db s (fst (setUserQuota userID quota (db s))).

(** [func (s *Storage) SetUserInfo] *)
Definition SetUserInfo (s : Storage) (userID allocated revision : Z) : Storage :=
  with_db s (fst (setUserInfo userID allocated revision (db s))).

(** [func (s *Storage) GetUserQuota] *)
Definition GetUserQuota (s : Storage) (userID : Z) : result Z :=
  match getUserQuota userID (db s) with
  | Some q => Ok q
  | None => Err QuotaNotFound
  end.

(** [func (s *Storage) UpdateUserInfo]: one statement on [s.db], outside
    any transaction. *)
Definition UpdateUserInfo (s : Storage) (userID allocDelta : Z) : Storage * result unit :=
  let (d', affected) := updateUserInfo allocDelta userID (db s) in
  if negb (affected =? 1) then (with_db s d', Err UserInfoUpdateFailed)
  else (with_db s d', Ok tt).

(** [func (s *Storage) GetUserInfo] *)
Definition GetUserInfo (s : Storage) (userID : Z) : result (Z * Z) :=
  match getUserInfo userID (db s) with
  | Some ar => Ok ar
  | None => Err UserInfoNotFound
  end.

(** [func (s *Storage) AddFileInfo] *)
Definition AddFileInfo (s : Storage) (userID : Z) (filename : string)
    (lastMod chunkCount : Z) (fileHash : string) : Storage * result FileInfo :=
  let insertedID := next_FileID (FileInfoT (db s)) in
  let (d', affected) := addFileInfo userID filename lastMod chunkCount fileHash (db s) in
  if negb (affected =? 1) then (with_db s d', Err FileInfoInsertFailed)
  else (with_db s d',
        Ok (mkFileInfo userID insertedID filename lastMod chunkCount fileHash)).

(** *** File and chunk verbs *)

(** The guard that opens every transaction taking a [userID] and a [fileID]. *)
Definition checkOwner (userID fileID : Z) : Tx unit :=
  owningUserID <- scan (getFileInfoOwner fileID) OwnerNotFound ;;
  if negb (owningUserID =? userID) then tx_fail NotOwner else tx_ret tt.

(** [func (s *Storage) GetFileInfo] *)
Definition GetFileInfo (s : Storage) (userID fileID : Z) : Storage * result FileInfo :=
  transact s (
    _ <- checkOwner userID fileID ;;
    fi <- scan (getFileInfo fileID) SqlErrNoRows ;;
    tx_ret (mkFileInfo (fi_UserID fi) fileID (fi_FileName fi) (fi_LastMod fi)
                       (fi_ChunkCount fi) (fi_FileHash fi))).

(** [func (s *Storage) AddFileChunk].  The chunk is bound to the column
    [Chunk BLOB NOT NULL].  A list of bytes does not tell a [nil] slice
    from an empty one, and a [nil] slice is bound as [NULL], which the
    database refuses: the [Exec] of [addFileChunk] fails and the
    transaction is rolled back.  The properties of a chunk that was put
    take a chunk that is not empty. *)
Definition AddFileChunk (s : Storage) (userID fileID chunkNumber : Z)
    (chunkHash : string) (chunk : list byte) : Storage * result unit :=
  let chunkLength := Z.of_nat (length chunk) in
  if chunkLength >? ChunkSize s then (s, Err ChunkTooLarge)
  else
    transact s (
      _ <- checkOwner userID fileID ;;
      quota <- scan (getUserQuota userID) QuotaNotFound ;;
      '(allocated, revision) <- scan (getUserInfo userID) UserInfoNotFound ;;
      if sub64 quota allocated <? chunkLength then tx_fail QuotaExceeded
      else
        affected <- exec (addFileChunk fileID chunkNumber chunkHash chunk) ;;
        if negb (affected =? 1) then tx_fail ChunkInsertFailed
        else
          affected <- exec (updateUserInfo chunkLength userID) ;;
          if negb (affected =? 1) then tx_fail UserInfoUpdateFailed
          else tx_ret tt).

(** [func (s *Storage) RemoveFileChunk]; the Go result [(bool, error)]. *)
Definition RemoveFileChunk (s : Storage) (userID fileID chunkNumber : Z)
    : Storage * (bool * option error) :=
  let (s', r) :=
    transact s (
      _ <- checkOwner userID fileID ;;
      '(chunkHash, chunk) <- scan (getFileChunk fileID chunkNumber) ChunkNotFound ;;
      let allocationCount := Z.of_nat (length chunk) in
      affected <- exec (removeFileChunk fileID chunkNumber) ;;
      if affected <=? 0 then tx_fail ChunkDeleteFailed
      else
        affected <- exec (updateUserInfo (- allocationCount) userID) ;;
        if negb (affected =? 1) then tx_fail UserInfoUpdateFailed
        else tx_ret tt) in
  match r with
  | Err e => (s', (false, Some e))
  | Ok _ => (s', (true, None))
  end.

(** [func (s *Storage) GetFileChunk]: no [userID], no transaction. *)
Definition GetFileChunk (s : Storage) (fileID chunkNumber : Z) : result FileChunk :=
  match getFileChunk fileID chunkNumber (db s) with
  | Some (h, c) => Ok (mkFileChunk fileID chunkNumber h c)
  | None => Err SqlErrNoRows
  end.

(** [sort.Ints]: ascending order, here by insertion. *)
Fixpoint insert_int (x : Z) (l : list Z) : list Z :=
  match l with
  | [] => [x]
  | y :: l' => if x <=? y then x :: l else y :: insert_int x l'
  end.

Definition sort_Ints (l : list Z) : list Z := fold_right insert_int [] l.

(** [sort.SearchInts a x]: on a sorted slice, the smallest index [i] with
    [a[i] >= x], and [len(a)] when there is none. *)
Fixpoint SearchInts (a : list Z) (x : Z) : Z :=
  match a with
  | [] => 0
  | y :: a' => if x <=? y then 0 else 1 + SearchInts a' x
  end.

(** The indices [0, 1, ..., n-1] visited by [for i := 0; i < n; i++]. *)
Definition upto (n : Z) : list Z := map Z.of_nat (seq 0 (Z.to_nat n)).

(** [func (s *Storage) GetMissingChunkNumbersForFile] *)
Definition GetMissingChunkNumbersForFile (s : Storage) (userID fileID : Z)
    : Storage * result (list Z) :=
  match
    transact s (
      _ <- checkOwner userID fileID ;;
      fi <- scan (getFileInfo fileID) SqlErrNoRows ;;
      rows <- (fun d => (d, Ok (getAllFileChunksByID fileID d))) ;;
      tx_ret (fi, map fst rows))
  with
  | (s', Err e) => (s', Err e)
  | (s', Ok (fi, known)) =>
      let knownChunks := sort_Ints known in
      let maxKnown := Z.of_nat (length knownChunks) in
      let mia := filter (fun i => SearchInts knownChunks i >=? maxKnown)
                        (upto (fi_ChunkCount fi)) in
      (s', Ok mia)
  end.

(** *** Listing the files of a user *)

(** [SELECT FileID, FileName, LastMod, ChunkCount, FileHash FROM FileInfo WHERE UserID = ?] *)
Definition getAllUserFiles (userID : Z) (d : DB) : list (Z * string * Z * Z * string) :=
  map (fun r => (fi_FileID r, fi_FileName r, fi_LastMod r, fi_ChunkCount r, fi_FileHash r))
      (filter (fun r => fi_UserID r =? userID) (FileInfoT d)).

(** [func (s *Storage) GetAllUserFileInfos]: every scanned row becomes a
    [FileInfo] whose [UserID] is the argument.  The errors of [Query],
    [Scan] and [rows.Err] are errors of the database connection; over the
    tables as modelled the query always answers. *)
Definition GetAllUserFileInfos (s : Storage) (userID : Z) : result (list FileInfo) :=
  Ok (map (fun row => let '(fileID, fileName, lastMod, chunkCount, fileHash) := row in
                      mkFileInfo userID fileID fileName lastMod chunkCount fileHash)
          (getAllUserFiles userID (db s))).

(** *** The [Users] table

    [Users (UserID INTEGER PRIMARY KEY, Name TEXT UNIQUE NOT NULL ON CONFLICT
    ABORT, Salt, Password)].  The three verbs on users touch no other
    table; they are functions on the rows of this one. *)

(** [type User struct]; also the row type of table [Users]. *)
Record User : Type := mkUser
  { user_ID : Z;
    user_Name : string;
    user_Salt : string;
    user_SaltedHash : list byte }.

Inductive user_error : Type :=
| UserInsertFailed     (* "failed to insert the new user (%s)" *)
| UserNotFound.        (* "failed to get the user information from the database" *)

(** [SELECT Name FROM Users WHERE Name = ?] *)
Definition lookupUserByName (username : string) (users : list User) : list string :=
  map user_Name (filter (fun r => String.eqb (user_Name r) username) users).

(** The rowid of a new row of [Users]. *)
Definition next_UserID (users : list User) : Z :=
  1 + fold_right (fun r m => Z.max (user_ID r) m) 0 users.

(** [INSERT INTO Users (Name, Salt, Password) VALUES (?, ?, ?)]: aborted
    when the name is taken; otherwise the new table and the inserted id. *)
Definition addUser (username salt : string) (password : list byte) (users : list User)
    : option (list User * Z) :=
  if existsb (fun r => String.eqb (user_Name r) username) users then None
  else Some (users ++ [mkUser (next_UserID users) username salt password],
             next_UserID users).

(** [SELECT UserID, Salt, Password FROM Users WHERE Name = ?] *)
Definition getUser (username : string) (users : list User)
    : option (Z * string * list byte) :=
  option_map (fun r => (user_ID r, user_Salt r, user_SaltedHash r))
             (find (fun r => String.eqb (user_Name r) username) users).

(** [func (s *Storage) IsUsernameFree] *)
Definition IsUsernameFree (users : list User) (username : string) : bool :=
  negb (existsb (fun existingName => String.eqb existingName username)
                (lookupUserByName username users)).

(** [func (s *Storage) AddUser].  The salted hash is bound to the column
    [Password BLOB NOT NULL].  A list of bytes does not tell a [nil] slice
    from an empty one, and a [nil] slice is bound as [NULL], which the
    database refuses; what [AddUser] is said to accept is a hash that is
    not empty. *)
Definition AddUser (users : list User) (username salt : string) (saltedHash : list byte)
    : list User * (user_error + User) :=
  match addUser username salt saltedHash users with
  | None => (users, inl UserInsertFailed)
  | Some (users', insertedID) =>
      (users', inr (mkUser insertedID username salt saltedHash))
  end.

(** [func (s *Storage) GetUser] *)
Definition GetUser (users : list User) (username : string) : user_error + User :=
  match getUser username users with
  | Some (id, salt, saltedHash) => inr (mkUser id username salt saltedHash)
  | None => inl UserNotFound
  end.

End Filefreezer.

(* ================================================================= *)
(** ** Package [main] of cmd/freezer: the sync client                 *)
(* ================================================================= *)

Module Freezer.
Import Filefreezer.

Definition syncStatusMissing : Z := 1.
Definition syncStatusLocalNewer : Z := 2.
Definition syncStatusRemoteNewer : Z := 3.
Definition syncStatusSame : Z := 4.

(** [models.FileGetResponse]: an embedded [filefreezer.FileInfo] and the
    missing chunk numbers. *)
Record FileGetResponse : Type := mkFileGetResponse
  { fgr_FileInfo : FileInfo;
    MissingChunks : list Z }.

(** [models.FilePutRequest] *)
Record FilePutRequest : Type := mkFilePutRequest
  { fpr_FileName : string;
    fpr_LastMod : Z;
    fpr_ChunkCount : Z;
    fpr_FileHash : string }.

(** The calls of [runAuthRequest(target, method, token, body)] the client
    makes, by endpoint. *)
Inductive request : Type :=
| GetFileByName (fileName : string)                              (* GET    /api/file/name *)
| GetChunkList (fileID : Z)                                      (* GET    /api/chunk/%d *)
| PutChunk (fileID i : Z) (chunkHash : string) (b : list byte)   (* PUT    /api/chunk/%d/%d/%s *)
| GetChunk (fileID i : Z)                                        (* GET    /api/chunk/%d/%d *)
| PostFile (req : FilePutRequest)                                (* POST   /api/files *)
| DeleteFile (fileID : Z).                                       (* DELETE /api/file/%d *)

(** What a run does to the outside, in order. *)
Inductive event : Type :=
| EvRequest (r : request)
| EvReadChunk (filename : string) (i : Z)
| EvCompareHash (i : Z)
| EvOpenTrunc (filename : string)
| EvWrite (filename : string) (b : list byte).

(** One constructor per error site of the client. *)
Inductive cerror : Type :=
| ECalcHash            (* "Failed to calculate the file hash data for %s" *)
| EUploadFile          (* "Failed to upload the file to the server %s" *)
| EFileInfoJSON        (* "Failed to get the file information for the file name given" *)
| EChunkListJSON       (* "Failed to get the file chunk list for the file name given" *)
| ECheckLocal          (* "Failed to check the local file (%s) against the remote hashes" *)
| EUnreconciled        (* "found differences between local (%s) and remote (%s) versions, but this was not reconcilled" *)
| ERequest             (* the error of runAuthRequest, returned as it is *)
| EJSON                (* the error of json.Unmarshal, returned as it is *)
| EUploadChunk         (* "Failed to upload the chunk to the server" *)
| EUploadLocalChunk    (* "Failed to upload the local file chunk for %s" *)
| ERemoveRemote        (* "Failed to remove the file %d" *)
| EOpenLocal           (* "Failed to open local file (%s) for writing" *)
| EGetChunk            (* "Failed to get the file chunk #%d for file id%d" *)
| EWriteLocal          (* "Failed to write to the #%d chunk to the local file %s" *)
| EReadLocal           (* a chunk of the local file could not be read *)
| EIndexOutOfRange.    (* run-time panic: slice index out of range *)

(** What the client runs against: the server behind [runAuthRequest], the
    local file system, the flags, and the functions of this repository
    that the client calls but that are defined outside the modelled files.
    [World] is the state of everything outside the client. *)
Record Env : Type := mkEnv
  { World : Type;
    body : Type;
    (** [runAuthRequest]: the response body, and whether [err == nil]. *)
    runAuthRequest : request -> World -> World * (body * bool);
    (** [json.Unmarshal] of a body into each response type of [models]. *)
    unmarshalFileGet : body -> option FileGetResponse;
    unmarshalFileChunks : body -> option (list FileChunk);
    unmarshalFileChunkPut : body -> option bool;
    unmarshalFileChunkGet : body -> option FileChunk;
    unmarshalFilePut : body -> option Z;
    (** [os.Stat(name)] finds the file. *)
    fileExists : string -> World -> bool;
    (** [filefreezer.CalcFileHashInfo(chunkSize, name)]:
        [(chunkCount, lastMod, hash)], or an error. *)
    CalcFileHashInfo : Z -> string -> World -> option (Z * Z * string);
    (** The bytes of chunk [i] of the local file: up to [chunkSize] bytes
        from offset [i * chunkSize]. *)
    readChunk : Z -> string -> Z -> World -> option (list byte);
    (** [os.OpenFile(name, O_WRONLY|O_CREATE|O_TRUNC, ...)] and
        [localFile.Write]; [true] when [err == nil]. *)
    openTrunc : string -> World -> World * bool;
    fileWrite : string -> list byte -> World -> World * bool;
    (** [base64.URLEncoding.EncodeToString(sha1(b))] *)
    sha1_base64 : list byte -> string;
    flagChunkSize : Z;
    flagExtraStrict : bool }.

Section Client.

Variable E : Env.

(** The client: a state transformer on the world that also yields the
    events it caused. *)
Definition Cl (A : Type) : Type := World E -> World E * list event * A.

Definition ret {A} (a : A) : Cl A := fun w => (w, [], a).

Definition bind {A B} (m : Cl A) (k : A -> Cl B) : Cl B :=
  fun w =>
    let '(w1, ev1, a) := m w in
    let '(w2, ev2, b) := k a w1 in
    (w2, ev1 ++ ev2, b).

Local Notation "x <- m ;; k" := (bind m (fun x => k))
  (at level 61, m at next level, right associativity).
Local Notation "' pat <- m ;; k" := (bind m (fun x => match x with pat => k end))
  (at level 61, pat pattern, m at next level, right associativity).

Definition doRequest (r : request) : Cl (body E * bool) :=
  fun w => let (w', resp) := runAuthRequest E r w in (w', [EvRequest r], resp).

Definition doStat (filename : string) : Cl bool :=
  fun w => (w, [], fileExists E filename w).

Definition doCalcFileHashInfo (filename : string) : Cl (option (Z * Z * string)) :=
  fun w => (w, [], CalcFileHashInfo E (flagChunkSize E) filename w).

Definition doReadChunk (chunkSize : Z) (filename : string) (i : Z)
    : Cl (option (list byte)) :=
  fun w => (w, [EvReadChunk filename i], readChunk E chunkSize filename i w).

Definition doOpenTrunc (filename : string) : Cl bool :=
  fun w => let (w', ok) := openTrunc E filename w in (w', [EvOpenTrunc filename], ok).

Definition doWrite (filename : string) (b : list byte) : Cl bool :=
  fun w => let (w', ok) := fileWrite E filename b w in (w', [EvWrite filename b], ok).

Definition emit (e : event) : Cl unit := fun w => (w, [e], tt).

(** Modelled from the spec: [forEachChunk], which the client calls and which
    is defined outside the modelled files.  It iterates the chunk indices
    [0 <= i < chunkCount]; for each it reads [chunkSize] bytes from offset
    [i * chunkSize] and hands index and bytes to the callback.  The callback
    answers [(continue, err)], as its three call sites show: an error stops
    the iteration and is returned, [continue = false] stops it without one.
    The variables a Go closure captures and updates are the accumulator. *)
Fixpoint forEachChunk_from {A} (chunkSize : Z) (filename : string)
    (eachFunc : Z -> list byte -> A -> Cl (A * bool * option cerror))
    (n : nat) (i : Z) (acc : A) : Cl (A * option cerror) :=
  match n with
  | O => ret (acc, None)
  | S n' =>
      r <- doReadChunk chunkSize filename i ;;
      match r with
      | None => ret (acc, Some EReadLocal)
      | Some b =>
          '(acc', contin, err) <- eachFunc i b acc ;;
          match err with
          | Some e => ret (acc', Some e)
          | None =>
              if contin
              then forEachChunk_from chunkSize filename eachFunc n' (i + 1) acc'
              else ret (acc', None)
          end
      end
  end.

Definition forEachChunk {A} (chunkSize : Z) (filename : string) (localChunkCount : Z)
    (eachFunc : Z -> list byte -> A -> Cl (A * bool * option cerror)) (acc : A)
    : Cl (A * option cerror) :=
  forEachChunk_from chunkSize filename eachFunc (Z.to_nat localChunkCount) 0 acc.

(** The closure [func(i int, b []byte) (bool, error)] that [syncUploadMissing]
    and [syncUpload] pass to [forEachChunk]; it captures [uploadCount]. *)
Definition uploadChunk (remoteID : Z) (i : Z) (b : list byte) (uploadCount : Z)
    : Cl (Z * bool * option cerror) :=
  let chunkHash := sha1_base64 E b in
  '(resp, ok) <- doRequest (PutChunk remoteID i chunkHash b) ;;
  if negb ok then ret (uploadCount, false, Some ERequest)
  else
    match unmarshalFileChunkPut E resp with
    | Some true => ret (uploadCount + 1, true, None)
    | _ => ret (uploadCount, false, Some EUploadChunk)
    end.

(** [func syncUploadMissing] *)
Definition syncUploadMissing (remoteID : Z) (filename remoteFilepath : string)
    (localChunkCount : Z) : Cl (Z * option cerror) :=
  '(uploadCount, err) <- forEachChunk (flagChunkSize E) filename localChunkCount
                                      (uploadChunk remoteID) 0 ;;
  match err with
  | Some _ => ret (uploadCount, Some EUploadLocalChunk)
  | None => ret (uploadCount, None)
  end.

(** [func syncUpload] *)
Definition syncUpload (filename remoteFilepath : string) (localLastMod localChunkCount : Z)
    (localHash : string) : Cl (Z * option cerror) :=
  let putReq := mkFilePutRequest remoteFilepath localLastMod localChunkCount localHash in
  '(resp, ok) <- doRequest (PostFile putReq) ;;
  if negb ok then ret (0, Some ERequest)
  else
    match unmarshalFilePut E resp with
    | None => ret (0, Some EJSON)
    | Some remoteID =>
        '(uploadCount, err) <- forEachChunk (flagChunkSize E) filename localChunkCount
                                            (uploadChunk remoteID) 0 ;;
        match err with
        | Some _ => ret (uploadCount, Some EUploadLocalChunk)
        | None => ret (uploadCount, None)
        end
    end.

(** [func syncUploadNewer] *)
Definition syncUploadNewer (remoteFileID : Z) (filename remoteFilepath : string)
    (localLastMod localChunkCount : Z) (localHash : string) : Cl (Z * option cerror) :=
  '(_, ok) <- doRequest (DeleteFile remoteFileID) ;;
  if negb ok then ret (0, Some ERemoveRemote)
  else syncUpload filename remoteFilepath localLastMod localChunkCount localHash.

(** [bytes.IndexByte]: the index of the first [c] in [b], or [-1]. *)
Fixpoint IndexByte (b : list byte) (c : byte) : Z :=
  match b with
  | [] => -1
  | x :: b' =>
      if Byte.eqb x c then 0
      else let k := IndexByte b' c in if k <? 0 then -1 else 1 + k
  end.

(** "trim the buffer at the EOF marker of byte(0)", as [syncDownload] does
    it on every chunk it receives. *)
Definition trimEOF (chunk : list byte) : list byte :=
  let eofIndex := IndexByte chunk x00 in
  if (eofIndex >? 0) && (eofIndex <? Z.of_nat (length chunk))
  then firstn (Z.to_nat eofIndex) chunk
  else chunk.

(** The body of the [for i := 0; i < chunkCount; i++] loop of [syncDownload],
    with [n] iterations to go. *)
Fixpoint syncDownload_from (remoteID : Z) (filename : string) (n : nat) (i : Z)
    (chunksWritten : Z) : Cl (Z * option cerror) :=
  match n with
  | O => ret (chunksWritten, None)
  | S n' =>
      '(resp, ok) <- doRequest (GetChunk remoteID i) ;;
      if negb ok then ret (chunksWritten, Some EGetChunk)
      else
        match unmarshalFileChunkGet E resp with
        | None => ret (chunksWritten, Some EGetChunk)
        | Some chunkResp =>
            let chunk := trimEOF (fc_Chunk chunkResp) in
            written <- doWrite filename chunk ;;
            if negb written then ret (chunksWritten, Some EWriteLocal)
            else syncDownload_from remoteID filename n' (i + 1) (chunksWritten + 1)
        end
  end.

(** [func syncDownload] *)
Definition syncDownload (remoteID : Z) (filename remoteFilepath : string) (chunkCount : Z)
    : Cl (Z * option cerror) :=
  opened <- doOpenTrunc filename ;;
  if negb opened then ret (0, Some EOpenLocal)
  else syncDownload_from remoteID filename (Z.to_nat chunkCount) 0 0.

(** The closure of the extra-strict check of [runSyncFile]; it captures
    [different] and reads [remoteChunks.Chunks[i]]. *)
Definition compareChunk (remoteChunks : list FileChunk) (i : Z) (b : list byte)
    (different : bool) : Cl (bool * bool * option cerror) :=
  let chunkHash := sha1_base64 E b in
  _ <- emit (EvCompareHash i) ;;
  match nth_error remoteChunks (Z.to_nat i) with
  | None => ret (different, false, Some EIndexOutOfRange)
  | Some rc =>
      if negb (String.eqb chunkHash (fc_ChunkHash rc))
      then ret (true, false, None)
      else ret (different, true, None)
  end.

(** The three-way resolution that ends [runSyncFile], reached once a
    difference between the local and the remote file is established. *)
Definition resolveDifference (remote : FileGetResponse)
    (localFilename remoteFilepath : string) (localChunkCount localLastMod : Z)
    (localHash : string) : Cl (Z * Z * option cerror) :=
  let rfi := fgr_FileInfo remote in
  if localLastMod >? fi_LastMod rfi then
    '(ulCount, e) <- syncUploadNewer (fi_FileID rfi) localFilename remoteFilepath
                                     localLastMod localChunkCount localHash ;;
    ret (syncStatusLocalNewer, ulCount, e)
  else if localLastMod <? fi_LastMod rfi then
    '(dlCount, e) <- syncDownload (fi_FileID rfi) localFilename remoteFilepath
                                  (fi_ChunkCount rfi) ;;
    ret (syncStatusRemoteNewer, dlCount, e)
  else if Z.of_nat (length (MissingChunks remote)) >? 0 then
    '(ulCount, e) <- syncUploadMissing (fi_FileID rfi) localFilename remoteFilepath
                                       localChunkCount ;;
    ret (syncStatusMissing, ulCount, e)
  else ret (0, 0, Some EUnreconciled).

(** [func runSyncFile]: [(status, changeCount, e)]. *)
Definition runSyncFile (localFilename remoteFilepath : string)
    : Cl (Z * Z * option cerror) :=
  '(resp, ok) <- doRequest (GetFileByName remoteFilepath) ;;
  if negb ok then
    info <- doCalcFileHashInfo localFilename ;;
    match info with
    | None => ret (syncStatusMissing, 0, Some ECalcHash)
    | Some (localChunkCount, localLastMod, localHash) =>
        '(ulCount, err) <- syncUpload localFilename remoteFilepath localLastMod
                                      localChunkCount localHash ;;
        match err with
        | Some _ => ret (syncStatusMissing, ulCount, Some EUploadFile)
        | None => ret (syncStatusLocalNewer, ulCount, None)
        end
    end
  else
    match unmarshalFileGet E resp with
    | None => ret (0, 0, Some EFileInfoJSON)
    | Some remote =>
        let rfi := fgr_FileInfo remote in
        present <- doStat localFilename ;;
        if negb present then
          '(dlCount, err) <- syncDownload (fi_FileID rfi) localFilename remoteFilepath
                                          (fi_ChunkCount rfi) ;;
          ret (syncStatusRemoteNewer, dlCount, err)
        else
          info <- doCalcFileHashInfo localFilename ;;
          match info with
          | None => ret (0, 0, Some ECalcHash)
          | Some (localChunkCount, localLastMod, localHash) =>
              let resolve := resolveDifference remote localFilename remoteFilepath
                                               localChunkCount localLastMod localHash in
              if String.eqb localHash (fi_FileHash rfi)
                 && (Z.of_nat (length (MissingChunks remote)) =? 0)
                 && (localChunkCount =? fi_ChunkCount rfi)
              then
                if flagExtraStrict E then
                  '(resp, _) <- doRequest (GetChunkList (fi_FileID rfi)) ;;
                  match unmarshalFileChunks E resp with
                  | None => ret (0, 0, Some EChunkListJSON)
                  | Some remoteChunks =>
                      let remoteChunkCount := Z.of_nat (length remoteChunks) in
                      if localChunkCount =? remoteChunkCount then
                        '(different, err) <- forEachChunk (flagChunkSize E) localFilename
                                               localChunkCount (compareChunk remoteChunks)
                                               false ;;
                        match err with
                        | Some _ => ret (0, 0, Some ECheckLocal)
                        | None =>
                            if negb different then ret (syncStatusSame, 0, None)
                            else resolve
                        end
                      else ret (syncStatusSame, 0, None)
                  end
                else ret (syncStatusSame, 0, None)
              else resolve
          end
    end.

End Client.

End Freezer.

(* ================================================================= *)
(** ** Package [routes]: the route that lists files                   *)
(* ================================================================= *)

Module Routes.
Import Filefreezer.

(** [type userCredentialsContext struct] *)
Record userCredentialsContext : Type := mkUserCredentials
  { creds_ID : Z;
    creds_Name : string }.

(** What a handler writes: [http.Error(w, msg, code)], or the JSON of an
    [AllFilesGetResponse]. *)
Inductive http_response : Type :=
| HttpError (msg : string) (code : Z)
| AllFilesGetResponse (Files : list FileInfo).

Definition StatusUnauthorized : Z := 401.
Definition StatusForbidden : Z := 403.
Definition StatusNotFound : Z := 404.

(** [func handleGetAllFiles].  [getAllUserFileInfos] is the method
    [state.Storage.GetAllUserFileInfos] of the state the handler is built
    with: besides the rows of [FileInfo] it reports the errors of the
    database connection, which no table accounts for.  [userCredsI] is the
    value of the ["UserCredentials"] key of the request context. *)
Definition handleGetAllFiles (getAllUserFileInfos : Z -> result (list FileInfo))
    (userCredsI : option userCredentialsContext) : http_response :=
  match userCredsI with
  | None => HttpError "Failed to get the user credentials" StatusUnauthorized
  | Some userCreds =>
      match getAllUserFileInfos (creds_ID userCreds) with
      | Err _ => HttpError "Failed to get files for the user" StatusNotFound
      | Ok allFileInfos => AllFilesGetResponse allFileInfos
      end
  end.

Section Middleware.

(** [state.Authorizor], defined outside the modelled files: [VerifyToken]
    yields a token unless it fails, [GetUserFromToken] the user name and id
    the token was issued for. *)
Variables Request Token : Type.
Variable VerifyToken : Request -> option Token.
Variable GetUserFromToken : Token -> string * Z.

(** [func authenticateToken] *)
Definition authenticateToken (next : option userCredentialsContext -> http_response)
    (r : Request) : http_response :=
  match VerifyToken r with
  | None => HttpError "Failed to authenticate." StatusForbidden
  | Some token =>
      let (username, userid) := GetUserFromToken token in
      next (Some (mkUserCredentials userid username))
  end.

(** The handler [InitRoutes] installs for [GET /api/files]. *)
Definition filesRoute (getAllUserFileInfos : Z -> result (list FileInfo))
    : Request -> http_response :=
  authenticateToken (handleGetAllFiles getAllUserFileInfos).

End Middleware.

End Routes.

(* ================================================================= *)
(** ** Vocabulary of the properties                                   *)
(* ================================================================= *)

Import Filefreezer.

(** *** Storage *)

Definition chunk_len (r : FileChunk) : Z := Z.of_nat (length (fc_Chunk r)).

Definition sum_Z (l : list Z) : Z := fold_right Z.add 0 l.

(** The chunk row belongs to a file of [userID]. *)
Definition owned_by (d : DB) (userID : Z) (r : FileChunk) : bool :=
  match getFileInfoOwner (fc_FileID r) d with
  | Some o => o =? userID
  | None => false
  end.

(** The sum of the lengths of those chunks among [rows] that belong to
    files of [userID]. *)
Definition bytes_of (d : DB) (userID : Z) (rows : list FileChunk) : Z :=
  sum_Z (map chunk_len (filter (owned_by d userID) rows)).

(** The sum of the lengths of all chunks stored for the files of [userID]. *)
Definition stored_bytes (d : DB) (userID : Z) : Z :=
  bytes_of d userID (FileChunks d).

(** The chunk rows stored for a file. *)
Definition chunk_rows (d : DB) (fileID : Z) : list FileChunk :=
  filter (fun r => fc_FileID r =? fileID) (FileChunks d).

(** The [PRIMARY KEY] column of every table holds no value twice. *)
Definition keys_unique (d : DB) : Prop :=
  NoDup (map perms_UserID (Perms d)) /\
  NoDup (map ui_UserID (UserInfo d)) /\
  NoDup (map fi_FileID (FileInfoT d)) /\
  NoDup (map fc_FileID (FileChunks d)).

(** Every stored chunk belongs to a file whose owner has a [UserInfo] row. *)
Definition chunks_accounted_to_users (d : DB) : Prop :=
  forall r, In r (FileChunks d) ->
    exists o, getFileInfoOwner (fc_FileID r) d = Some o /\ getUserInfo o d <> None.

(** What holds of every reachable state. *)
Definition store_invariant (d : DB) : Prop :=
  keys_unique d /\ chunks_accounted_to_users d.

(** The states the verbs of [storage.go] lead to from freshly created
    tables, under any setting of the chunk size. *)
Inductive reachable : Storage -> Prop :=
| reach_CreateTables chunkSize :
    reachable (mkStorage chunkSize CreateTables)
| reach_ChunkSize s chunkSize :
    reachable s -> reachable (mkStorage chunkSize (db s))
| reach_SetUserQuota s userID quota :
    reachable s -> reachable (SetUserQuota s userID quota)
| reach_SetUserInfo s userID allocated revision :
    reachable s -> reachable (SetUserInfo s userID allocated revision)
| reach_UpdateUserInfo s userID allocDelta :
    reachable s -> reachable (fst (UpdateUserInfo s userID allocDelta))
| reach_AddFileInfo s userID filename lastMod chunkCount fileHash :
    reachable s ->
    reachable (fst (AddFileInfo s userID filename lastMod chunkCount fileHash))
| reach_AddFileChunk s userID fileID chunkNumber chunkHash chunk :
    reachable s ->
    reachable (fst (AddFileChunk s userID fileID chunkNumber chunkHash chunk))
| reach_RemoveFileChunk s userID fileID chunkNumber :
    reachable s ->
    reachable (fst (RemoveFileChunk s userID fileID chunkNumber)).

(** Chunk operations, and the runs in which each of them succeeds. *)
Inductive chunk_op : Type :=
| OpAdd (userID fileID chunkNumber : Z) (chunkHash : string) (chunk : list byte)
| OpRemove (userID fileID chunkNumber : Z).

Definition apply_op (s : Storage) (o : chunk_op) : option Storage :=
  match o with
  | OpAdd u f n h c =>
      match AddFileChunk s u f n h c with
      | (s', Ok _) => Some s'
      | (_, Err _) => None
      end
  | OpRemove u f n =>
      match RemoveFileChunk s u f n with
      | (s', (true, _)) => Some s'
      | (_, (false, _)) => None
      end
  end.

Fixpoint run_ops (s : Storage) (ops : list chunk_op) : option Storage :=
  match ops with
  | [] => Some s
  | o :: ops' =>
      match apply_op s o with
      | Some s' => run_ops s' ops'
      | None => None
      end
  end.

(** I1 of the data model: [allocated] is the sum of the stored chunk
    lengths, for every user with a [UserInfo] row. *)
Definition allocated_exact (d : DB) : Prop :=
  forall u a r, getUserInfo u d = Some (a, r) -> a = stored_bytes d u.

(** [allocated] covers the stored chunks. *)
Definition allocated_covers (d : DB) : Prop :=
  forall u a r, getUserInfo u d = Some (a, r) -> stored_bytes d u <= a.

(** I2 of the data model: [allocated] is at most [quota]. *)
Definition within_quota (d : DB) : Prop :=
  forall u a r q,
    getUserInfo u d = Some (a, r) -> getUserQuota u d = Some q -> a <= q.

(** Every [Quota] is a value of a 64-bit [INTEGER] column. *)
Definition quotas_int64 (d : DB) : Prop :=
  forall u q, getUserQuota u d = Some q -> int64_range q.

(** No [OpAdd] of the run writes to a file that has a chunk row: the
    [REPLACE] of [addFileChunk] deletes nothing. *)
Fixpoint no_replacement (s : Storage) (ops : list chunk_op) : Prop :=
  match ops with
  | [] => True
  | o :: ops' =>
      match o with
      | OpAdd _ f _ _ _ => chunk_rows (db s) f = []
      | OpRemove _ _ _ => True
      end /\
      match apply_op s o with
      | Some s' => no_replacement s' ops'
      | None => True
      end
  end.

(** The verbs of [storage.go] that take a [fileID], called by [userID];
    the outcome keeps the error only. *)
Inductive file_verb : Type :=
| VGetFileInfo
| VGetMissingChunkNumbersForFile
| VAddFileChunk (chunkNumber : Z) (chunkHash : string) (chunk : list byte)
| VRemoveFileChunk (chunkNumber : Z)
| VGetFileChunk (chunkNumber : Z).

Definition error_of {A} (r : result A) : option error :=
  match r with
  | Ok _ => None
  | Err e => Some e
  end.

Definition call_verb (s : Storage) (userID fileID : Z) (v : file_verb)
    : Storage * option error :=
  match v with
  | VGetFileInfo =>
      let (s', r) := GetFileInfo s userID fileID in (s', error_of r)
  | VGetMissingChunkNumbersForFile =>
      let (s', r) := GetMissingChunkNumbersForFile s userID fileID in (s', error_of r)
  | VAddFileChunk n h c =>
      let (s', r) := AddFileChunk s userID fileID n h c in (s', error_of r)
  | VRemoveFileChunk n =>
      let (s', r) := RemoveFileChunk s userID fileID n in (s', snd r)
  | VGetFileChunk n => (s, error_of (GetFileChunk s fileID n))
  end.

(** The ownership guard as P3 words it, at one call. *)
Definition ownership_guard_at (s : Storage) (userID fileID : Z) (v : file_verb) : Prop :=
  forall owner,
    getFileInfoOwner fileID (db s) = Some owner ->
    userID <> owner ->
    call_verb s userID fileID v = (s, Some NotOwner).

(** P4 in the words of the spec: the [i] in [[0, chunkCount)] for which no
    chunk row [(fileID, i)] is stored, ascending. *)
Definition missing_by_spec (d : DB) (fileID chunkCount : Z) : list Z :=
  filter (fun i => negb (existsb (chunk_at fileID i) (FileChunks d))) (upto chunkCount).

(** A store with one user (id 1, quota 100, nothing allocated) who has
    registered one file of three chunks (id 1); chunks hold at most 4
    bytes. *)
Definition store0 : Storage :=
  fst (AddFileInfo (SetUserInfo (SetUserQuota (mkStorage 4 CreateTables) 1 100) 1 0 0)
                   1 "a.txt" 10 3 "H").

Definition abc : list byte := [x61; x62; x63].

(** [store0] with the quota lowered to two bytes. *)
Definition store_tight : Storage := SetUserQuota store0 1 2.

(** The "quota block" scenario: chunks of at most 128 bytes, one user with
    quota 200 and one registered file of three chunks. *)
Definition store_quota200 : Storage :=
  fst (AddFileInfo (SetUserInfo (SetUserQuota (mkStorage 128 CreateTables) 1 200) 1 0 0)
                   1 "f" 10 3 "H").

Definition chunk128 : list byte := repeat x61 128.

(** [store0] after chunk 2 of file 1 has been stored. *)
Definition store_chunk2 : Storage := fst (AddFileChunk store0 1 1 2 "h2" abc).

(** [store0] after chunk 0 of file 1 has been stored twice. *)
Definition store_reput : Storage :=
  fst (AddFileChunk (fst (AddFileChunk store0 1 1 0 "h0" abc)) 1 1 0 "h0" abc).

(** *** Sync client *)

Import Freezer.

(** The chunk numbers of the [PUT /api/chunk] requests of a run, in order. *)
Definition put_indices (evs : list event) : list Z :=
  flat_map (fun e => match e with
                     | EvRequest (PutChunk _ i _ _) => [i]
                     | _ => []
                     end) evs.

(** The byte strings a run writes to the local file, in order. *)
Definition written (evs : list event) : list (list byte) :=
  flat_map (fun e => match e with
                     | EvWrite _ b => [b]
                     | _ => []
                     end) evs.

(** The consecutive integers [i, i+1, ..., i+k-1]. *)
Definition range (i : Z) (k : nat) : list Z := map (fun j => i + Z.of_nat j) (seq 0 k).

(** The server accepts the upload of the bytes [b] as chunk [i] of the file:
    the request succeeds and its answer decodes to [Status: true]. *)
Definition put_accepted (E : Env) (remoteID i : Z) (b : list byte) (w : World E) : bool :=
  let '(_, (resp, ok)) := runAuthRequest E (PutChunk remoteID i (sha1_base64 E b) b) w in
  ok && match unmarshalFileChunkPut E resp with
        | Some true => true
        | _ => false
        end.

(** An upload loop over [localChunkCount] chunks that ends in the world
    [w'] after the events [evs] with the count [n] stopped at chunk [n]:
    the chunks below [n] were put, and either chunk [n] could not be read,
    or it was read and put and the server did not accept it. *)
Definition upload_stopped (E : Env) (remoteID : Z) (filename : string)
    (localChunkCount : Z) (w' : World E) (evs : list event) (n : Z) : Prop :=
  0 <= n < localChunkCount /\
  ((readChunk E (flagChunkSize E) filename n w' = None /\
    put_indices evs = upto n)
   \/
   (exists (wj : World E) (b : list byte),
      readChunk E (flagChunkSize E) filename n wj = Some b /\
      put_accepted E remoteID n b wj = false /\
      fst (runAuthRequest E (PutChunk remoteID n (sha1_base64 E b) b) wj) = w' /\
      put_indices evs = upto (n + 1))).

(** Every chunk of the local file can be read, and the server accepts
    every upload. *)
Definition uploads_never_fail (E : Env) (remoteID : Z) (filename : string)
    (localChunkCount : Z) : Prop :=
  (forall i w, 0 <= i < localChunkCount ->
               readChunk E (flagChunkSize E) filename i w <> None) /\
  (forall i b w, put_accepted E remoteID i b w = true).

(** The claim of the spec on chunk trimming, in its words: the bytes before
    the first zero byte, and all of them when there is none. *)
Fixpoint truncate_at_first_zero (chunk : list byte) : list byte :=
  match chunk with
  | [] => []
  | x :: chunk' => if Byte.eqb x x00 then [] else x :: truncate_at_first_zero chunk'
  end.

(** A fixed environment to run the client in: a server that answers every
    request from canned data and accepts every upload, and a local file
    system holding at most one file. *)
Inductive canned_body : Type :=
| CFileGet (r : FileGetResponse)
| CFileChunks (l : list FileChunk)
| CFileChunkPut (status : bool)
| CFileChunkGet (c : FileChunk)
| CFilePut (fileID : Z)
| CEmpty.

Record Scenario : Type := mkScenario
  { sc_remote : option FileGetResponse;    (* the file as registered on the server *)
    sc_remoteChunks : list FileChunk;      (* the answer to GET /api/chunk/{fileid} *)
    sc_local : option (list byte);         (* the bytes of the local file *)
    sc_localChunkCount : Z;
    sc_localLastMod : Z;
    sc_localHash : string;
    sc_chunkSize : Z;
    sc_strict : bool }.

Definition canned_request (sc : Scenario) (r : request) (w : unit)
    : unit * (canned_body * bool) :=
  match r with
  | GetFileByName _ =>
      match sc_remote sc with
      | Some f => (w, (CFileGet f, true))
      | None => (w, (CEmpty, false))
      end
  | GetChunkList _ => (w, (CFileChunks (sc_remoteChunks sc), true))
  | PutChunk _ _ _ _ => (w, (CFileChunkPut true, true))
  | GetChunk fileID i =>
      match nth_error (sc_remoteChunks sc) (Z.to_nat i) with
      | Some c => (w, (CFileChunkGet c, true))
      | None => (w, (CEmpty, false))
      end
  | PostFile _ => (w, (CFilePut 1, true))
  | DeleteFile _ => (w, (CEmpty, true))
  end.

Definition canned_env (sc : Scenario) : Env :=
  mkEnv unit canned_body
    (canned_request sc)
    (fun b => match b with CFileGet r => Some r | _ => None end)
    (fun b => match b with CFileChunks l => Some l | _ => None end)
    (fun b => match b with CFileChunkPut st => Some st | _ => None end)
    (fun b => match b with CFileChunkGet c => Some c | _ => None end)
    (fun b => match b with CFilePut i => Some i | _ => None end)
    (fun _ _ => match sc_local sc with Some _ => true | None => false end)
    (fun _ _ _ =>
       match sc_local sc with
       | Some _ => Some (sc_localChunkCount sc, sc_localLastMod sc, sc_localHash sc)
       | None => None
       end)
    (fun chunkSize _ i _ =>
       match sc_local sc with
       | Some data =>
           Some (firstn (Z.to_nat chunkSize) (skipn (Z.to_nat (i * chunkSize)) data))
       | None => None
       end)
    (fun _ w => (w, true))
    (fun _ _ w => (w, true))
    string_of_list_byte
    (sc_chunkSize sc)
    (sc_strict sc).

(** The server holds file 1 (three chunks, last modified at 10, hash "H")
    and reports chunk 1 missing; the local file has the same modification
    time and hash, and ten bytes, in chunks of four. *)
Definition scenario_missing : Scenario :=
  mkScenario (Some (mkFileGetResponse (mkFileInfo 1 1 "a.txt" 10 3 "H") [1]))
             []
             (Some [x61; x62; x63; x64; x65; x66; x67; x68; x69; x6a])
             3 10 "H" 4 true.

(** The server holds file 1 in one chunk whose bytes start with a zero
    byte; there is no local file. *)
Definition scenario_leading_zero : Scenario :=
  mkScenario (Some (mkFileGetResponse (mkFileInfo 1 1 "a.txt" 10 1 "H") []))
             [mkFileChunk 1 0 "h0" [x00; x41; x42]]
             None
             0 0 "" 4 true.

(** Local and remote file agree on hash and chunk count (three), nothing is
    missing, and the server lists two chunk hashes. *)
Definition scenario_short_list : Scenario :=
  mkScenario (Some (mkFileGetResponse (mkFileInfo 1 1 "a.txt" 10 3 "H") []))
             [mkFileChunk 1 0 "x" []; mkFileChunk 1 1 "y" []]
             (Some [x61; x62; x63; x64; x65; x66; x67; x68; x69; x6a])
             3 10 "H" 4 true.

(** *** Further vocabulary *)

(** [Allocated] and [Revision] are 64-bit integers, and so are the values
    that [UPDATE UserInfo SET Allocated = Allocated + (delta), Revision =
    Revision + 1] computes from them: the sums are exact. *)
Definition update_in_int64 (allocated revision delta : Z) : Prop :=
  int64_range allocated /\ int64_range revision /\
  int64_range (allocated + delta) /\ int64_range (revision + 1).

(** The user who makes a chunk operation. *)
Definition op_user (o : chunk_op) : Z :=
  match o with
  | OpAdd u _ _ _ _ => u
  | OpRemove u _ _ => u
  end.

(** The number of operations of a run that [userID] makes. *)
Definition ops_by (userID : Z) (ops : list chunk_op) : Z :=
  Z.of_nat (length (filter (fun o => op_user o =? userID) ops)).

(** What a chunk operation adds to [allocated]: the length of the chunk it
    puts, or minus the length of the chunk it removes. *)
Definition op_delta (s : Storage) (o : chunk_op) : Z :=
  match o with
  | OpAdd _ _ _ _ c => Z.of_nat (length c)
  | OpRemove _ f n =>
      match getFileChunk f n (db s) with
      | Some (_, c) => - Z.of_nat (length c)
      | None => 0
      end
  end.

(** The chunk an operation binds to the [Chunk BLOB NOT NULL] column is
    not empty. *)
Definition op_chunk_nonempty (o : chunk_op) : Prop :=
  match o with
  | OpAdd _ _ _ _ c => c <> []
  | OpRemove _ _ _ => True
  end.

(** Along the run every put stores a chunk that is not empty, and every
    update of a [UserInfo] row stays within the 64-bit integers. *)
Fixpoint run_in_int64 (s : Storage) (ops : list chunk_op) : Prop :=
  match ops with
  | [] => True
  | o :: ops' =>
      op_chunk_nonempty o /\
      (forall a r, getUserInfo (op_user o) (db s) = Some (a, r) ->
                   update_in_int64 a r (op_delta s o)) /\
      match apply_op s o with
      | Some s' => run_in_int64 s' ops'
      | None => True
      end
  end.

(** I7 of the data model: no stored chunk is longer than the chunk size. *)
Definition chunks_within_size (s : Storage) : Prop :=
  forall r, In r (FileChunks (db s)) -> chunk_len r <= ChunkSize s.

(** I3 of the data model: a user has no two files of the same name. *)
Definition names_unique (d : DB) : Prop :=
  NoDup (map (fun r => (fi_UserID r, fi_FileName r)) (FileInfoT d)).

(** I4 of the data model: every chunk row belongs to a registered file. *)
Definition chunks_have_files (d : DB) : Prop :=
  forall r, In r (FileChunks d) -> getFileInfo (fc_FileID r) d <> None.

(** Strictly ascending. *)
Fixpoint ascending (l : list Z) : Prop :=
  match l with
  | [] => True
  | x :: l' => match l' with
               | [] => True
               | y :: _ => x < y
               end /\ ascending l'
  end.

(** The states of the [Users] table that [AddUser] leads to. *)
Inductive users_reachable : list User -> Prop :=
| users_empty : users_reachable []
| users_AddUser users username salt saltedHash :
    users_reachable users ->
    users_reachable (fst (AddUser users username salt saltedHash)).

(** The chunk numbers of the [GET /api/chunk] requests of a run, in order. *)
Definition get_indices (evs : list event) : list Z :=
  flat_map (fun e => match e with
                     | EvRequest (GetChunk _ i) => [i]
                     | _ => []
                     end) evs.

(** What the server answers to the request for chunk [i] of the file: a
    chunk, unless the request fails or its answer does not decode. *)
Definition get_answer (E : Env) (remoteID i : Z) (w : World E) : option FileChunk :=
  let '(_, (resp, ok)) := runAuthRequest E (GetChunk remoteID i) w in
  if ok then unmarshalFileChunkGet E resp else None.

(** A download loop over [chunkCount] chunks that ends in the world [w']
    after the events [evs] with the count [cnt] and the error [err]
    stopped at chunk [cnt]: the chunks up to [cnt] were asked for, and
    either the server gave no chunk [cnt], after [cnt] writes, or it gave
    one and the write of it, the one after [cnt] writes, failed. *)
Definition download_stopped (E : Env) (remoteID : Z) (filename : string)
    (chunkCount : Z) (w' : World E) (evs : list event) (cnt : Z) (err : cerror) : Prop :=
  0 <= cnt < chunkCount /\
  get_indices evs = upto (cnt + 1) /\
  ((err = EGetChunk /\
    length (written evs) = Z.to_nat cnt /\
    exists wj : World E,
      get_answer E remoteID cnt wj = None /\
      fst (runAuthRequest E (GetChunk remoteID cnt) wj) = w')
   \/
   (err = EWriteLocal /\
    length (written evs) = S (Z.to_nat cnt) /\
    exists (wj : World E) (c : FileChunk),
      get_answer E remoteID cnt wj = Some c /\
      fileWrite E filename (trimEOF (fc_Chunk c))
                (fst (runAuthRequest E (GetChunk remoteID cnt) wj))
      = (w', false))).

(** The local file can be opened and written, and the server gives every
    chunk of the file. *)
Definition downloads_never_fail (E : Env) (remoteID : Z) (filename : string)
    (chunkCount : Z) : Prop :=
  (forall w, snd (openTrunc E filename w) = true) /\
  (forall i w, 0 <= i < chunkCount -> get_answer E remoteID i w <> None) /\
  (forall b w, snd (fileWrite E filename b w) = true).

(** The requests of a run, in order. *)
Definition requests (evs : list event) : list request :=
  flat_map (fun e => match e with
                     | EvRequest r => [r]
                     | _ => []
                     end) evs.

(** The chunk numbers whose hashes a run compares, in order. *)
Definition compared (evs : list event) : list Z :=
  flat_map (fun e => match e with
                     | EvCompareHash i => [i]
                     | _ => []
                     end) evs.

(** The local chunk [i] hashes to the hash the server lists for chunk [i]. *)
Definition chunk_agrees (E : Env) (filename : string) (remoteChunks : list FileChunk)
    (w : World E) (i : Z) : Prop :=
  exists b rc,
    readChunk E (flagChunkSize E) filename i w = Some b /\
    nth_error remoteChunks (Z.to_nat i) = Some rc /\
    sha1_base64 E b = fc_ChunkHash rc.

(** The local chunk [i] hashes to something else. *)
Definition chunk_differs (E : Env) (filename : string) (remoteChunks : list FileChunk)
    (w : World E) (i : Z) : Prop :=
  exists b rc,
    readChunk E (flagChunkSize E) filename i w = Some b /\
    nth_error remoteChunks (Z.to_nat i) = Some rc /\
    sha1_base64 E b <> fc_ChunkHash rc.

Definition ten_bytes : list byte := [x61; x62; x63; x64; x65; x66; x67; x68; x69; x6a].

Definition remote_abc : FileGetResponse :=
  mkFileGetResponse (mkFileInfo 1 1 "a.txt" 10 3 "H") [].

(** Server and local file agree in everything, chunk hashes included. *)
Definition scenario_strict_same : Scenario :=
  mkScenario (Some remote_abc)
             [mkFileChunk 1 0 "abcd" []; mkFileChunk 1 1 "efgh" []; mkFileChunk 1 2 "ij" []]
             (Some ten_bytes) 3 10 "H" 4 true.

(** As before, but the server lists another hash for chunk 1. *)
Definition scenario_strict_mismatch : Scenario :=
  mkScenario (Some remote_abc)
             [mkFileChunk 1 0 "abcd" []; mkFileChunk 1 1 "XXXX" []; mkFileChunk 1 2 "ij" []]
             (Some ten_bytes) 3 10 "H" 4 true.

(** The server does not know the file. *)
Definition scenario_unregistered : Scenario :=
  mkScenario None [] (Some ten_bytes) 3 10 "H" 4 true.

(** Whole-file hashes agree, modification times do not, extra-strict is off. *)
Definition scenario_same_lax : Scenario :=
  mkScenario (Some remote_abc) [] (Some ten_bytes) 3 99 "H" 4 false.

(** The local file has another hash and is newer. *)
Definition scenario_local_newer : Scenario :=
  mkScenario (Some remote_abc) [] (Some ten_bytes) 3 20 "G" 4 false.

(** The local file has another hash and is older; the server has three
    chunks to offer. *)
Definition scenario_remote_newer : Scenario :=
  mkScenario (Some remote_abc)
             [mkFileChunk 1 0 "h0" [x41; x42]; mkFileChunk 1 1 "h1" [x43; x00; x44];
              mkFileChunk 1 2 "h2" [x45]]
             (Some ten_bytes) 3 5 "G" 4 false.

(** The local file has another hash and the same modification time. *)
Definition scenario_unreconciled : Scenario :=
  mkScenario (Some remote_abc) [] (Some ten_bytes) 3 10 "G" 4 false.

(* ================================================================= *)
(** ** Facts about integers, rows and tables                          *)
(* ================================================================= *)

Lemma wrap64_in_range (z : Z) : int64_range z -> wrap64 z = z.
Proof.
  unfold int64_range, min_int64, max_int64, wrap64. intros H.
  rewrite Z.mod_small; lia.
Qed.

Lemma sub64_exact (q a : Z) :
  0 <= q <= max_int64 -> 0 <= a <= max_int64 -> sub64 q a = q - a.
Proof.
  intros Hq Ha. unfold sub64. apply wrap64_in_range.
  unfold int64_range, min_int64, max_int64 in *. lia.
Qed.

Section Keys.

Context {R : Type} (key : R -> Z).

Lemma find_key_None (k : Z) (l : list R) :
  find (fun x => key x =? k) l = None -> filter (fun x => key x =? k) l = [].
Proof.
  induction l as [|x l IH]; simpl; [reflexivity|].
  destruct (key x =? k); [discriminate | exact IH].
Qed.

Lemma filter_key_absent (k : Z) (l : list R) :
  ~ In k (map key l) -> filter (fun x => key x =? k) l = [].
Proof.
  induction l as [|x l IH]; simpl; intros H; [reflexivity|].
  destruct (Z.eqb_spec (key x) k) as [E|E].
  - exfalso. apply H. now left.
  - apply IH. intros Hin. apply H. now right.
Qed.

(** Under a unique key, the rows selected by a key value are the row that
    [find] returns. *)
Lemma filter_key_unique (k : Z) (l : list R) (r : R) :
  NoDup (map key l) ->
  find (fun x => key x =? k) l = Some r ->
  filter (fun x => key x =? k) l = [r].
Proof.
  induction l as [|x l IH]; simpl; intros Hnd Hf; [discriminate|].
  inversion Hnd as [|? ? Hnotin Hnd']; subst.
  destruct (Z.eqb_spec (key x) k) as [E|E].
  - inversion Hf; subst. f_equal. apply filter_key_absent. exact Hnotin.
  - apply IH; assumption.
Qed.

Lemma filter_key_at_most_one (k : Z) (l : list R) :
  NoDup (map key l) -> (length (filter (fun x => (key x =? k)%Z) l) <= 1)%nat.
Proof.
  intros Hnd. destruct (find (fun x => key x =? k) l) as [r|] eqn:Hf.
  - rewrite (filter_key_unique k l r Hnd Hf). simpl. lia.
  - rewrite (find_key_None k l Hf). simpl. lia.
Qed.

Lemma NoDup_filter_keys (p : R -> bool) (l : list R) :
  NoDup (map key l) -> NoDup (map key (filter p l)).
Proof.
  induction l as [|x l IH]; simpl; intros Hnd; [constructor|].
  inversion Hnd as [|? ? Hnotin Hnd']; subst.
  destruct (p x); simpl; [constructor|]; auto.
  intros Hin. apply Hnotin.
  apply in_map_iff in Hin. destruct Hin as [y [Hy Hin]].
  apply filter_In in Hin. apply in_map_iff. exists y. tauto.
Qed.

(** [INSERT OR REPLACE] keeps the key unique, whatever the table held. *)
Lemma NoDup_replace_key (l : list R) (r : R) :
  NoDup (map key l) ->
  NoDup (map key (filter (fun x => negb (key x =? key r)) l ++ [r])).
Proof.
  intros Hnd. rewrite map_app. simpl.
  assert (Hf : NoDup (map key (filter (fun x => negb (key x =? key r)) l)))
    by (apply NoDup_filter_keys; exact Hnd).
  assert (Hnotin : ~ In (key r) (map key (filter (fun x => negb (key x =? key r)) l))).
  { intros Hin. apply in_map_iff in Hin. destruct Hin as [y [Hy Hin]].
    apply filter_In in Hin. destruct Hin as [_ Hneg].
    rewrite Hy, Z.eqb_refl in Hneg. discriminate. }
  clear Hnd. revert Hf Hnotin.
  generalize (map key (filter (fun x => negb (key x =? key r)) l)) as ks.
  induction ks as [|k ks IH]; simpl; intros Hf Hnotin.
  - constructor; [intros []|constructor].
  - inversion Hf; subst. constructor.
    + rewrite in_app_iff. simpl. intros [H|[H|[]]]; [contradiction|].
      apply Hnotin. now left.
    + apply IH; [assumption|]. intros H. apply Hnotin. now right.
Qed.

End Keys.

Section KeysReplace.

Context {R : Type} (key : R -> Z).

Lemma find_app_Some (p : R -> bool) (l l' : list R) (x : R) :
  find p l = Some x -> find p (l ++ l') = Some x.
Proof.
  induction l as [|y l IH]; simpl; [discriminate|].
  destruct (p y); [trivial | exact IH].
Qed.

Lemma find_app_None (p : R -> bool) (l l' : list R) :
  find p l = None -> find p (l ++ l') = find p l'.
Proof.
  induction l as [|y l IH]; simpl; [reflexivity|].
  destruct (p y); [discriminate | exact IH].
Qed.

(** After [INSERT OR REPLACE] of [r], a lookup by the key of [r] finds [r]. *)
Lemma find_replace_same (l : list R) (r : R) :
  find (fun x => key x =? key r)
       (filter (fun x => negb (key x =? key r)) l ++ [r]) = Some r.
Proof.
  rewrite find_app_None.
  - simpl. now rewrite Z.eqb_refl.
  - induction l as [|y l IH]; simpl; [reflexivity|].
    destruct (Z.eqb_spec (key y) (key r)) as [E|E]; simpl; [exact IH|].
    destruct (Z.eqb_spec (key y) (key r)); [contradiction | exact IH].
Qed.

(** ... and a lookup by another key finds what it found before. *)
Lemma find_replace_other (l : list R) (r : R) (k : Z) :
  k <> key r ->
  find (fun x => key x =? k)
       (filter (fun x => negb (key x =? key r)) l ++ [r])
  = find (fun x => key x =? k) l.
Proof.
  intros Hne.
  induction l as [|y l IH]; simpl.
  - destruct (Z.eqb_spec (key r) k); [congruence | reflexivity].
  - destruct (Z.eqb_spec (key y) (key r)) as [E|E]; simpl.
    + destruct (Z.eqb_spec (key y) k); [congruence | exact IH].
    + destruct (key y =? k); [reflexivity | exact IH].
Qed.

End KeysReplace.

Lemma next_FileID_above (l : list FileInfo) (r : FileInfo) :
  In r l -> fi_FileID r < next_FileID l.
Proof.
  unfold next_FileID.
  induction l as [|y l IH]; cbn [fold_right In]; intros Hin; [contradiction|].
  destruct Hin as [->|Hin]; [lia|]. specialize (IH Hin). lia.
Qed.

Lemma sum_Z_app (l l' : list Z) : sum_Z (l ++ l') = sum_Z l + sum_Z l'.
Proof. induction l as [|x l IH]; simpl; lia. Qed.

(* ================================================================= *)
(** ** Facts about the storage verbs                                  *)
(* ================================================================= *)

Ltac tx_unfold :=
  unfold checkOwner in *;
  unfold transact, tx_bind, tx_ret, tx_fail, scan, exec in *.

Lemma transact_Err {A} (s s' : Storage) (f : Tx A) (e : error) :
  transact s f = (s', Err e) -> s' = s.
Proof.
  unfold transact. destruct (f (db s)) as [d' [a|e']]; intros H; inversion H; reflexivity.
Qed.

Lemma with_db_same (s : Storage) : with_db s (db s) = s.
Proof. destruct s; reflexivity. Qed.

Lemma getUserInfo_update_same (delta u : Z) (d : DB) (a r : Z) :
  getUserInfo u d = Some (a, r) ->
  getUserInfo u (fst (updateUserInfo delta u d)) = Some (a + delta, r + 1).
Proof.
  unfold getUserInfo, updateUserInfo. simpl.
  induction (UserInfo d) as [|x l IH]; simpl; [discriminate|].
  destruct (Z.eqb_spec (ui_UserID x) u) as [E|E]; simpl.
  - rewrite E, Z.eqb_refl. simpl. intros H. inversion H; subst. reflexivity.
  - destruct (Z.eqb_spec (ui_UserID x) u); [contradiction | exact IH].
Qed.

Lemma getUserInfo_update_other (delta u v : Z) (d : DB) :
  v <> u ->
  getUserInfo v (fst (updateUserInfo delta u d)) = getUserInfo v d.
Proof.
  intros Hne. unfold getUserInfo, updateUserInfo. simpl.
  induction (UserInfo d) as [|x l IH]; simpl; [reflexivity|].
  destruct (Z.eqb_spec (ui_UserID x) u) as [E|E]; simpl.
  - rewrite E. destruct (Z.eqb_spec u v); [congruence | exact IH].
  - destruct (ui_UserID x =? v); [reflexivity | exact IH].
Qed.

Lemma updateUserInfo_keys (delta u : Z) (d : DB) :
  map ui_UserID (UserInfo (fst (updateUserInfo delta u d))) = map ui_UserID (UserInfo d).
Proof.
  unfold updateUserInfo. simpl. rewrite map_map. apply map_ext.
  intros x. destruct (ui_UserID x =? u); reflexivity.
Qed.

Lemma updateUserInfo_affected (delta u : Z) (d : DB) (ar : Z * Z) :
  NoDup (map ui_UserID (UserInfo d)) ->
  getUserInfo u d = Some ar ->
  snd (updateUserInfo delta u d) = 1.
Proof.
  intros Hnd Hg. unfold updateUserInfo, count_rows. simpl.
  unfold getUserInfo in Hg.
  destruct (find (fun r => ui_UserID r =? u) (UserInfo d)) as [x|] eqn:Hf; [|discriminate].
  rewrite (filter_key_unique ui_UserID u _ x Hnd Hf). reflexivity.
Qed.

Lemma updateUserInfo_affected_inv (delta u : Z) (d : DB) :
  snd (updateUserInfo delta u d) = 1 -> exists a r, getUserInfo u d = Some (a, r).
Proof.
  unfold updateUserInfo, count_rows, getUserInfo. simpl. intros H.
  destruct (find (fun r => ui_UserID r =? u) (UserInfo d)) as [x|] eqn:Hf.
  - exists (ui_Allocated x), (ui_Revision x). reflexivity.
  - rewrite (find_key_None ui_UserID u _ Hf) in H. discriminate.
Qed.

(** What a successful [AddFileChunk] has checked and done. *)
Lemma AddFileChunk_Ok_inv (s s' : Storage) (u f n : Z) (h : string) (c : list byte) (x : unit) :
  AddFileChunk s u f n h c = (s', Ok x) ->
  Z.of_nat (length c) <= ChunkSize s /\
  getFileInfoOwner f (db s) = Some u /\
  (exists q a r,
      getUserQuota u (db s) = Some q /\
      getUserInfo u (db s) = Some (a, r) /\
      Z.of_nat (length c) <= sub64 q a) /\
  s' = with_db s (fst (updateUserInfo (Z.of_nat (length c)) u
                         (fst (addFileChunk f n h c (db s))))).
Proof.
  unfold AddFileChunk.
  destruct (Z.gtb_spec (Z.of_nat (length c)) (ChunkSize s)) as [Hgt|Hle];
    [discriminate|].
  tx_unfold.
  destruct (getFileInfoOwner f (db s)) as [o|] eqn:Ho; simpl; [|discriminate].
  destruct (Z.eqb_spec o u) as [->|Hne]; simpl; [|discriminate].
  destruct (getUserQuota u (db s)) as [q|] eqn:Hq; simpl; [|discriminate].
  destruct (getUserInfo u (db s)) as [[a r]|] eqn:Hi; simpl; [|discriminate].
  destruct (Z.ltb_spec (sub64 q a) (Z.of_nat (length c))) as [Hlt|Hge]; simpl; [discriminate|].
  simpl.
  match goal with
  | |- context [negb (?n =? 1)] => destruct (Z.eqb_spec n 1) as [Haff|Haff]
  end; simpl; [|discriminate].
  intros H. inversion H; subst.
  repeat split; try assumption.
  exists q, a, r. auto.
Qed.

(** What a successful [RemoveFileChunk] has checked and done. *)
Lemma RemoveFileChunk_true_inv (s s' : Storage) (u f n : Z) (e : option error) :
  RemoveFileChunk s u f n = (s', (true, e)) ->
  e = None /\
  getFileInfoOwner f (db s) = Some u /\
  exists h c,
    getFileChunk f n (db s) = Some (h, c) /\
    (exists a r, getUserInfo u (db s) = Some (a, r)) /\
    s' = with_db s (fst (updateUserInfo (- Z.of_nat (length c)) u
                           (fst (removeFileChunk f n (db s))))).
Proof.
  unfold RemoveFileChunk. tx_unfold.
  destruct (getFileInfoOwner f (db s)) as [o|] eqn:Ho; simpl; [|discriminate].
  destruct (Z.eqb_spec o u) as [->|Hne]; simpl; [|discriminate].
  destruct (getFileChunk f n (db s)) as [[h c]|] eqn:Hc; simpl; [|discriminate].
  simpl.
  destruct (count_rows (chunk_at f n) (FileChunks (db s)) <=? 0); simpl; [discriminate|].
  simpl.
  match goal with
  | |- context [negb (?k =? 1)] => destruct (Z.eqb_spec k 1) as [Haff|Haff]
  end; simpl; [|discriminate].
  intros H. inversion H; subst.
  repeat split.
  exists h, c. split; [reflexivity|]. split; [|reflexivity].
  apply (updateUserInfo_affected_inv (- Z.of_nat (length c)) u
           (fst (removeFileChunk f n (db s)))). exact Haff.
Qed.

Lemma AddFileChunk_Err_unchanged (s s' : Storage) (u f n : Z) (h : string)
    (c : list byte) (e : error) :
  AddFileChunk s u f n h c = (s', Err e) -> s' = s.
Proof.
  unfold AddFileChunk.
  destruct (Z.of_nat (length c) >? ChunkSize s).
  - intros H. inversion H. reflexivity.
  - apply transact_Err.
Qed.

Lemma RemoveFileChunk_false_unchanged (s s' : Storage) (u f n : Z) (e : option error) :
  RemoveFileChunk s u f n = (s', (false, e)) -> s' = s.
Proof.
  unfold RemoveFileChunk.
  match goal with
  | |- context [transact s ?t] => destruct (transact s t) as [s1 [x|e1]] eqn:Ht
  end.
  - discriminate.
  - intros H. inversion H; subst. eapply transact_Err. exact Ht.
Qed.

(** *** Size guard *)

(** C6 (size guard).  A chunk longer than the configured chunk size makes
    [AddFileChunk] fail with [ChunkTooLarge], and the storage it returns is
    the storage it was given: no chunk row written, [allocated] and
    [revision] as before. *)
Theorem AddFileChunk_size_guard (s : Storage) (u f n : Z) (h : string) (c : list byte) :
  Z.of_nat (length c) > ChunkSize s ->
  AddFileChunk s u f n h c = (s, Err ChunkTooLarge) /\
  FileChunks (db (fst (AddFileChunk s u f n h c))) = FileChunks (db s) /\
  GetUserInfo (fst (AddFileChunk s u f n h c)) u = GetUserInfo s u.
Proof.
  intros Hgt.
  assert (E : AddFileChunk s u f n h c = (s, Err ChunkTooLarge)).
  { unfold AddFileChunk.
    destruct (Z.gtb_spec (Z.of_nat (length c)) (ChunkSize s)); [reflexivity | lia]. }
  rewrite E. auto.
Qed.

Lemma AddFileChunk_size_guard_witness :
  Z.of_nat (length [x61; x62; x63; x64; x65]) > ChunkSize store0 /\
  AddFileChunk store0 1 1 0 "h" [x61; x62; x63; x64; x65]
  = (store0, Err ChunkTooLarge).
Proof.
  split; [reflexivity|].
  apply (AddFileChunk_size_guard store0 1 1 0 "h" [x61; x62; x63; x64; x65]).
  reflexivity.
Defined.

(** *** Quota guard *)



(** The "quota block" scenario (quota 200, a file of 300 bytes in chunks of
    128): chunk 0 is stored, chunk 1 is refused with [QuotaExceeded], and
    afterwards [allocated] is 128, [revision] is 1 and no chunk 1 exists. *)
Example quota_block :
  let s1 := fst (AddFileChunk store_quota200 1 1 0 "h0" chunk128) in
  AddFileChunk s1 1 1 1 "h1" chunk128 = (s1, Err QuotaExceeded) /\
  GetUserInfo s1 1 = Ok (128, 1) /\
  GetFileChunk s1 1 1 = Err SqlErrNoRows.
Proof. vm_compute. repeat split. Qed.

(** *** Invariants of the reachable states *)

Lemma getUserInfo_setUserInfo_some (u a r o : Z) (d : DB) :
  getUserInfo o d <> None -> getUserInfo o (fst (setUserInfo u a r d)) <> None.
Proof.
  unfold getUserInfo, setUserInfo. simpl. intros H.
  destruct (Z.eq_dec o u) as [->|Hne].
  - pose proof (find_replace_same ui_UserID (UserInfo d) (mkUserInfoRow u a r)) as F.
    simpl in F. rewrite F. discriminate.
  - pose proof (find_replace_other ui_UserID (UserInfo d) (mkUserInfoRow u a r) o Hne) as F.
    simpl in F. rewrite F. exact H.
Qed.

Lemma getUserInfo_updateUserInfo_some (delta u o : Z) (d : DB) :
  getUserInfo o d <> None -> getUserInfo o (fst (updateUserInfo delta u d)) <> None.
Proof.
  intros H. destruct (Z.eq_dec o u) as [->|Hne].
  - destruct (getUserInfo u d) as [[a r]|] eqn:E; [|contradiction].
    rewrite (getUserInfo_update_same delta u d a r E). discriminate.
  - rewrite getUserInfo_update_other; assumption.
Qed.

Lemma invariant_CreateTables : store_invariant CreateTables.
Proof.
  split.
  - repeat split; constructor.
  - intros r [].
Qed.

Lemma invariant_setUserQuota (u q : Z) (d : DB) :
  store_invariant d -> store_invariant (fst (setUserQuota u q d)).
Proof.
  intros [(K1 & K2 & K3 & K4) Hacc]. split.
  - repeat split; simpl; try assumption.
    apply (NoDup_replace_key perms_UserID (Perms d) (mkPermsRow u q) K1).
  - exact Hacc.
Qed.

Lemma invariant_setUserInfo (u a r : Z) (d : DB) :
  store_invariant d -> store_invariant (fst (setUserInfo u a r d)).
Proof.
  intros [(K1 & K2 & K3 & K4) Hacc]. split.
  - repeat split; simpl; try assumption.
    apply (NoDup_replace_key ui_UserID (UserInfo d) (mkUserInfoRow u a r) K2).
  - intros row Hin. destruct (Hacc row Hin) as (o & Ho & Hi).
    exists o. split; [exact Ho|].
    apply getUserInfo_setUserInfo_some. exact Hi.
Qed.

Lemma invariant_updateUserInfo (delta u : Z) (d : DB) :
  store_invariant d -> store_invariant (fst (updateUserInfo delta u d)).
Proof.
  intros [(K1 & K2 & K3 & K4) Hacc]. split.
  - repeat split; try assumption. rewrite updateUserInfo_keys. exact K2.
  - intros row Hin. destruct (Hacc row Hin) as (o & Ho & Hi).
    exists o. split; [exact Ho|].
    apply getUserInfo_updateUserInfo_some. exact Hi.
Qed.

Lemma invariant_addFileInfo (u : Z) (name : string) (lm cc : Z) (fh : string) (d : DB) :
  store_invariant d -> store_invariant (fst (addFileInfo u name lm cc fh d)).
Proof.
  intros [(K1 & K2 & K3 & K4) Hacc]. unfold addFileInfo.
  destruct (existsb _ (FileInfoT d)); simpl; [split; [repeat split|]; assumption|].
  split.
  - repeat split; simpl; try assumption.
    rewrite map_app. simpl.
    apply NoDup_app; [exact K3 | repeat constructor; intros [] | ].
    intros k Hin [Hk|[]]. apply in_map_iff in Hin. destruct Hin as (x & Hx & Hin).
    pose proof (next_FileID_above _ _ Hin). lia.
  - intros row Hin. destruct (Hacc row Hin) as (o & Ho & Hi).
    exists o. split; [|exact Hi].
    unfold getFileInfoOwner in *. simpl.
    destruct (find (fun r => fi_FileID r =? fc_FileID row) (FileInfoT d)) as [x|] eqn:Hf;
      [|discriminate].
    rewrite (find_app_Some _ _ _ _ Hf). exact Ho.
Qed.

Lemma keys_unique_add_update (d : DB) (delta u f n : Z) (h : string) (c : list byte) :
  keys_unique d ->
  keys_unique (fst (updateUserInfo delta u (fst (addFileChunk f n h c d)))).
Proof.
  intros (K1 & K2 & K3 & K4). repeat split; simpl; try assumption.
  - rewrite map_map.
    erewrite map_ext; [exact K2|].
    intros y. simpl. destruct (ui_UserID y =? u); reflexivity.
  - apply (NoDup_replace_key fc_FileID (FileChunks d) (mkFileChunk f n h c) K4).
Qed.

Lemma keys_unique_remove_update (d : DB) (delta u f n : Z) :
  keys_unique d ->
  keys_unique (fst (updateUserInfo delta u (fst (removeFileChunk f n d)))).
Proof.
  intros (K1 & K2 & K3 & K4). repeat split; simpl; try assumption.
  - rewrite map_map.
    erewrite map_ext; [exact K2|].
    intros y. simpl. destruct (ui_UserID y =? u); reflexivity.
  - apply NoDup_filter_keys. exact K4.
Qed.

Lemma invariant_AddFileChunk (s s' : Storage) (u f n : Z) (h : string) (c : list byte) (x : unit) :
  AddFileChunk s u f n h c = (s', Ok x) ->
  store_invariant (db s) -> store_invariant (db s').
Proof.
  intros E [(K1 & K2 & K3 & K4) Hacc].
  apply AddFileChunk_Ok_inv in E.
  destruct E as (_ & Hown & (q & a & r & _ & Hi & _) & ->). simpl. split.
  - apply keys_unique_add_update. repeat split; assumption.
  - intros row Hin. simpl in Hin. apply in_app_iff in Hin.
    destruct Hin as [Hin|[<-|[]]].
    + apply filter_In in Hin. destruct Hin as [Hin _].
      destruct (Hacc row Hin) as (o & Ho & Hio).
      exists o. split; [exact Ho|].
      apply (getUserInfo_updateUserInfo_some _ u o
               (fst (addFileChunk f n h c (db s)))). exact Hio.
    + exists u. split; [exact Hown|].
      apply (getUserInfo_updateUserInfo_some _ u u
               (fst (addFileChunk f n h c (db s)))).
      change (getUserInfo u (db s) <> None). rewrite Hi. discriminate.
Qed.

Lemma invariant_RemoveFileChunk (s s' : Storage) (u f n : Z) (e : option error) :
  RemoveFileChunk s u f n = (s', (true, e)) ->
  store_invariant (db s) -> store_invariant (db s').
Proof.
  intros E [(K1 & K2 & K3 & K4) Hacc].
  apply RemoveFileChunk_true_inv in E.
  destruct E as (_ & Hown & hh & c & Hc & _ & ->). simpl. split.
  - apply keys_unique_remove_update. repeat split; assumption.
  - intros row Hin. simpl in Hin.
    apply filter_In in Hin. destruct Hin as [Hin _].
    destruct (Hacc row Hin) as (o & Ho & Hio).
    exists o. split; [exact Ho|].
    apply (getUserInfo_updateUserInfo_some _ u o
             (fst (removeFileChunk f n (db s)))). exact Hio.
Qed.

Lemma reachable_invariant (s : Storage) : reachable s -> store_invariant (db s).
Proof.
  induction 1 as [cs | s cs _ IH | s u q _ IH | s u a r _ IH | s u delta _ IH
                 | s u name lm cc fh _ IH | s u f n h c _ IH | s u f n _ IH].
  - apply invariant_CreateTables.
  - exact IH.
  - apply invariant_setUserQuota. exact IH.
  - apply invariant_setUserInfo. exact IH.
  - unfold UpdateUserInfo.
    pose proof (invariant_updateUserInfo delta u (db s) IH) as H.
    destruct (updateUserInfo delta u (db s)) as [d' aff].
    destruct (negb (aff =? 1)); exact H.
  - unfold AddFileInfo.
    pose proof (invariant_addFileInfo u name lm cc fh (db s) IH) as H.
    destruct (addFileInfo u name lm cc fh (db s)) as [d' aff].
    destruct (negb (aff =? 1)); exact H.
  - destruct (AddFileChunk s u f n h c) as [s' [x|e]] eqn:E; simpl.
    + eapply invariant_AddFileChunk; eassumption.
    + apply AddFileChunk_Err_unchanged in E. now subst.
  - destruct (RemoveFileChunk s u f n) as [s' [[|] e]] eqn:E; simpl.
    + eapply invariant_RemoveFileChunk; eassumption.
    + apply RemoveFileChunk_false_unchanged in E. now subst.
Qed.

(** *** Removing a chunk *)

Lemma find_filter_negb {R} (p : R -> bool) (l : list R) :
  find p (filter (fun x => negb (p x)) l) = None.
Proof.
  induction l as [|x l IH]; simpl; [reflexivity|].
  destruct (p x) eqn:E; simpl; [exact IH|]. rewrite E. exact IH.
Qed.

Lemma count_rows_found {R} (p : R -> bool) (l : list R) (x : R) :
  find p l = Some x -> 0 < count_rows p l.
Proof.
  unfold count_rows. induction l as [|y l IH]; simpl; [discriminate|].
  destruct (p y); simpl; [lia | exact IH].
Qed.

(** C7.  [RemoveFileChunk] called by the owner of the file, in a state the
    storage verbs can reach: when no chunk row [(fileID, chunkNumber)]
    exists it fails with the chunk-not-found error and changes nothing;
    when the row exists the owner has a [UserInfo] row and, [allocated],
    [revision] and their updated values being 64-bit integers, the call
    deletes the row (and no other row), takes the length of its chunk off
    the user's [allocated], bumps [revision] by one, leaves every other
    user's row alone, and returns [true]. *)
Theorem RemoveFileChunk_by_owner (s : Storage) (u f n : Z) :
  reachable s ->
  getFileInfoOwner f (db s) = Some u ->
  match getFileChunk f n (db s) with
  | None => RemoveFileChunk s u f n = (s, (false, Some ChunkNotFound))
  | Some (h, c) =>
      exists a r,
        getUserInfo u (db s) = Some (a, r) /\
        (update_in_int64 a r (- Z.of_nat (length c)) ->
         exists s',
           RemoveFileChunk s u f n = (s', (true, None)) /\
           getFileChunk f n (db s') = None /\
           FileChunks (db s')
           = filter (fun x => negb (chunk_at f n x)) (FileChunks (db s)) /\
           getUserInfo u (db s') = Some (a - Z.of_nat (length c), r + 1) /\
           int64_range (a - Z.of_nat (length c)) /\
           int64_range (r + 1) /\
           (forall v, v <> u -> getUserInfo v (db s') = getUserInfo v (db s)) /\
           Perms (db s') = Perms (db s) /\
           FileInfoT (db s') = FileInfoT (db s))
  end.
Proof.
  intros Hreach Hown.
  destruct (reachable_invariant s Hreach) as [(K1 & K2 & K3 & K4) Hacc].
  destruct (getFileChunk f n (db s)) as [[h c]|] eqn:Hc.
  - (* the row exists *)
    assert (Hfind : exists row, find (chunk_at f n) (FileChunks (db s)) = Some row /\
                                fc_Chunk row = c).
    { unfold getFileChunk in Hc.
      destruct (find (chunk_at f n) (FileChunks (db s))) as [row|]; [|discriminate].
      exists row. split; [reflexivity|]. simpl in Hc. now inversion Hc. }
    destruct Hfind as (row & Hfind & Hrow).
    pose proof (count_rows_found _ _ _ Hfind) as Hcount.
    apply find_some in Hfind. destruct Hfind as [Hin Hat].
    unfold chunk_at in Hat. apply andb_prop in Hat. destruct Hat as [Hf _].
    apply Z.eqb_eq in Hf.
    destruct (Hacc row Hin) as (o & Ho & Hio).
    rewrite Hf, Hown in Ho. inversion Ho; subst o.
    destruct (getUserInfo u (db s)) as [[a r]|] eqn:Hi; [|contradiction].
    exists a, r. split; [reflexivity|].
    intros (Ra & Rr & Ra' & Rr').
    pose proof (updateUserInfo_affected (- Z.of_nat (length c)) u
                  (fst (removeFileChunk f n (db s))) (a, r) K2 Hi) as Haff.
    exists (with_db s (fst (updateUserInfo (- Z.of_nat (length c)) u
                              (fst (removeFileChunk f n (db s)))))).
    split; [|split; [|split; [|split; [|split; [|split; [|split; [|split]]]]]]];
      try reflexivity.
    + unfold RemoveFileChunk. tx_unfold. rewrite Hown. simpl.
      rewrite Z.eqb_refl. simpl. rewrite Hc. simpl.
      destruct (Z.leb_spec (count_rows (chunk_at f n) (FileChunks (db s))) 0);
        [lia|].
      simpl. simpl in Haff. rewrite Haff. reflexivity.
    + unfold getFileChunk. simpl. now rewrite find_filter_negb.
    + apply (getUserInfo_update_same (- Z.of_nat (length c)) u
               (fst (removeFileChunk f n (db s))) a r). exact Hi.
    + exact Ra'.
    + exact Rr'.
    + intros v Hv.
      apply (getUserInfo_update_other (- Z.of_nat (length c)) u v
               (fst (removeFileChunk f n (db s)))). exact Hv.
  - (* no such row *)
    unfold RemoveFileChunk. tx_unfold. rewrite Hown. simpl.
    rewrite Z.eqb_refl. simpl. rewrite Hc. reflexivity.
Qed.

Lemma reachable_store0 : reachable store0.
Proof. unfold store0. repeat constructor. Qed.

Lemma RemoveFileChunk_by_owner_witness :
  reachable store_chunk2 /\
  getFileInfoOwner 1 (db store_chunk2) = Some 1 /\
  update_in_int64 3 1 (- 3) /\
  (exists s',
     RemoveFileChunk store_chunk2 1 1 2 = (s', (true, None)) /\
     getUserInfo 1 (db store_chunk2) = Some (3, 1) /\
     getUserInfo 1 (db s') = Some (3 - 3, 1 + 1)) /\
  RemoveFileChunk store_chunk2 1 1 0 = (store_chunk2, (false, Some ChunkNotFound)).
Proof.
  assert (R : reachable store_chunk2)
    by (unfold store_chunk2; constructor; exact reachable_store0).
  assert (U : update_in_int64 3 1 (- 3))
    by (unfold update_in_int64, int64_range, min_int64, max_int64; lia).
  split; [exact R|]. split; [reflexivity|]. split; [exact U|]. split.
  - pose proof (RemoveFileChunk_by_owner store_chunk2 1 1 2 R eq_refl) as H.
    simpl in H. destruct H as (a & r & Hi & H). inversion Hi; subst a r.
    destruct (H U) as (s' & H1 & _ & _ & H3 & _).
    exists s'. split; [exact H1|]. split; [reflexivity | exact H3].
  - exact (RemoveFileChunk_by_owner store_chunk2 1 1 0 R eq_refl).
Defined.

(** *** One chunk row per file *)

Lemma chunk_rows_after_add (f n : Z) (h : string) (c : list byte) (d : DB) :
  chunk_rows (fst (addFileChunk f n h c d)) f = [mkFileChunk f n h c].
Proof.
  unfold chunk_rows, addFileChunk. simpl. rewrite filter_app. simpl.
  rewrite Z.eqb_refl.
  replace (filter (fun r => fc_FileID r =? f)
                  (filter (fun r => negb (fc_FileID r =? f)) (FileChunks d)))
    with (@nil FileChunk); [reflexivity|].
  symmetry. induction (FileChunks d) as [|x l IH]; simpl; [reflexivity|].
  destruct (fc_FileID x =? f) eqn:E; simpl; [exact IH|]. rewrite E. exact IH.
Qed.

Lemma find_chunk_at_in_rows (d : DB) (f m : Z) :
  find (chunk_at f m) (FileChunks d) = find (chunk_at f m) (chunk_rows d f).
Proof.
  unfold chunk_rows. induction (FileChunks d) as [|x l IH]; simpl; [reflexivity|].
  unfold chunk_at at 1. destruct (fc_FileID x =? f) eqn:E; simpl.
  - unfold chunk_at at 2. rewrite E. simpl.
    destruct (fc_ChunkNumber x =? m); [reflexivity | exact IH].
  - exact IH.
Qed.

(** C9.  [FileChunks] has [FileID] alone as its primary key.  In every
    state the storage verbs can reach, a file has at most one chunk row; a
    successful [AddFileChunk(userID, fileID, n, ...)] leaves the new row as
    the only row of the file, whatever chunk number the row it displaced
    had, and afterwards [GetFileChunk(fileID, m)] fails with
    [sql.ErrNoRows] for every [m] other than [n]. *)
Theorem FileChunks_one_row_per_file (s : Storage) :
  reachable s ->
  (forall f, (length (chunk_rows (db s) f) <= 1)%nat) /\
  (forall u f n h c s' x,
      AddFileChunk s u f n h c = (s', Ok x) ->
      chunk_rows (db s') f = [mkFileChunk f n h c] /\
      GetFileChunk s' f n = Ok (mkFileChunk f n h c) /\
      (forall m, m <> n -> GetFileChunk s' f m = Err SqlErrNoRows)).
Proof.
  intros Hreach. split.
  - intros f. destruct (reachable_invariant s Hreach) as [(_ & _ & _ & K4) _].
    apply (filter_key_at_most_one fc_FileID f (FileChunks (db s)) K4).
  - intros u f n h c s' x E.
    apply AddFileChunk_Ok_inv in E. destruct E as (_ & _ & _ & ->).
    assert (Hrows : chunk_rows (db (with_db s
                      (fst (updateUserInfo (Z.of_nat (length c)) u
                              (fst (addFileChunk f n h c (db s))))))) f
                    = [mkFileChunk f n h c])
      by apply (chunk_rows_after_add f n h c (db s)).
    split; [exact Hrows|]. split.
    + unfold GetFileChunk, getFileChunk.
      rewrite find_chunk_at_in_rows, Hrows. simpl.
      unfold chunk_at. simpl. now rewrite !Z.eqb_refl.
    + intros m Hm. unfold GetFileChunk, getFileChunk.
      rewrite find_chunk_at_in_rows, Hrows. simpl.
      unfold chunk_at. simpl. rewrite Z.eqb_refl. simpl.
      destruct (Z.eqb_spec n m); [congruence | reflexivity].
Qed.

Lemma FileChunks_one_row_per_file_witness :
  reachable store_chunk2 /\
  (length (chunk_rows (db store_chunk2) 1) <= 1)%nat /\
  chunk_rows (db (fst (AddFileChunk store_chunk2 1 1 0 "h0" abc))) 1
  = [mkFileChunk 1 0 "h0" abc] /\
  GetFileChunk (fst (AddFileChunk store_chunk2 1 1 0 "h0" abc)) 1 2 = Err SqlErrNoRows.
Proof.
  assert (R : reachable store_chunk2)
    by (unfold store_chunk2; constructor; exact reachable_store0).
  destruct (FileChunks_one_row_per_file store_chunk2 R) as [H1 H2].
  split; [exact R|]. split; [apply H1|].
  destruct (H2 1 1 0 "h0"%string abc
               (fst (AddFileChunk store_chunk2 1 1 0 "h0" abc)) tt eq_refl)
    as (Hrows & _ & Hno).
  split; [exact Hrows|]. apply Hno. discriminate.
Defined.

(** *** Ownership guard *)

Lemma checkOwner_other (u f owner : Z) (d : DB) :
  getFileInfoOwner f d = Some owner -> u <> owner ->
  checkOwner u f d = (d, Err NotOwner).
Proof.
  intros Ho Hne. unfold checkOwner, tx_bind, scan. rewrite Ho.
  destruct (Z.eqb_spec owner u); [congruence | reflexivity].
Qed.

Lemma transact_guarded {A} (s : Storage) (u f owner : Z) (k : unit -> Tx A) :
  getFileInfoOwner f (db s) = Some owner -> u <> owner ->
  transact s (tx_bind (checkOwner u f) k) = (s, Err NotOwner).
Proof.
  intros Ho Hne. unfold transact, tx_bind.
  rewrite (checkOwner_other u f owner (db s) Ho Hne). reflexivity.
Qed.

(** C5 as the spec words it fails at [GetFileChunk]: user 2 reads chunk 2
    of file 1, which user 1 owns. *)
Lemma ownership_guard_not_on_GetFileChunk :
  ~ ownership_guard_at store_chunk2 2 1 (VGetFileChunk 2).
Proof.
  intros H. specialize (H 1 eq_refl). 
  assert (Hne : 2 <> 1) by discriminate.
  specialize (H Hne). vm_compute in H. discriminate.
Qed.

(** C5, amended.  Every verb of [storage.go] that takes a [userID] and a
    [fileID], called by a user who is not the owner of the file, fails and
    leaves the storage unchanged; the error is [NotOwner], except that
    [AddFileChunk] tests the chunk size first and reports [ChunkTooLarge]
    for an oversized chunk.  [GetFileChunk] takes no [userID]: it answers a
    caller who is not the owner as it answers the owner. *)
Theorem ownership_guard (s : Storage) (u f owner : Z) (v : file_verb) :
  getFileInfoOwner f (db s) = Some owner ->
  u <> owner ->
  match v with
  | VGetFileChunk n =>
      call_verb s u f v = call_verb s owner f v
  | VAddFileChunk n h c =>
      call_verb s u f v
      = (s, Some (if Z.of_nat (length c) >? ChunkSize s then ChunkTooLarge else NotOwner))
  | _ => call_verb s u f v = (s, Some NotOwner)
  end.
Proof.
  intros Ho Hne. destruct v as [| |n h c|n|n]; simpl.
  - unfold GetFileInfo. rewrite (transact_guarded s u f owner _ Ho Hne). reflexivity.
  - unfold GetMissingChunkNumbersForFile.
    rewrite (transact_guarded s u f owner _ Ho Hne). reflexivity.
  - unfold AddFileChunk. destruct (Z.of_nat (length c) >? ChunkSize s); [reflexivity|].
    rewrite (transact_guarded s u f owner _ Ho Hne). reflexivity.
  - unfold RemoveFileChunk. rewrite (transact_guarded s u f owner _ Ho Hne). reflexivity.
  - reflexivity.
Qed.

Lemma ownership_guard_witness :
  call_verb store_chunk2 2 1 (VRemoveFileChunk 2) = (store_chunk2, Some NotOwner).
Proof.
  refine (ownership_guard store_chunk2 2 1 1 (VRemoveFileChunk 2) eq_refl _).
  discriminate.
Defined.

(** *** Missing chunk numbers *)

Lemma SearchInts_bound (a : list Z) (x : Z) :
  0 <= SearchInts a x <= Z.of_nat (length a).
Proof.
  induction a as [|y a IH]; simpl length; cbn [SearchInts]; [lia|].
  destruct (x <=? y); lia.
Qed.

(** [SearchInts] answers [len(a)] exactly when every element is below [x]. *)
Lemma SearchInts_at_end (a : list Z) (x : Z) :
  (SearchInts a x >=? Z.of_nat (length a)) = forallb (fun k => k <? x) a.
Proof.
  induction a as [|y a IH]; [reflexivity|].
  cbn [SearchInts forallb length]. rewrite Nat2Z.inj_succ.
  pose proof (SearchInts_bound a x) as Hb.
  destruct (Z.leb_spec x y) as [Hle|Hgt].
  - destruct (Z.ltb_spec y x); [lia|]. cbn [andb].
    rewrite Z.geb_leb.
    destruct (Z.leb_spec (Z.succ (Z.of_nat (length a))) 0); [lia | reflexivity].
  - destruct (Z.ltb_spec y x); [|lia]. cbn [andb]. rewrite <- IH.
    rewrite !Z.geb_leb.
    destruct (Z.leb_spec (Z.succ (Z.of_nat (length a))) (1 + SearchInts a x));
      destruct (Z.leb_spec (Z.of_nat (length a)) (SearchInts a x));
      try reflexivity; lia.
Qed.

Lemma forallb_insert_int (p : Z -> bool) (x : Z) (l : list Z) :
  forallb p (insert_int x l) = p x && forallb p l.
Proof.
  induction l as [|y l IH]; simpl; [reflexivity|].
  destruct (x <=? y); simpl; [reflexivity|].
  rewrite IH. destruct (p x), (p y); reflexivity.
Qed.

Lemma forallb_sort_Ints (p : Z -> bool) (l : list Z) :
  forallb p (sort_Ints l) = forallb p l.
Proof.
  induction l as [|x l IH]; simpl; [reflexivity|].
  now rewrite forallb_insert_int, IH.
Qed.

(** What [GetMissingChunkNumbersForFile] computes: the [i] below
    [ChunkCount] that lie above every stored chunk number of the file. *)
Lemma GetMissingChunkNumbersForFile_computes (s s' : Storage) (u f : Z) (mia : list Z) :
  GetMissingChunkNumbersForFile s u f = (s', Ok mia) ->
  s' = s /\
  exists fi,
    getFileInfo f (db s) = Some fi /\
    mia = filter (fun i => forallb (fun k => k <? i)
                                   (map fc_ChunkNumber (chunk_rows (db s) f)))
                 (upto (fi_ChunkCount fi)).
Proof.
  unfold GetMissingChunkNumbersForFile. tx_unfold.
  destruct (getFileInfoOwner f (db s)) as [o|]; simpl; [|discriminate].
  destruct (negb (o =? u)); simpl; [discriminate|].
  destruct (getFileInfo f (db s)) as [fi|]; simpl; [|discriminate].
  intros H. inversion H; subst. split; [apply with_db_same|].
  exists fi. split; [reflexivity|].
  apply filter_ext. intros i.
  rewrite SearchInts_at_end, forallb_sort_Ints.
  unfold getAllFileChunksByID, chunk_rows. now rewrite !map_map.
Qed.

(** C2, at a file of three chunks of which only chunk 2 is stored: the
    answer is empty, where the chunks without a row are 0 and 1. *)
Theorem GetMissingChunkNumbersForFile_skips_below_stored :
  GetMissingChunkNumbersForFile store_chunk2 1 1 = (store_chunk2, Ok []) /\
  missing_by_spec (db store_chunk2) 1 3 = [0; 1].
Proof. split; vm_compute; reflexivity. Qed.

(** *** Accounting of stored bytes *)

Lemma sum_Z_chunk_len_nonneg (rows : list FileChunk) : 0 <= sum_Z (map chunk_len rows).
Proof.
  induction rows as [|x l IH]; simpl; [lia|]. unfold chunk_len at 1. lia.
Qed.

Lemma bytes_of_nonneg (d : DB) (v : Z) (rows : list FileChunk) : 0 <= bytes_of d v rows.
Proof. apply sum_Z_chunk_len_nonneg. Qed.

Lemma bytes_of_app (d : DB) (v : Z) (l l' : list FileChunk) :
  bytes_of d v (l ++ l') = bytes_of d v l + bytes_of d v l'.
Proof. unfold bytes_of. now rewrite filter_app, map_app, sum_Z_app. Qed.

Lemma bytes_of_split (d : DB) (v : Z) (q : FileChunk -> bool) (rows : list FileChunk) :
  bytes_of d v rows
  = bytes_of d v (filter q rows) + bytes_of d v (filter (fun r => negb (q r)) rows).
Proof.
  unfold bytes_of. induction rows as [|x l IH]; simpl; [reflexivity|].
  destruct (q x); simpl; destruct (owned_by d v x); simpl; lia.
Qed.

Lemma bytes_of_same_files (d d' : DB) (v : Z) (rows : list FileChunk) :
  FileInfoT d' = FileInfoT d -> bytes_of d' v rows = bytes_of d v rows.
Proof.
  intros E. unfold bytes_of. do 2 f_equal. apply filter_ext. intros x.
  unfold owned_by, getFileInfoOwner. now rewrite E.
Qed.

(** Chunk rows of a file of [u] count for no other user ... *)
Lemma bytes_of_foreign (d : DB) (u v f : Z) (rows : list FileChunk) :
  getFileInfoOwner f d = Some u -> v <> u ->
  (forall r, In r rows -> fc_FileID r = f) ->
  bytes_of d v rows = 0.
Proof.
  intros Ho Hne Hall. unfold bytes_of.
  induction rows as [|x l IH]; simpl; [reflexivity|].
  unfold owned_by at 1. rewrite (Hall x (or_introl eq_refl)), Ho.
  destruct (Z.eqb_spec u v); [congruence|].
  apply IH. intros r Hr. apply Hall. now right.
Qed.

(** ... and in full for [u]. *)
Lemma bytes_of_own (d : DB) (u f : Z) (rows : list FileChunk) :
  getFileInfoOwner f d = Some u ->
  (forall r, In r rows -> fc_FileID r = f) ->
  bytes_of d u rows = sum_Z (map chunk_len rows).
Proof.
  intros Ho Hall. unfold bytes_of.
  induction rows as [|x l IH]; simpl; [reflexivity|].
  unfold owned_by at 1. rewrite (Hall x (or_introl eq_refl)), Ho, Z.eqb_refl.
  simpl. rewrite IH; [reflexivity|]. intros r Hr. apply Hall. now right.
Qed.

Lemma chunk_at_FileID (f n : Z) (rows : list FileChunk) (r : FileChunk) :
  In r (filter (chunk_at f n) rows) -> fc_FileID r = f.
Proof.
  intros H. apply filter_In in H. destruct H as [_ H].
  unfold chunk_at in H. apply andb_prop in H. now apply Z.eqb_eq.
Qed.

Lemma chunk_rows_FileID (d : DB) (f : Z) (r : FileChunk) :
  In r (chunk_rows d f) -> fc_FileID r = f.
Proof.
  intros H. apply filter_In in H. destruct H as [_ H]. now apply Z.eqb_eq.
Qed.

(** The stored bytes after the two statements of a successful
    [AddFileChunk]: the rows the [REPLACE] displaced are gone, the new
    chunk is there. *)
Lemma stored_bytes_add (d : DB) (u v f n : Z) (h : string) (c : list byte) :
  getFileInfoOwner f d = Some u ->
  stored_bytes (fst (updateUserInfo (Z.of_nat (length c)) u
                       (fst (addFileChunk f n h c d)))) v
  = stored_bytes d v - bytes_of d v (chunk_rows d f)
    + (if v =? u then Z.of_nat (length c) else 0).
Proof.
  intros Ho. unfold stored_bytes at 1.
  rewrite (bytes_of_same_files d
             (fst (updateUserInfo (Z.of_nat (length c)) u (fst (addFileChunk f n h c d))))
             v _ eq_refl).
  simpl FileChunks. rewrite bytes_of_app.
  unfold stored_bytes.
  rewrite (bytes_of_split d v (fun r => fc_FileID r =? f) (FileChunks d)).
  fold (chunk_rows d f).
  assert (Hnew : bytes_of d v [mkFileChunk f n h c]
                 = if v =? u then Z.of_nat (length c) else 0).
  { unfold bytes_of, owned_by. simpl. rewrite Ho. rewrite (Z.eqb_sym u v).
    destruct (v =? u); simpl; unfold chunk_len; simpl; lia. }
  rewrite Hnew. lia.
Qed.

(** The stored bytes after the two statements of a successful
    [RemoveFileChunk]. *)
Lemma stored_bytes_remove (d : DB) (u v f n delta : Z) :
  stored_bytes (fst (updateUserInfo delta u (fst (removeFileChunk f n d)))) v
  = stored_bytes d v - bytes_of d v (filter (chunk_at f n) (FileChunks d)).
Proof.
  unfold stored_bytes at 1.
  rewrite (bytes_of_same_files d
             (fst (updateUserInfo delta u (fst (removeFileChunk f n d)))) v _ eq_refl).
  simpl FileChunks. unfold stored_bytes.
  rewrite (bytes_of_split d v (chunk_at f n) (FileChunks d)). lia.
Qed.

Lemma filter_found_first {R} (p : R -> bool) (l : list R) (x : R) :
  find p l = Some x -> exists rest, filter p l = x :: rest.
Proof.
  induction l as [|y l IH]; simpl; [discriminate|].
  destruct (p y); [|exact IH].
  intros H. inversion H; subst. eauto.
Qed.

(** Under the primary key of [FileChunks], [DELETE ... WHERE FileID = ? AND
    ChunkNum = ?] deletes the row that [getFileChunk] selects, and only it. *)
Lemma filter_chunk_at_unique (f n : Z) (rows : list FileChunk) (row : FileChunk) :
  NoDup (map fc_FileID rows) ->
  find (chunk_at f n) rows = Some row ->
  filter (chunk_at f n) rows = [row].
Proof.
  intros Hnd Hf.
  destruct (filter_found_first _ _ _ Hf) as [rest Hrest].
  assert (Hsub : forall r, In r (filter (chunk_at f n) rows) ->
                           In r (filter (fun x => fc_FileID x =? f) rows)).
  { intros r Hr. apply filter_In in Hr. destruct Hr as [Hin Hat].
    apply filter_In. split; [exact Hin|].
    unfold chunk_at in Hat. now apply andb_prop in Hat. }
  pose proof (filter_key_at_most_one fc_FileID f rows Hnd) as Hone.
  assert (Hnd' : NoDup (filter (chunk_at f n) rows)).
  { apply NoDup_filter. eapply NoDup_map_inv. exact Hnd. }
  pose proof (NoDup_incl_length Hnd' Hsub) as Hlen.
  rewrite Hrest in Hlen |- *. simpl in Hlen.
  destruct rest; [reflexivity | simpl in Hlen; lia].
Qed.

(** *** Quota safety *)

Lemma allocated_nonneg (d : DB) (u a r : Z) :
  allocated_covers d -> getUserInfo u d = Some (a, r) -> 0 <= a.
Proof.
  intros Hc Hi. specialize (Hc u a r Hi).
  pose proof (bytes_of_nonneg d u (FileChunks d)). unfold stored_bytes in Hc. lia.
Qed.

(** A successful [AddFileChunk] keeps [allocated] between the stored bytes
    and the quota; it keeps it equal to the stored bytes when the file had
    no chunk row. *)
Lemma AddFileChunk_accounting (s s' : Storage) (u f n : Z) (h : string)
    (c : list byte) (x : unit) :
  AddFileChunk s u f n h c = (s', Ok x) ->
  keys_unique (db s) -> quotas_int64 (db s) ->
  allocated_covers (db s) -> within_quota (db s) ->
  keys_unique (db s') /\ quotas_int64 (db s') /\
  allocated_covers (db s') /\ within_quota (db s') /\
  (allocated_exact (db s) -> chunk_rows (db s) f = [] -> allocated_exact (db s')).
Proof.
  intros E HK HQ HC HW.
  apply AddFileChunk_Ok_inv in E.
  destruct E as (_ & Hown & (q & a & r & Hq & Hi & Hle) & ->).
  set (L := Z.of_nat (length c)) in *.
  set (d := db s) in *.
  set (d' := fst (updateUserInfo L u (fst (addFileChunk f n h c d)))).
  change (db (with_db s d')) with d'.
  assert (Ha0 : 0 <= a) by (eapply allocated_nonneg; eassumption).
  assert (Haq : a <= q) by (eapply HW; eassumption).
  assert (Hqmax : q <= max_int64) by (apply (HQ u q Hq)).
  assert (Hroom : a + L <= q).
  { rewrite sub64_exact in Hle; lia. }
  assert (Hsame : getUserInfo u d' = Some (a + L, r + 1))
    by (apply (getUserInfo_update_same L u (fst (addFileChunk f n h c d)) a r); exact Hi).
  assert (Hother : forall v, v <> u -> getUserInfo v d' = getUserInfo v d)
    by (intros v Hv; apply (getUserInfo_update_other L u v (fst (addFileChunk f n h c d)) Hv)).
  assert (Hbytes : forall v, stored_bytes d' v
                   = stored_bytes d v - bytes_of d v (chunk_rows d f)
                     + (if v =? u then L else 0))
    by (intros v; apply stored_bytes_add; exact Hown).
  split; [apply keys_unique_add_update; exact HK|].
  split; [exact HQ|].
  split; [|split].
  - intros v a' r' Hv. rewrite Hbytes.
    pose proof (bytes_of_nonneg d v (chunk_rows d f)) as Hnn.
    destruct (Z.eqb_spec v u) as [->|Hne].
    + rewrite Hsame in Hv. inversion Hv; subst.
      pose proof (HC u a r Hi). lia.
    + rewrite (Hother v Hne) in Hv.
      pose proof (HC v a' r' Hv).
      rewrite (bytes_of_foreign d u v f _ Hown Hne (chunk_rows_FileID d f)). lia.
  - intros v a' r' q' Hv Hq'. change (getUserQuota v d = Some q') in Hq'.
    destruct (Z.eq_dec v u) as [->|Hne].
    + rewrite Hsame in Hv. inversion Hv; subst.
      rewrite Hq in Hq'. inversion Hq'; subst. lia.
    + rewrite (Hother v Hne) in Hv. eapply HW; eassumption.
  - intros HE Hfresh v a' r' Hv. rewrite Hbytes, Hfresh.
    change (bytes_of d v []) with 0.
    destruct (Z.eqb_spec v u) as [->|Hne].
    + rewrite Hsame in Hv. inversion Hv; subst.
      pose proof (HE u a r Hi). lia.
    + rewrite (Hother v Hne) in Hv.
      pose proof (HE v a' r' Hv). lia.
Qed.

(** A successful [RemoveFileChunk] keeps the same bounds, and the equality. *)
Lemma RemoveFileChunk_accounting (s s' : Storage) (u f n : Z) (e : option error) :
  RemoveFileChunk s u f n = (s', (true, e)) ->
  keys_unique (db s) -> quotas_int64 (db s) ->
  allocated_covers (db s) -> within_quota (db s) ->
  keys_unique (db s') /\ quotas_int64 (db s') /\
  allocated_covers (db s') /\ within_quota (db s') /\
  (allocated_exact (db s) -> allocated_exact (db s')).
Proof.
  intros E HK HQ HC HW.
  apply RemoveFileChunk_true_inv in E.
  destruct E as (_ & Hown & h & c & Hc & (a & r & Hi) & ->).
  set (L := Z.of_nat (length c)) in *.
  set (d := db s) in *.
  set (d' := fst (updateUserInfo (- L) u (fst (removeFileChunk f n d)))).
  change (db (with_db s d')) with d'.
  assert (Hsame : getUserInfo u d' = Some (a + - L, r + 1))
    by (apply (getUserInfo_update_same (- L) u (fst (removeFileChunk f n d)) a r); exact Hi).
  assert (Hother : forall v, v <> u -> getUserInfo v d' = getUserInfo v d)
    by (intros v Hv; apply (getUserInfo_update_other (- L) u v (fst (removeFileChunk f n d)) Hv)).
  assert (Hbytes : forall v, stored_bytes d' v
                   = stored_bytes d v - bytes_of d v (filter (chunk_at f n) (FileChunks d)))
    by (intros v; apply stored_bytes_remove).
  assert (Hfind : exists row, find (chunk_at f n) (FileChunks d) = Some row /\
                              chunk_len row = L).
  { unfold getFileChunk in Hc.
    destruct (find (chunk_at f n) (FileChunks d)) as [row|]; [|discriminate].
    exists row. split; [reflexivity|]. simpl in Hc. inversion Hc; subst. reflexivity. }
  destruct Hfind as (row & Hfind & Hlen).
  assert (Hown_bytes : bytes_of d u (filter (chunk_at f n) (FileChunks d))
                       = sum_Z (map chunk_len (filter (chunk_at f n) (FileChunks d))))
    by (apply (bytes_of_own d u f); [exact Hown | apply chunk_at_FileID]).
  assert (Hge : L <= bytes_of d u (filter (chunk_at f n) (FileChunks d))).
  { rewrite Hown_bytes.
    destruct (filter_found_first _ _ _ Hfind) as [rest ->]. simpl.
    pose proof (sum_Z_chunk_len_nonneg rest). lia. }
  split; [apply keys_unique_remove_update; exact HK|].
  split; [exact HQ|].
  split; [|split].
  - intros v a' r' Hv. rewrite Hbytes.
    destruct (Z.eq_dec v u) as [->|Hne].
    + rewrite Hsame in Hv. inversion Hv; subst.
      pose proof (HC u a r Hi). lia.
    + rewrite (Hother v Hne) in Hv.
      pose proof (HC v a' r' Hv).
      rewrite (bytes_of_foreign d u v f _ Hown Hne (chunk_at_FileID f n (FileChunks d))).
      lia.
  - intros v a' r' q' Hv Hq'. change (getUserQuota v d = Some q') in Hq'.
    destruct (Z.eq_dec v u) as [->|Hne].
    + rewrite Hsame in Hv. inversion Hv; subst.
      pose proof (HW u a r q' Hi Hq'). unfold L. lia.
    + rewrite (Hother v Hne) in Hv. eapply HW; eassumption.
  - intros HE v a' r' Hv. rewrite Hbytes.
    destruct (Z.eq_dec v u) as [->|Hne].
    + rewrite Hsame in Hv. inversion Hv; subst.
      rewrite Hown_bytes.
      destruct HK as (_ & _ & _ & K4).
      rewrite (filter_chunk_at_unique f n (FileChunks d) row K4 Hfind). simpl.
      pose proof (HE u a r Hi). lia.
    + rewrite (Hother v Hne) in Hv.
      pose proof (HE v a' r' Hv).
      rewrite (bytes_of_foreign d u v f _ Hown Hne (chunk_at_FileID f n (FileChunks d))).
      lia.
Qed.

Lemma store0_getUserInfo (u a r : Z) :
  getUserInfo u (db store0) = Some (a, r) -> u = 1 /\ a = 0.
Proof.
  unfold getUserInfo.
  change (UserInfo (db store0)) with [mkUserInfoRow 1 0 0]. cbn [find ui_UserID].
  destruct (Z.eqb_spec 1 u); simpl; [|discriminate].
  intros H. inversion H. auto.
Qed.

Lemma store0_keys_unique : keys_unique (db store0).
Proof. repeat split; simpl; repeat constructor; simpl; tauto. Qed.

Lemma store0_quotas_int64 : quotas_int64 (db store0).
Proof.
  intros u q. unfold getUserQuota.
  change (Perms (db store0)) with [mkPermsRow 1 100]. cbn [find perms_UserID].
  destruct (1 =? u); simpl; [|discriminate].
  intros H. inversion H. unfold int64_range, min_int64, max_int64. lia.
Qed.

Lemma store0_allocated_exact : allocated_exact (db store0).
Proof.
  intros u a r H. destruct (store0_getUserInfo u a r H) as [-> ->]. reflexivity.
Qed.

Lemma store0_allocated_covers : allocated_covers (db store0).
Proof.
  intros u a r H. rewrite (store0_allocated_exact u a r H). lia.
Qed.

Lemma store0_within_quota : within_quota (db store0).
Proof.
  intros u a r q H Hq. destruct (store0_getUserInfo u a r H) as [-> ->].
  vm_compute in Hq. inversion Hq. lia.
Qed.

(** C1 as the spec words it fails when a chunk is put twice: user 1 stores
    three bytes as chunk 0 of file 1 two times; [allocated] is 6, the
    stored chunks add up to 3. *)
Lemma allocated_exceeds_stored_after_reput :
  allocated_exact (db store0) /\
  within_quota (db store0) /\
  run_ops store0 [OpAdd 1 1 0 "h0" abc; OpAdd 1 1 0 "h0" abc] = Some store_reput /\
  getUserInfo 1 (db store_reput) = Some (6, 2) /\
  stored_bytes (db store_reput) 1 = 3 /\
  ~ allocated_exact (db store_reput).
Proof.
  split; [exact store0_allocated_exact|].
  split; [exact store0_within_quota|].
  split; [reflexivity|]. split; [reflexivity|]. split; [reflexivity|].
  intros H. specialize (H 1 6 2 eq_refl). vm_compute in H. discriminate.
Qed.

(** C1, amended.  Along every run of successful [AddFileChunk] and
    [RemoveFileChunk] calls, started where [allocated] lies between the
    stored bytes and the quota, [allocated] stays at least the sum of the
    lengths of the user's stored chunks and at most the quota; it stays
    equal to that sum as long as no [AddFileChunk] of the run displaces a
    stored chunk row. *)
Theorem quota_safety (ops : list chunk_op) (s s' : Storage) :
  keys_unique (db s) -> quotas_int64 (db s) ->
  allocated_covers (db s) -> within_quota (db s) ->
  run_ops s ops = Some s' ->
  allocated_covers (db s') /\ within_quota (db s') /\
  (allocated_exact (db s) -> no_replacement s ops -> allocated_exact (db s')).
Proof.
  revert s. induction ops as [|o ops IH]; intros s HK HQ HC HW Hrun.
  - simpl in Hrun. inversion Hrun; subst. auto.
  - simpl in Hrun. destruct (apply_op s o) as [s1|] eqn:Hop; [|discriminate].
    assert (Hstep : keys_unique (db s1) /\ quotas_int64 (db s1) /\
                    allocated_covers (db s1) /\ within_quota (db s1) /\
                    (allocated_exact (db s) ->
                     match o with
                     | OpAdd _ f _ _ _ => chunk_rows (db s) f = []
                     | OpRemove _ _ _ => True
                     end -> allocated_exact (db s1))).
    { destruct o as [u f n h c|u f n]; simpl in Hop.
      - destruct (AddFileChunk s u f n h c) as [s2 [x|e]] eqn:E; [|discriminate].
        inversion Hop; subst s2.
        apply (AddFileChunk_accounting s s1 u f n h c x E HK HQ HC HW).
      - destruct (RemoveFileChunk s u f n) as [s2 [[|] e]] eqn:E; [|discriminate].
        inversion Hop; subst s2.
        destruct (RemoveFileChunk_accounting s s1 u f n e E HK HQ HC HW)
          as (A & B & C & D & F).
        split; [exact A|]. split; [exact B|]. split; [exact C|]. split; [exact D|].
        intros HE _. exact (F HE). }
    destruct Hstep as (HK1 & HQ1 & HC1 & HW1 & HE1).
    destruct (IH s1 HK1 HQ1 HC1 HW1 Hrun) as (A & B & C).
    split; [exact A|]. split; [exact B|].
    intros HE Hno. simpl in Hno. rewrite Hop in Hno. destruct Hno as [Hfresh Hrest].
    apply C; [|exact Hrest]. apply HE1; assumption.
Qed.

Lemma quota_safety_witness :
  let ops := [OpAdd 1 1 0 "h0" abc; OpRemove 1 1 0; OpAdd 1 1 1 "h1" abc] in
  let s' := fst (AddFileChunk
                   (fst (RemoveFileChunk (fst (AddFileChunk store0 1 1 0 "h0" abc)) 1 1 0))
                   1 1 1 "h1" abc) in
  run_ops store0 ops = Some s' /\
  allocated_covers (db s') /\ within_quota (db s') /\ allocated_exact (db s').
Proof.
  intros ops s'.
  destruct (quota_safety ops store0 s' store0_keys_unique store0_quotas_int64
              store0_allocated_covers store0_within_quota eq_refl) as (A & B & C).
  split; [reflexivity|]. split; [exact A|]. split; [exact B|].
  apply C; [exact store0_allocated_exact|].
  vm_compute. repeat split.
Defined.

(* ================================================================= *)
(** ** Facts about the sync client                                    *)
(* ================================================================= *)

(** *** Trimming of downloaded chunks *)

(** [IndexByte] against the spec's reading of "the first zero byte". *)
Lemma IndexByte_truncate (b : list byte) :
  (IndexByte b x00 = -1 /\ truncate_at_first_zero b = b) \/
  (0 <= IndexByte b x00 < Z.of_nat (length b) /\
   truncate_at_first_zero b = firstn (Z.to_nat (IndexByte b x00)) b).
Proof.
  induction b as [|x b IH]; [left; split; reflexivity|].
  cbn [IndexByte truncate_at_first_zero length]. rewrite Nat2Z.inj_succ.
  destruct (Byte.eqb x x00).
  - right. split; [lia | reflexivity].
  - destruct IH as [[Hk Ht]|[Hk Ht]].
    + left. rewrite Hk, Ht. split; reflexivity.
    + right. destruct (Z.ltb_spec (IndexByte b x00) 0); [lia|].
      split; [lia|].
      replace (Z.to_nat (1 + IndexByte b x00)) with (S (Z.to_nat (IndexByte b x00)))
        by lia.
      cbn [firstn]. now rewrite Ht.
Qed.

(** Where the chunk does not begin with a zero byte, [trimEOF] is the
    truncation at the first zero byte. *)
Lemma trimEOF_truncates (x : byte) (b : list byte) :
  x <> x00 -> trimEOF (x :: b) = truncate_at_first_zero (x :: b).
Proof.
  intros Hx. unfold trimEOF.
  destruct (IndexByte_truncate (x :: b)) as [[Hk Ht]|[Hk Ht]].
  - rewrite Hk, Ht. reflexivity.
  - rewrite Ht.
    assert (Hpos : IndexByte (x :: b) x00 <> 0).
    { cbn [IndexByte]. destruct (Byte.eqb x x00) eqn:E.
      - apply Byte.byte_dec_bl in E. contradiction.
      - destruct (Z.ltb_spec (IndexByte b x00) 0); lia. }
    destruct (Z.gtb_spec (IndexByte (x :: b) x00) 0); [|lia].
    destruct (Z.ltb_spec (IndexByte (x :: b) x00) (Z.of_nat (length (x :: b)))); [|lia].
    reflexivity.
Qed.

(** A chunk that begins with a zero byte is left as it is. *)
Lemma trimEOF_leading_zero (b : list byte) : trimEOF (x00 :: b) = x00 :: b.
Proof. reflexivity. Qed.

(** C8, at a chunk that begins with a zero byte: [syncDownload] writes the
    three bytes it received, where truncation at the first zero byte
    leaves none. *)
Theorem syncDownload_writes_leading_zero_chunk :
  syncDownload (canned_env scenario_leading_zero) 1 "a.txt" "a.txt" 1 tt
  = (tt, [EvOpenTrunc "a.txt"; EvRequest (GetChunk 1 0);
          EvWrite "a.txt" [x00; x41; x42]], (1, None)) /\
  truncate_at_first_zero [x00; x41; x42] = [].
Proof. split; reflexivity. Qed.

(** *** Extra-strict comparison *)

Section ClientFacts.

Variable E : Env.

(** C10.  In extra-strict mode, with equal whole-file hashes, no missing
    chunks and equal chunk counts, when the chunk list the server returns
    has a number of entries other than [localChunkCount], [runSyncFile]
    makes its two requests and nothing else (it reads no chunk and
    compares no chunk hash) and returns [(syncStatusSame, 0, nil)]. *)
Theorem runSyncFile_strict_short_chunk_list
    (localFilename remoteFilepath : string) (w w1 w2 : World E)
    (resp resp2 : body E) (ok2 : bool) (remote : FileGetResponse)
    (localChunkCount localLastMod : Z) (localHash : string)
    (remoteChunks : list FileChunk) :
  flagExtraStrict E = true ->
  runAuthRequest E (GetFileByName remoteFilepath) w = (w1, (resp, true)) ->
  unmarshalFileGet E resp = Some remote ->
  fileExists E localFilename w1 = true ->
  CalcFileHashInfo E (flagChunkSize E) localFilename w1
  = Some (localChunkCount, localLastMod, localHash) ->
  localHash = fi_FileHash (fgr_FileInfo remote) ->
  MissingChunks remote = [] ->
  localChunkCount = fi_ChunkCount (fgr_FileInfo remote) ->
  runAuthRequest E (GetChunkList (fi_FileID (fgr_FileInfo remote))) w1
  = (w2, (resp2, ok2)) ->
  unmarshalFileChunks E resp2 = Some remoteChunks ->
  Z.of_nat (length remoteChunks) <> localChunkCount ->
  runSyncFile E localFilename remoteFilepath w
  = (w2,
     [EvRequest (GetFileByName remoteFilepath);
      EvRequest (GetChunkList (fi_FileID (fgr_FileInfo remote)))],
     (syncStatusSame, 0, None)).
Proof.
  intros Hstrict Hreq Hjson Hstat Hcalc Hhash Hmiss Hcount Hreq2 Hjson2 Hlen.
  unfold runSyncFile, bind, doRequest, doStat, doCalcFileHashInfo.
  rewrite Hreq. cbn [negb]. rewrite Hjson, Hstat. cbn [negb]. rewrite Hcalc.
  rewrite Hhash, String.eqb_refl, Hmiss. cbn [length Z.of_nat Z.eqb andb].
  rewrite <- Hcount, Z.eqb_refl, Hstrict, Hreq2, Hjson2.
  destruct (Z.eqb_spec localChunkCount (Z.of_nat (length remoteChunks)));
    [congruence | reflexivity].
Qed.

End ClientFacts.

Lemma runSyncFile_strict_short_chunk_list_witness :
  runSyncFile (canned_env scenario_short_list) "a.txt" "a.txt" tt
  = (tt, [EvRequest (GetFileByName "a.txt"); EvRequest (GetChunkList 1)],
     (syncStatusSame, 0, None)).
Proof.
  refine (runSyncFile_strict_short_chunk_list (canned_env scenario_short_list)
            "a.txt" "a.txt" tt tt tt _ _ true _ 3 10 "H" _
            eq_refl eq_refl eq_refl eq_refl eq_refl eq_refl eq_refl eq_refl
            eq_refl eq_refl _).
  simpl. lia.
Defined.

(** *** Uploading after a report of missing chunks *)

Lemma range_S (i : Z) (k : nat) : range i (S k) = i :: range (i + 1) k.
Proof.
  unfold range. cbn [seq map]. f_equal; [lia|].
  rewrite <- seq_shift, map_map. apply map_ext. intros j. lia.
Qed.

Lemma range_0_upto (n : Z) : range 0 (Z.to_nat n) = upto n.
Proof. unfold range, upto. apply map_ext. intros j. lia. Qed.

Section UploadFacts.

Variable E : Env.

(** The uploads of [forEachChunk] with the upload closure: chunk numbers
    [i, i+1, ...] in ascending order, one request each, until a chunk
    cannot be read or a request fails. *)
Lemma forEachChunk_upload (remoteID chunkSize : Z) (filename : string) (n : nat) :
  forall (i acc : Z) (w w' : World E) (evs : list event) (acc' : Z)
         (err : option cerror),
    forEachChunk_from E chunkSize filename (uploadChunk E remoteID) n i acc w
    = (w', evs, (acc', err)) ->
    exists k : nat,
      put_indices evs = range i k /\
      (k <= n)%nat /\
      acc' - acc <= Z.of_nat k <= acc' - acc + 1 /\
      (err = None -> k = n /\ acc' = acc + Z.of_nat n).
Proof.
  induction n as [|n IH]; intros i acc w w' evs acc' err H.
  - cbn in H. inversion H; subst. exists 0%nat.
    repeat split; try reflexivity; lia.
  - cbn [forEachChunk_from] in H. unfold bind, doReadChunk in H.
    destruct (readChunk E chunkSize filename i w) as [b|].
    + unfold uploadChunk at 1, bind, doRequest in H.
      destruct (runAuthRequest E
                  (PutChunk remoteID i (sha1_base64 E b) b) w) as [w1 [resp ok]].
      destruct ok; cbn [negb] in H.
      * destruct (unmarshalFileChunkPut E resp) as [[|]|]; cbn in H.
        -- destruct (forEachChunk_from E chunkSize filename (uploadChunk E remoteID)
                       n (i + 1) (acc + 1) w1) as [[w2 evs2] [acc2 err2]] eqn:Hrec.
           inversion H; subst.
           destruct (IH _ _ _ _ _ _ _ Hrec) as (k & Hput & Hk & Hacc & Hnone).
           exists (S k). rewrite range_S.
           split; [unfold put_indices in *; cbn [app flat_map]; f_equal; exact Hput|].
           split; [lia|]. split; [lia|].
           intros Hn. destruct (Hnone Hn) as [-> ->]. split; lia.
        -- inversion H; subst. exists 1%nat.
           split; [rewrite range_S; reflexivity|]. split; [lia|]. split; [lia|]. discriminate.
        -- inversion H; subst. exists 1%nat.
           split; [rewrite range_S; reflexivity|]. split; [lia|]. split; [lia|]. discriminate.
      * cbn in H. inversion H; subst. exists 1%nat.
        split; [rewrite range_S; reflexivity|]. split; [lia|]. split; [lia|]. discriminate.
    + cbn in H. inversion H; subst. exists 0%nat.
      split; [reflexivity|]. split; [lia|]. split; [lia|]. discriminate.
Qed.

Lemma syncUploadMissing_uploads (remoteID : Z) (filename remoteFilepath : string)
    (localChunkCount : Z) (w w' : World E) (evs : list event) (n : Z)
    (e : option cerror) :
  syncUploadMissing E remoteID filename remoteFilepath localChunkCount w
  = (w', evs, (n, e)) ->
  (exists k : nat,
      put_indices evs = range 0 k /\
      (k <= Z.to_nat localChunkCount)%nat /\
      n <= Z.of_nat k <= n + 1) /\
  (e = None ->
   put_indices evs = upto localChunkCount /\ n = Z.of_nat (Z.to_nat localChunkCount)).
Proof.
  unfold syncUploadMissing, forEachChunk, bind. intros H.
  destruct (forEachChunk_from E (flagChunkSize E) filename (uploadChunk E remoteID)
              (Z.to_nat localChunkCount) 0 0 w) as [[w1 evs1] [acc1 err1]] eqn:Hloop.
  destruct (forEachChunk_upload _ _ _ _ _ _ _ _ _ _ _ Hloop)
    as (k & Hput & Hk & Hacc & Hnone).
  destruct err1 as [e1|]; cbn in H; inversion H; subst; rewrite app_nil_r.
  - split; [exists k; repeat split; try assumption; lia | discriminate].
  - destruct (Hnone eq_refl) as [-> Hn].
    split; [exists (Z.to_nat localChunkCount); repeat split; try assumption; lia|].
    intros _. split; [exact Hput | lia].
Qed.

(** Where the upload loop stops with an error: at the chunk whose number
    is the number of chunks put so far, which could not be read or was not
    accepted. *)
Lemma forEachChunk_upload_stop (remoteID : Z) (filename : string) (n : nat) :
  forall (i acc : Z) (w w' : World E) (evs : list event) (acc' : Z) (e : cerror),
    forEachChunk_from E (flagChunkSize E) filename (uploadChunk E remoteID) n i acc w
    = (w', evs, (acc', Some e)) ->
    let j := i + (acc' - acc) in
    0 <= acc' - acc < Z.of_nat n /\
    ((readChunk E (flagChunkSize E) filename j w' = None /\
      put_indices evs = range i (Z.to_nat (acc' - acc)))
     \/
     (exists (wj : World E) (b : list byte),
        readChunk E (flagChunkSize E) filename j wj = Some b /\
        put_accepted E remoteID j b wj = false /\
        fst (runAuthRequest E (PutChunk remoteID j (sha1_base64 E b) b) wj) = w' /\
        put_indices evs = range i (S (Z.to_nat (acc' - acc))))).
Proof.
  induction n as [|n IH]; intros i acc w w' evs acc' e H.
  - cbn in H. inversion H.
  - cbn [forEachChunk_from] in H. unfold bind, doReadChunk in H.
    destruct (readChunk E (flagChunkSize E) filename i w) as [b|] eqn:Hread.
    + unfold uploadChunk at 1, bind, doRequest in H.
      destruct (runAuthRequest E
                  (PutChunk remoteID i (sha1_base64 E b) b) w) as [w1 [resp ok]] eqn:Hput.
      destruct ok; cbn [negb] in H.
      * destruct (unmarshalFileChunkPut E resp) as [[|]|] eqn:Hjson; cbn in H.
        -- destruct (forEachChunk_from E (flagChunkSize E) filename
                       (uploadChunk E remoteID) n (i + 1) (acc + 1) w1)
             as [[w2 evs2] [acc2 err2]] eqn:Hrec.
           inversion H; subst.
           destruct (IH _ _ _ _ _ _ _ Hrec) as (Hk & Hcase).
           cbn zeta in Hcase. cbn zeta.
           replace (i + 1 + (acc' - (acc + 1))) with (i + (acc' - acc)) in Hcase by lia.
           assert (HS : S (Z.to_nat (acc' - (acc + 1))) = Z.to_nat (acc' - acc)) by lia.
           split; [lia|].
           destruct Hcase as [(Hr & Hp) | (wj & b' & Hr & Ha & Hw & Hp)].
           ++ left. split; [exact Hr|].
              rewrite <- HS, range_S.
              unfold put_indices in *; cbn [app flat_map]. f_equal. exact Hp.
           ++ right. exists wj, b'. repeat (split; [assumption|]).
              rewrite <- HS, (range_S i).
              unfold put_indices in *; cbn [app flat_map]. f_equal. exact Hp.
        -- inversion H; subst. cbn zeta.
           replace (i + (acc' - acc')) with i by lia.
           replace (acc' - acc') with 0 by lia.
           split; [lia|]. right. exists w, b.
           split; [exact Hread|].
           split; [unfold put_accepted; rewrite Hput, Hjson; reflexivity|].
           split; [rewrite Hput; reflexivity|].
           cbn [Z.to_nat]. rewrite range_S. reflexivity.
        -- inversion H; subst. cbn zeta.
           replace (i + (acc' - acc')) with i by lia.
           replace (acc' - acc') with 0 by lia.
           split; [lia|]. right. exists w, b.
           split; [exact Hread|].
           split; [unfold put_accepted; rewrite Hput, Hjson; reflexivity|].
           split; [rewrite Hput; reflexivity|].
           cbn [Z.to_nat]. rewrite range_S. reflexivity.
      * cbn in H. inversion H; subst. cbn zeta.
        replace (i + (acc' - acc')) with i by lia.
        replace (acc' - acc') with 0 by lia.
        split; [lia|]. right. exists w, b.
        split; [exact Hread|].
        split; [unfold put_accepted; rewrite Hput; reflexivity|].
        split; [rewrite Hput; reflexivity|].
        cbn [Z.to_nat]. rewrite range_S. reflexivity.
    + cbn in H. inversion H; subst. cbn zeta.
      replace (i + (acc' - acc')) with i by lia.
      replace (acc' - acc') with 0 by lia.
      split; [lia|]. left. split; [exact Hread | reflexivity].
Qed.

Lemma syncUploadMissing_stops (remoteID : Z) (filename remoteFilepath : string)
    (localChunkCount : Z) (w w' : World E) (evs : list event) (n : Z) (e : cerror) :
  syncUploadMissing E remoteID filename remoteFilepath localChunkCount w
  = (w', evs, (n, Some e)) ->
  e = EUploadLocalChunk /\
  upload_stopped E remoteID filename localChunkCount w' evs n.
Proof.
  unfold syncUploadMissing, forEachChunk, bind. intros H.
  destruct (forEachChunk_from E (flagChunkSize E) filename (uploadChunk E remoteID)
              (Z.to_nat localChunkCount) 0 0 w) as [[w1 evs1] [acc1 err1]] eqn:Hloop.
  destruct err1 as [e1|]; cbn in H; inversion H; subst; rewrite app_nil_r.
  split; [reflexivity|].
  destruct (forEachChunk_upload_stop _ _ _ _ _ _ _ _ _ _ Hloop) as (Hk & Hcase).
  cbn zeta in Hcase.
  replace (0 + (n - 0)) with n in Hcase by lia.
  replace (n - 0) with n in * by lia.
  unfold upload_stopped. split; [lia|].
  destruct Hcase as [(Hr & Hp) | (wj & b & Hr & Ha & Hw & Hp)].
  - left. split; [exact Hr|]. rewrite <- range_0_upto. exact Hp.
  - right. exists wj, b. repeat (split; [assumption|]).
    rewrite <- range_0_upto.
    replace (Z.to_nat (n + 1)) with (S (Z.to_nat n)) by lia. exact Hp.
Qed.

(** In an environment where reads and uploads never fail, a stop is
    impossible. *)
Lemma upload_never_stopped (remoteID : Z) (filename : string) (localChunkCount : Z)
    (w' : World E) (evs : list event) (n : Z) :
  uploads_never_fail E remoteID filename localChunkCount ->
  ~ upload_stopped E remoteID filename localChunkCount w' evs n.
Proof.
  intros [Hread Hput] (Hn & [(Hr & _) | (wj & b & _ & Ha & _)]).
  - exact (Hread n w' Hn Hr).
  - rewrite Hput in Ha. discriminate.
Qed.

(** C3, amended.  When the remote file is registered, the local file
    exists, the modification times are equal and the server reports
    missing chunks, [runSyncFile] runs [syncUploadMissing] and returns
    [syncStatusMissing] with its upload count.  [syncUploadMissing] puts
    the local chunks 0, 1, 2, ... in ascending order, one request per
    chunk, stopping at the first chunk that cannot be read or uploaded.
    When it ends without error it has put every chunk number below
    [localChunkCount], and the count is [localChunkCount].  When it ends
    with an error, the count [n] is below [localChunkCount] and chunk [n]
    is where it stopped: chunk [n] could not be read after the chunks
    below [n] were put, or it was put and the server did not accept it.
    Where every chunk can be read and every upload is accepted, it ends
    without error. *)
Theorem runSyncFile_missing_uploads_every_chunk
    (localFilename remoteFilepath : string) (w w1 : World E) (resp : body E)
    (remote : FileGetResponse) (localChunkCount localLastMod : Z)
    (localHash : string) :
  runAuthRequest E (GetFileByName remoteFilepath) w = (w1, (resp, true)) ->
  unmarshalFileGet E resp = Some remote ->
  fileExists E localFilename w1 = true ->
  CalcFileHashInfo E (flagChunkSize E) localFilename w1
  = Some (localChunkCount, localLastMod, localHash) ->
  localLastMod = fi_LastMod (fgr_FileInfo remote) ->
  MissingChunks remote <> [] ->
  exists (w' : World E) (evs : list event) (n : Z) (e : option cerror),
    syncUploadMissing E (fi_FileID (fgr_FileInfo remote)) localFilename
                      remoteFilepath localChunkCount w1
    = (w', evs, (n, e)) /\
    runSyncFile E localFilename remoteFilepath w
    = (w', EvRequest (GetFileByName remoteFilepath) :: evs,
       (syncStatusMissing, n, e)) /\
    (exists k : nat,
        put_indices evs = range 0 k /\
        (k <= Z.to_nat localChunkCount)%nat /\
        n <= Z.of_nat k <= n + 1) /\
    (e = None ->
     put_indices evs = upto localChunkCount /\
     n = Z.of_nat (Z.to_nat localChunkCount)) /\
    (e <> None ->
     e = Some EUploadLocalChunk /\
     upload_stopped E (fi_FileID (fgr_FileInfo remote)) localFilename
                    localChunkCount w' evs n) /\
    (uploads_never_fail E (fi_FileID (fgr_FileInfo remote)) localFilename
                        localChunkCount ->
     e = None).
Proof.
  intros Hreq Hjson Hstat Hcalc Hmod Hmiss.
  destruct (syncUploadMissing E (fi_FileID (fgr_FileInfo remote)) localFilename
              remoteFilepath localChunkCount w1) as [[w' evs] [n e]] eqn:Hup.
  exists w', evs, n, e. split; [reflexivity|]. split.
  - unfold runSyncFile, bind, doRequest, doStat, doCalcFileHashInfo.
    rewrite Hreq. cbn [negb]. rewrite Hjson, Hstat. cbn [negb]. rewrite Hcalc.
    assert (Hlen : (Z.of_nat (length (MissingChunks remote)) =? 0) = false).
    { destruct (MissingChunks remote); [contradiction|]. reflexivity. }
    rewrite Hlen, andb_false_r. cbn [andb].
    unfold resolveDifference, bind. rewrite <- Hmod.
    destruct (Z.gtb_spec localLastMod localLastMod); [lia|].
    destruct (Z.ltb_spec localLastMod localLastMod); [lia|].
    assert (Hpos : (Z.of_nat (length (MissingChunks remote)) >? 0) = true).
    { destruct (MissingChunks remote); [contradiction|]. reflexivity. }
    rewrite Hpos, Hup. cbn. now rewrite app_nil_r.
  - destruct (syncUploadMissing_uploads _ _ _ _ _ _ _ _ _ Hup) as [Hk Hall].
    split; [exact Hk|]. split; [exact Hall|].
    assert (Hfail : e <> None ->
                    e = Some EUploadLocalChunk /\
                    upload_stopped E (fi_FileID (fgr_FileInfo remote)) localFilename
                                   localChunkCount w' evs n).
    { intros He. destruct e as [x|]; [|contradiction].
      destruct (syncUploadMissing_stops _ _ _ _ _ _ _ _ _ Hup) as [-> Hs].
      split; [reflexivity | exact Hs]. }
    split; [exact Hfail|].
    intros Hnever. destruct e as [x|]; [|reflexivity].
    destruct Hfail as [_ Hs]; [discriminate|].
    exfalso. exact (upload_never_stopped _ _ _ _ _ _ Hnever Hs).
Qed.

End UploadFacts.

(** C3 as the spec words it fails where the server reports one missing
    chunk of three: the run puts chunks 0, 1 and 2, and counts 3. *)
Lemma syncUploadMissing_uploads_beyond_missing :
  let run := runSyncFile (canned_env scenario_missing) "a.txt" "a.txt" tt in
  option_map MissingChunks (sc_remote scenario_missing) = Some [1] /\
  snd run = (syncStatusMissing, 3, None) /\
  put_indices (snd (fst run)) = [0; 1; 2] /\
  put_indices (snd (fst run)) <> [1].
Proof.
  split; [reflexivity|]. split; [reflexivity|]. split; [reflexivity|]. discriminate.
Qed.

Lemma runSyncFile_missing_uploads_every_chunk_witness :
  uploads_never_fail (canned_env scenario_missing) 1 "a.txt" 3 /\
  exists evs,
    runSyncFile (canned_env scenario_missing) "a.txt" "a.txt" tt
    = (tt, EvRequest (GetFileByName "a.txt") :: evs, (syncStatusMissing, 3, None)) /\
    put_indices evs = upto 3.
Proof.
  assert (Hnever : uploads_never_fail (canned_env scenario_missing) 1 "a.txt" 3).
  { split; [intros i w _; discriminate | intros i b w; reflexivity]. }
  split; [exact Hnever|].
  destruct (runSyncFile_missing_uploads_every_chunk (canned_env scenario_missing)
              "a.txt" "a.txt" tt tt _ _ 3 10 "H"
              eq_refl eq_refl eq_refl eq_refl eq_refl)
    as (w & evs & n & e & Hup & Hrun & _ & Hall & _ & Hlive).
  - discriminate.
  - pose proof (Hlive Hnever) as He. subst e.
    destruct (Hall eq_refl) as [Hput Hn].
    destruct w. exists evs. split; [|exact Hput].
    rewrite Hrun, Hn. reflexivity.
Defined.

(* ================================================================= *)
(** ** Further properties of the storage verbs                        *)
(* ================================================================= *)

(** *** Effects of the chunk verbs *)

Lemma chunk_rows_add_other (f f' n : Z) (h : string) (c : list byte) (d : DB) :
  f' <> f ->
  chunk_rows (fst (addFileChunk f n h c d)) f' = chunk_rows d f'.
Proof.
  intros Hne. unfold chunk_rows, addFileChunk. simpl. rewrite filter_app. simpl.
  destruct (Z.eqb_spec f f'); [congruence|]. rewrite app_nil_r.
  induction (FileChunks d) as [|x l IH]; simpl; [reflexivity|].
  destruct (Z.eqb_spec (fc_FileID x) f) as [E|E]; simpl.
  - destruct (Z.eqb_spec (fc_FileID x) f'); [congruence | exact IH].
  - destruct (fc_FileID x =? f'); [now rewrite IH | exact IH].
Qed.

Lemma chunk_rows_remove (f f' n : Z) (d : DB) :
  chunk_rows (fst (removeFileChunk f n d)) f'
  = filter (fun x => negb (chunk_at f n x)) (chunk_rows d f').
Proof.
  unfold chunk_rows, removeFileChunk. simpl.
  induction (FileChunks d) as [|x l IH]; simpl; [reflexivity|].
  destruct (chunk_at f n x) eqn:Hat; simpl.
  - destruct (fc_FileID x =? f'); simpl; [rewrite Hat; simpl|]; exact IH.
  - destruct (fc_FileID x =? f'); simpl; [rewrite Hat; simpl; now rewrite IH | exact IH].
Qed.

Lemma chunk_rows_remove_other (f f' n : Z) (d : DB) :
  f' <> f ->
  chunk_rows (fst (removeFileChunk f n d)) f' = chunk_rows d f'.
Proof.
  intros Hne. rewrite chunk_rows_remove.
  unfold chunk_rows.
  induction (FileChunks d) as [|x l IH]; simpl; [reflexivity|].
  destruct (Z.eqb_spec (fc_FileID x) f') as [E|E]; simpl; [|exact IH].
  unfold chunk_at at 1. destruct (Z.eqb_spec (fc_FileID x) f); [congruence|].
  simpl. now rewrite IH.
Qed.

(** What a successful [AddFileChunk] of a chunk that is not empty changes,
    where [allocated], [revision] and their updated values are 64-bit
    integers: [allocated] of the caller grows by the length of the chunk
    and [revision] by one; the chunk can be read back; the rows of other
    users, the chunk rows of other files, the quotas, the file table and
    the chunk size are as before. *)
Theorem AddFileChunk_effect (s s' : Storage) (u f n : Z) (h : string) (c : list byte)
    (x : unit) (a r : Z) :
  AddFileChunk s u f n h c = (s', Ok x) ->
  getUserInfo u (db s) = Some (a, r) ->
  c <> [] ->
  update_in_int64 a r (Z.of_nat (length c)) ->
  getUserInfo u (db s') = Some (a + Z.of_nat (length c), r + 1) /\
  int64_range (a + Z.of_nat (length c)) /\
  int64_range (r + 1) /\
  (forall v, v <> u -> getUserInfo v (db s') = getUserInfo v (db s)) /\
  GetFileChunk s' f n = Ok (mkFileChunk f n h c) /\
  (forall f', f' <> f -> chunk_rows (db s') f' = chunk_rows (db s) f') /\
  Perms (db s') = Perms (db s) /\
  FileInfoT (db s') = FileInfoT (db s) /\
  ChunkSize s' = ChunkSize s.
Proof.
  intros E Hi _ (_ & _ & Ra & Rr).
  apply AddFileChunk_Ok_inv in E. destruct E as (_ & _ & _ & ->).
  split; [|split; [exact Ra|split; [exact Rr|split; [|split; [|split; [|repeat split]]]]]].
  - apply (getUserInfo_update_same _ u (fst (addFileChunk f n h c (db s))) a r Hi).
  - intros v Hv.
    apply (getUserInfo_update_other _ u v (fst (addFileChunk f n h c (db s))) Hv).
  - unfold GetFileChunk, getFileChunk. rewrite find_chunk_at_in_rows.
    change (chunk_rows (db (with_db s _)) f)
      with (chunk_rows (fst (addFileChunk f n h c (db s))) f).
    rewrite chunk_rows_after_add. simpl. unfold chunk_at. simpl.
    now rewrite !Z.eqb_refl.
  - intros f' Hf'. apply (chunk_rows_add_other f f' n h c (db s) Hf').
Qed.

Lemma AddFileChunk_effect_witness :
  AddFileChunk store0 1 1 7 "h7" abc = (fst (AddFileChunk store0 1 1 7 "h7" abc), Ok tt) /\
  getUserInfo 1 (db (fst (AddFileChunk store0 1 1 7 "h7" abc))) = Some (0 + 3, 0 + 1) /\
  GetFileChunk (fst (AddFileChunk store0 1 1 7 "h7" abc)) 1 7
  = Ok (mkFileChunk 1 7 "h7" abc).
Proof.
  destruct (AddFileChunk_effect store0 (fst (AddFileChunk store0 1 1 7 "h7" abc))
              1 1 7 "h7" abc tt 0 0 eq_refl eq_refl) as (A & _ & _ & _ & B & _).
  - discriminate.
  - unfold update_in_int64, int64_range, min_int64, max_int64. simpl. lia.
  - split; [reflexivity|]. split; [exact A | exact B].
Defined.

(** [RemoveFileChunk] run by the owner on a stored chunk, where the
    [UserInfo] key is unique. *)
Lemma RemoveFileChunk_run (s : Storage) (u f n : Z) (h : string) (c : list byte)
    (a r : Z) :
  NoDup (map ui_UserID (UserInfo (db s))) ->
  getFileInfoOwner f (db s) = Some u ->
  getFileChunk f n (db s) = Some (h, c) ->
  getUserInfo u (db s) = Some (a, r) ->
  RemoveFileChunk s u f n
  = (with_db s (fst (updateUserInfo (- Z.of_nat (length c)) u
                       (fst (removeFileChunk f n (db s))))), (true, None)).
Proof.
  intros K2 Hown Hc Hi.
  assert (Hcount : 0 < count_rows (chunk_at f n) (FileChunks (db s))).
  { unfold getFileChunk in Hc.
    destruct (find (chunk_at f n) (FileChunks (db s))) as [row|] eqn:Hf; [|discriminate].
    eapply count_rows_found. exact Hf. }
  pose proof (updateUserInfo_affected (- Z.of_nat (length c)) u
                (fst (removeFileChunk f n (db s))) (a, r) K2 Hi) as Haff.
  unfold RemoveFileChunk. tx_unfold. rewrite Hown. simpl.
  rewrite Z.eqb_refl. simpl. rewrite Hc. simpl.
  destruct (Z.leb_spec (count_rows (chunk_at f n) (FileChunks (db s))) 0); [lia|].
  simpl. simpl in Haff. rewrite Haff. reflexivity.
Qed.

(** [AddFileChunk] run by the owner within size and quota, where the
    [UserInfo] key is unique. *)
Lemma AddFileChunk_run (s : Storage) (u f n : Z) (h : string) (c : list byte)
    (q a r : Z) :
  NoDup (map ui_UserID (UserInfo (db s))) ->
  Z.of_nat (length c) <= ChunkSize s ->
  getFileInfoOwner f (db s) = Some u ->
  getUserQuota u (db s) = Some q ->
  getUserInfo u (db s) = Some (a, r) ->
  Z.of_nat (length c) <= sub64 q a ->
  AddFileChunk s u f n h c
  = (with_db s (fst (updateUserInfo (Z.of_nat (length c)) u
                       (fst (addFileChunk f n h c (db s))))), Ok tt).
Proof.
  intros K2 Hsize Hown Hq Hi Hroom.
  pose proof (updateUserInfo_affected (Z.of_nat (length c)) u
                (fst (addFileChunk f n h c (db s))) (a, r) K2 Hi) as Haff.
  unfold AddFileChunk.
  destruct (Z.gtb_spec (Z.of_nat (length c)) (ChunkSize s)); [lia|].
  tx_unfold. rewrite Hown. simpl. rewrite Z.eqb_refl. simpl.
  rewrite Hq, Hi. simpl.
  destruct (Z.ltb_spec (sub64 q a) (Z.of_nat (length c))); [lia|].
  simpl. simpl in Haff. rewrite Haff. reflexivity.
Qed.

(** In a reachable state where the quota and [allocated] of the owner lie
    between 0 and the largest 64-bit integer and [revision] and its
    successor are 64-bit integers, [AddFileChunk] succeeds for the owner
    whenever the chunk is not empty and fits the chunk size and the free
    quota, whatever the chunk number is: the chunk number is not compared
    with the chunk count of the file.  The chunk is then stored under that
    number and accounted to the owner. *)
Theorem AddFileChunk_accepts_any_chunk_number (s : Storage) (u f n : Z) (h : string)
    (c : list byte) (q a r : Z) :
  reachable s ->
  getFileInfoOwner f (db s) = Some u ->
  getUserQuota u (db s) = Some q ->
  getUserInfo u (db s) = Some (a, r) ->
  0 <= q <= max_int64 ->
  0 <= a <= max_int64 ->
  int64_range r ->
  int64_range (r + 1) ->
  c <> [] ->
  Z.of_nat (length c) <= ChunkSize s ->
  Z.of_nat (length c) <= q - a ->
  exists s',
    AddFileChunk s u f n h c = (s', Ok tt) /\
    GetFileChunk s' f n = Ok (mkFileChunk f n h c) /\
    getUserInfo u (db s') = Some (a + Z.of_nat (length c), r + 1) /\
    0 <= a + Z.of_nat (length c) <= q.
Proof.
  intros Hreach Hown Hq Hi Rq Ra Rr Rr' Hne Hsize Hroom.
  destruct (reachable_invariant s Hreach) as [(_ & K2 & _ & _) _].
  assert (Hfit : 0 <= a + Z.of_nat (length c) <= q) by lia.
  rewrite <- (sub64_exact q a Rq Ra) in Hroom.
  eexists. split; [|split; [|split; [|exact Hfit]]].
  - apply (AddFileChunk_run s u f n h c q a r); assumption.
  - unfold GetFileChunk, getFileChunk. rewrite find_chunk_at_in_rows.
    change (chunk_rows (db (with_db s _)) f)
      with (chunk_rows (fst (addFileChunk f n h c (db s))) f).
    rewrite chunk_rows_after_add. simpl. unfold chunk_at. simpl.
    now rewrite !Z.eqb_refl.
  - apply (getUserInfo_update_same _ u (fst (addFileChunk f n h c (db s))) a r Hi).
Qed.

Lemma AddFileChunk_accepts_any_chunk_number_witness :
  exists s',
    AddFileChunk store0 1 1 99 "h" abc = (s', Ok tt) /\
    GetFileChunk s' 1 99 = Ok (mkFileChunk 1 99 "h" abc) /\
    getUserInfo 1 (db s') = Some (0 + Z.of_nat (length abc), 0 + 1) /\
    0 <= 0 + Z.of_nat (length abc) <= 100.
Proof.
  refine (AddFileChunk_accepts_any_chunk_number store0 1 1 99 "h" abc 100 0 0
            reachable_store0 eq_refl eq_refl eq_refl _ _ _ _ _ _ _).
  - unfold max_int64. lia.
  - unfold max_int64. lia.
  - unfold int64_range, min_int64, max_int64. lia.
  - unfold int64_range, min_int64, max_int64. lia.
  - discriminate.
  - simpl. lia.
  - simpl. lia.
Defined.

(** A verb that reports an error has changed nothing, and the reading
    verbs change nothing in any case. *)
Theorem verbs_change_storage_only_on_success (s s' : Storage) (u f : Z)
    (v : file_verb) (r : option error) :
  call_verb s u f v = (s', r) ->
  (r <> None -> s' = s) /\
  match v with
  | VGetFileInfo | VGetMissingChunkNumbersForFile | VGetFileChunk _ => s' = s
  | VAddFileChunk _ _ _ | VRemoveFileChunk _ => True
  end.
Proof.
  destruct v as [| |n h c|n|n]; simpl.
  - unfold GetFileInfo, transact.
    match goal with |- context [?t (db s)] =>
      destruct (t (db s)) as [d' [fi|e]] eqn:Ht end.
    + assert (d' = db s).
      { revert Ht. tx_unfold.
        destruct (getFileInfoOwner f (db s)); simpl; [|discriminate].
        destruct (negb (z =? u)); simpl; [discriminate|].
        destruct (getFileInfo f (db s)); simpl; [|discriminate].
        intros H. now inversion H. }
      subst d'. rewrite with_db_same. intros H. inversion H; subst. auto.
    + intros H. inversion H; subst. auto.
  - destruct (GetMissingChunkNumbersForFile s u f) as [s1 [mia|e]] eqn:E.
    + apply GetMissingChunkNumbersForFile_computes in E. destruct E as [-> _].
      intros H. inversion H; subst. auto.
    + intros H. inversion H; subst.
      assert (s' = s).
      { revert E. unfold GetMissingChunkNumbersForFile.
        match goal with |- context [transact s ?t] =>
          destruct (transact s t) as [s2 [[fi known]|e2]] eqn:Ht end.
        - discriminate.
        - intros H1. inversion H1; subst. eapply transact_Err. exact Ht. }
      auto.
  - destruct (AddFileChunk s u f n h c) as [s1 [x|e]] eqn:E; intros H;
      inversion H; subst.
    + split; [intros C; now contradiction C | exact I].
    + apply AddFileChunk_Err_unchanged in E. auto.
  - destruct (RemoveFileChunk s u f n) as [s1 [[|] e]] eqn:E; intros H;
      inversion H; subst.
    + apply RemoveFileChunk_true_inv in E. destruct E as (-> & _).
      split; [intros C; now contradiction C | exact I].
    + apply RemoveFileChunk_false_unchanged in E. auto.
  - intros H. inversion H; subst. auto.
Qed.

Lemma verbs_change_storage_only_on_success_witness :
  fst (call_verb store_tight 1 1 (VAddFileChunk 0 "h" abc)) = store_tight.
Proof.
  refine (proj1 (verbs_change_storage_only_on_success store_tight
                   (fst (call_verb store_tight 1 1 (VAddFileChunk 0 "h" abc)))
                   1 1 (VAddFileChunk 0 "h" abc) (Some QuotaExceeded) eq_refl) _).
  discriminate.
Defined.

(** *** Putting a chunk and removing it again *)

(** In a reachable state, a chunk that is not empty and was put can be
    removed by the same user, where [allocated] and [revision] stay 64-bit
    integers through both updates: the removal succeeds, the file is left
    without chunk rows, [allocated] is back at its value before the put,
    and [revision] has advanced by two. *)
Theorem AddFileChunk_then_RemoveFileChunk (s s1 : Storage) (u f n : Z) (h : string)
    (c : list byte) (x : unit) (a r : Z) :
  reachable s ->
  AddFileChunk s u f n h c = (s1, Ok x) ->
  getUserInfo u (db s) = Some (a, r) ->
  c <> [] ->
  update_in_int64 a r (Z.of_nat (length c)) ->
  int64_range (r + 2) ->
  exists s2,
    getUserInfo u (db s1) = Some (a + Z.of_nat (length c), r + 1) /\
    update_in_int64 (a + Z.of_nat (length c)) (r + 1) (- Z.of_nat (length c)) /\
    RemoveFileChunk s1 u f n = (s2, (true, None)) /\
    getUserInfo u (db s2) = Some (a, r + 2) /\
    chunk_rows (db s2) f = [] /\
    (forall f', f' <> f -> chunk_rows (db s2) f' = chunk_rows (db s) f').
Proof.
  intros Hreach E Hi _ (Ra & Rr & Ra1 & Rr1) Rr2.
  assert (Hreach1 : reachable s1).
  { replace s1 with (fst (AddFileChunk s u f n h c)) by now rewrite E.
    now constructor. }
  destruct (reachable_invariant s1 Hreach1) as [(_ & K2 & _ & _) _].
  pose proof (AddFileChunk_Ok_inv s s1 u f n h c x E) as (_ & Hown & _ & Hs1).
  set (L := Z.of_nat (length c)) in *.
  set (d1 := fst (updateUserInfo L u (fst (addFileChunk f n h c (db s))))) in *.
  assert (Hd1 : db s1 = d1) by (subst s1; reflexivity).
  assert (Hrows1 : chunk_rows d1 f = [mkFileChunk f n h c])
    by apply (chunk_rows_after_add f n h c (db s)).
  assert (Hc1 : getFileChunk f n d1 = Some (h, c)).
  { unfold getFileChunk. rewrite find_chunk_at_in_rows, Hrows1. simpl.
    unfold chunk_at. simpl. now rewrite !Z.eqb_refl. }
  assert (Hi1 : getUserInfo u d1 = Some (a + L, r + 1))
    by apply (getUserInfo_update_same L u (fst (addFileChunk f n h c (db s))) a r Hi).
  assert (Hown1 : getFileInfoOwner f d1 = Some u) by exact Hown.
  rewrite <- Hd1 in Hc1, Hi1, Hown1.
  eexists. split; [exact Hi1|].
  split.
  { unfold update_in_int64. subst L.
    replace (a + Z.of_nat (length c) + - Z.of_nat (length c)) with a by lia.
    replace (r + 1 + 1) with (r + 2) by lia. tauto. }
  split; [apply (RemoveFileChunk_run s1 u f n h c (a + L) (r + 1) K2 Hown1 Hc1 Hi1)|].
  split; [|split].
  - pose proof (getUserInfo_update_same (- L) u (fst (removeFileChunk f n (db s1)))
                  (a + L) (r + 1) Hi1) as H2.
    change (getUserInfo u (fst (updateUserInfo (- L) u (fst (removeFileChunk f n (db s1)))))
            = Some (a, r + 2)).
    rewrite H2. f_equal. f_equal; lia.
  - change (chunk_rows (fst (removeFileChunk f n (db s1))) f = []).
    rewrite chunk_rows_remove, Hd1, Hrows1. simpl.
    unfold chunk_at. simpl. now rewrite !Z.eqb_refl.
  - intros f' Hf'.
    change (chunk_rows (fst (removeFileChunk f n (db s1))) f' = chunk_rows (db s) f').
    rewrite (chunk_rows_remove_other f f' n (db s1) Hf'), Hd1.
    apply (chunk_rows_add_other f f' n h c (db s) Hf').
Qed.

Lemma AddFileChunk_then_RemoveFileChunk_witness :
  exists s2,
    RemoveFileChunk (fst (AddFileChunk store0 1 1 0 "h0" abc)) 1 1 0 = (s2, (true, None)) /\
    getUserInfo 1 (db s2) = Some (0, 0 + 2) /\
    chunk_rows (db s2) 1 = [].
Proof.
  destruct (AddFileChunk_then_RemoveFileChunk store0
              (fst (AddFileChunk store0 1 1 0 "h0" abc)) 1 1 0 "h0" abc tt 0 0
              reachable_store0 eq_refl eq_refl) as (s2 & _ & _ & A & B & C & _).
  - discriminate.
  - unfold update_in_int64, int64_range, min_int64, max_int64. simpl. lia.
  - unfold int64_range, min_int64, max_int64. lia.
  - exists s2. auto.
Defined.

(** *** What [GetMissingChunkNumbersForFile] reports *)

Lemma ascending_cons_lower (x : Z) (l : list Z) :
  ascending l -> (forall y, In y l -> x < y) -> ascending (x :: l).
Proof.
  intros Hl Hx. destruct l as [|y l]; simpl; [auto|].
  split; [apply Hx; now left | exact Hl].
Qed.

Lemma ascending_filter_from (p : Z -> bool) (k : nat) (i : nat) :
  ascending (filter p (map Z.of_nat (seq i k))) /\
  forall y, In y (filter p (map Z.of_nat (seq i k))) -> Z.of_nat i <= y.
Proof.
  revert i. induction k as [|k IH]; intros i; simpl; [split; [exact I | intros y []]|].
  destruct (IH (S i)) as [Hasc Hlow].
  destruct (p (Z.of_nat i)).
  - split.
    + apply ascending_cons_lower; [exact Hasc|].
      intros y Hy. specialize (Hlow y Hy). lia.
    + intros y [<-|Hy]; [lia|]. specialize (Hlow y Hy). lia.
  - split; [exact Hasc|]. intros y Hy. specialize (Hlow y Hy). lia.
Qed.

Lemma In_upto (i n : Z) : In i (upto n) <-> 0 <= i < n.
Proof.
  unfold upto. rewrite in_map_iff. split.
  - intros (k & <- & Hk). apply in_seq in Hk. lia.
  - intros H. exists (Z.to_nat i). split; [lia|]. apply in_seq. lia.
Qed.

(** Every chunk number that [GetMissingChunkNumbersForFile] reports is a
    number below the chunk count of the file for which no chunk is stored;
    the numbers come in strictly ascending order, and the call leaves the
    storage as it was. *)
Theorem GetMissingChunkNumbersForFile_sound (s s' : Storage) (u f : Z) (mia : list Z) :
  GetMissingChunkNumbersForFile s u f = (s', Ok mia) ->
  s' = s /\
  ascending mia /\
  exists fi,
    getFileInfo f (db s) = Some fi /\
    forall i, In i mia ->
      0 <= i < fi_ChunkCount fi /\ GetFileChunk s f i = Err SqlErrNoRows.
Proof.
  intros E. apply GetMissingChunkNumbersForFile_computes in E.
  destruct E as (-> & fi & Hfi & ->).
  split; [reflexivity|]. split.
  - apply (ascending_filter_from _ (Z.to_nat (fi_ChunkCount fi)) 0).
  - exists fi. split; [exact Hfi|]. intros i Hi.
    apply filter_In in Hi. destruct Hi as [Hin Hall].
    split; [now apply In_upto|].
    unfold GetFileChunk, getFileChunk. rewrite find_chunk_at_in_rows.
    destruct (find (chunk_at f i) (chunk_rows (db s) f)) as [row|] eqn:Hf;
      [|reflexivity].
    exfalso. apply find_some in Hf. destruct Hf as [Hrow Hat].
    unfold chunk_at in Hat. apply andb_prop in Hat. destruct Hat as [_ Hnum].
    apply Z.eqb_eq in Hnum.
    rewrite forallb_forall in Hall.
    specialize (Hall (fc_ChunkNumber row) (in_map fc_ChunkNumber _ _ Hrow)).
    apply Z.ltb_lt in Hall. lia.
Qed.

Lemma GetMissingChunkNumbersForFile_sound_witness :
  GetMissingChunkNumbersForFile store0 1 1 = (store0, Ok [0; 1; 2]) /\
  ascending [0; 1; 2] /\
  GetFileChunk store0 1 2 = Err SqlErrNoRows.
Proof.
  destruct (GetMissingChunkNumbersForFile_sound store0 store0 1 1 [0; 1; 2] eq_refl)
    as (_ & A & fi & _ & H).
  split; [reflexivity|]. split; [exact A|].
  apply (H 2). simpl. auto.
Defined.

Lemma filter_missing_no_known (l : list Z) :
  filter (fun i => SearchInts (sort_Ints []) i >=? Z.of_nat (length (sort_Ints []))) l = l.
Proof.
  induction l as [|i l IH]; [reflexivity|]. cbn [filter].
  change (SearchInts (sort_Ints []) i >=? Z.of_nat (length (sort_Ints []))) with true.
  cbn iota. now f_equal.
Qed.

(** For a file of the caller that has no chunk row, every chunk number
    below the chunk count is reported. *)
Theorem GetMissingChunkNumbersForFile_all_missing (s : Storage) (u f : Z) (fi : FileInfo) :
  getFileInfo f (db s) = Some fi ->
  fi_UserID fi = u ->
  chunk_rows (db s) f = [] ->
  GetMissingChunkNumbersForFile s u f = (s, Ok (upto (fi_ChunkCount fi))).
Proof.
  intros Hfi Hu Hrows.
  unfold GetMissingChunkNumbersForFile. tx_unfold.
  unfold getFileInfoOwner. unfold getFileInfo in Hfi. rewrite Hfi. simpl.
  rewrite Hu, Z.eqb_refl. simpl. unfold getFileInfo. rewrite Hfi. simpl.
  rewrite with_db_same. do 2 f_equal.
  unfold getAllFileChunksByID. fold (chunk_rows (db s) f). rewrite Hrows.
  exact (filter_missing_no_known _).
Qed.

Lemma GetMissingChunkNumbersForFile_all_missing_witness :
  GetMissingChunkNumbersForFile store0 1 1 = (store0, Ok (upto 3)).
Proof.
  exact (GetMissingChunkNumbersForFile_all_missing store0 1 1
           (mkFileInfo 1 1 "a.txt" 10 3 "H") eq_refl eq_refl eq_refl).
Defined.

(** *** Runs of chunk operations *)

Lemma apply_op_revision (s s' : Storage) (o : chunk_op) (v a r : Z) :
  apply_op s o = Some s' ->
  getUserInfo v (db s) = Some (a, r) ->
  exists a',
    getUserInfo v (db s') = Some (a', r + (if op_user o =? v then 1 else 0)).
Proof.
  intros Hop Hi. destruct o as [u f n h c|u f n]; simpl in *.
  - destruct (AddFileChunk s u f n h c) as [s1 [x|e]] eqn:E; [|discriminate].
    inversion Hop; subst s1.
    apply AddFileChunk_Ok_inv in E. destruct E as (_ & _ & _ & ->).
    destruct (Z.eqb_spec u v) as [->|Hne].
    + eexists.
      apply (getUserInfo_update_same _ v (fst (addFileChunk f n h c (db s))) a r Hi).
    + exists a. rewrite Z.add_0_r.
      change (getUserInfo v (fst (updateUserInfo (Z.of_nat (length c)) u
                                    (fst (addFileChunk f n h c (db s))))) = Some (a, r)).
      rewrite getUserInfo_update_other; [exact Hi | congruence].
  - destruct (RemoveFileChunk s u f n) as [s1 [[|] e]] eqn:E; [|discriminate].
    inversion Hop; subst s1.
    apply RemoveFileChunk_true_inv in E. destruct E as (_ & _ & h & c & _ & _ & ->).
    destruct (Z.eqb_spec u v) as [->|Hne].
    + eexists.
      apply (getUserInfo_update_same _ v (fst (removeFileChunk f n (db s))) a r Hi).
    + exists a. rewrite Z.add_0_r.
      change (getUserInfo v (fst (updateUserInfo (- Z.of_nat (length c)) u
                                    (fst (removeFileChunk f n (db s))))) = Some (a, r)).
      rewrite getUserInfo_update_other; [exact Hi | congruence].
Qed.

(** The change an operation asks for is the change it makes. *)
Lemma apply_op_allocated (s s' : Storage) (o : chunk_op) (a r : Z) :
  apply_op s o = Some s' ->
  getUserInfo (op_user o) (db s) = Some (a, r) ->
  getUserInfo (op_user o) (db s') = Some (a + op_delta s o, r + 1).
Proof.
  intros Hop Hi. destruct o as [u f n h c|u f n]; simpl in *.
  - destruct (AddFileChunk s u f n h c) as [s1 [x|e]] eqn:E; [|discriminate].
    inversion Hop; subst s1.
    apply AddFileChunk_Ok_inv in E. destruct E as (_ & _ & _ & ->).
    apply (getUserInfo_update_same _ u (fst (addFileChunk f n h c (db s))) a r Hi).
  - destruct (RemoveFileChunk s u f n) as [s1 [[|] e]] eqn:E; [|discriminate].
    inversion Hop; subst s1.
    apply RemoveFileChunk_true_inv in E. destruct E as (_ & _ & h & c & Hc & _ & ->).
    rewrite Hc.
    apply (getUserInfo_update_same _ u (fst (removeFileChunk f n (db s))) a r Hi).
Qed.

(** Along a run of successful chunk operations in which every put stores a
    chunk that is not empty and every update of a [UserInfo] row stays
    within the 64-bit integers, the [revision] of a user advances by
    exactly the number of operations the user made, and stays a 64-bit
    integer, as [allocated] does: every committed put or removal counts
    once, and the operations of other users not at all. *)
Theorem run_ops_revision (ops : list chunk_op) (s s' : Storage) (v a r : Z) :
  run_ops s ops = Some s' ->
  run_in_int64 s ops ->
  getUserInfo v (db s) = Some (a, r) ->
  int64_range a ->
  int64_range r ->
  exists a',
    getUserInfo v (db s') = Some (a', r + ops_by v ops) /\
    int64_range a' /\
    int64_range (r + ops_by v ops).
Proof.
  revert s a r. induction ops as [|o ops IH]; intros s a r Hrun Hin Hi Ra Rr.
  - simpl in Hrun. inversion Hrun; subst. exists a.
    unfold ops_by. simpl. rewrite Z.add_0_r. auto.
  - simpl in Hrun. destruct Hin as (_ & Hupd & Hin).
    destruct (apply_op s o) as [s1|] eqn:Hop; [|discriminate].
    destruct (apply_op_revision s s1 o v a r Hop Hi) as [a1 Hi1].
    assert (R1 : int64_range a1 /\
                 int64_range (r + (if op_user o =? v then 1 else 0))).
    { destruct (Z.eqb_spec (op_user o) v) as [Hv|Hv].
      - rewrite <- Hv in Hi. destruct (Hupd a r Hi) as (_ & _ & Ra1 & Rr1).
        pose proof (apply_op_allocated s s1 o a r Hop Hi) as Hi1'.
        rewrite Hv in Hi1'. rewrite Hi1' in Hi1. inversion Hi1; subst a1. auto.
      - rewrite Z.add_0_r. split; [|exact Rr].
        destruct o as [u f n h c|u f n]; simpl in Hop, Hv.
        + destruct (AddFileChunk s u f n h c) as [s2 [x|e]] eqn:E; [|discriminate].
          inversion Hop; subst s2.
          apply AddFileChunk_Ok_inv in E. destruct E as (_ & _ & _ & ->).
          change (getUserInfo v (fst (updateUserInfo (Z.of_nat (length c)) u
                                       (fst (addFileChunk f n h c (db s)))))
                  = Some (a1, r + 0)) in Hi1.
          rewrite getUserInfo_update_other in Hi1 by congruence.
          change (getUserInfo v (db s) = Some (a1, r + 0)) in Hi1.
          rewrite Hi in Hi1. inversion Hi1; subst a1. exact Ra.
        + destruct (RemoveFileChunk s u f n) as [s2 [[|] e]] eqn:E; [|discriminate].
          inversion Hop; subst s2.
          apply RemoveFileChunk_true_inv in E.
          destruct E as (_ & _ & h & c & _ & _ & ->).
          change (getUserInfo v (fst (updateUserInfo (- Z.of_nat (length c)) u
                                       (fst (removeFileChunk f n (db s)))))
                  = Some (a1, r + 0)) in Hi1.
          rewrite getUserInfo_update_other in Hi1 by congruence.
          change (getUserInfo v (db s) = Some (a1, r + 0)) in Hi1.
          rewrite Hi in Hi1. inversion Hi1; subst a1. exact Ra. }
    destruct R1 as [Ra1 Rr1].
    destruct (IH s1 a1 _ Hrun Hin Hi1 Ra1 Rr1) as (a' & Hi' & Ra' & Rr').
    assert (Heq : r + (if op_user o =? v then 1 else 0) + ops_by v ops
                  = r + ops_by v (o :: ops)).
    { unfold ops_by. simpl. destruct (op_user o =? v); simpl length; lia. }
    exists a'. rewrite <- Heq. auto.
Qed.

Lemma run_ops_revision_witness :
  run_in_int64 store0 [OpAdd 1 1 0 "h0" abc; OpRemove 1 1 0] /\
  exists a',
    getUserInfo 1 (db (fst (RemoveFileChunk (fst (AddFileChunk store0 1 1 0 "h0" abc)) 1 1 0)))
    = Some (a', 0 + 2) /\
    int64_range a'.
Proof.
  assert (Hin : run_in_int64 store0 [OpAdd 1 1 0 "h0" abc; OpRemove 1 1 0]).
  { cbn [run_in_int64 op_chunk_nonempty].
    split; [discriminate|]. split.
    { intros a r H. vm_compute in H. inversion H; subst.
      unfold update_in_int64, int64_range, min_int64, max_int64. simpl. lia. }
    change (apply_op store0 (OpAdd 1 1 0 "h0" abc))
      with (Some (fst (AddFileChunk store0 1 1 0 "h0" abc))).
    cbn [run_in_int64 op_chunk_nonempty].
    split; [exact I|]. split; [|].
    { intros a r H. vm_compute in H. inversion H; subst.
      unfold update_in_int64, int64_range, min_int64, max_int64. simpl. lia. }
    change (apply_op (fst (AddFileChunk store0 1 1 0 "h0" abc)) (OpRemove 1 1 0))
      with (Some (fst (RemoveFileChunk (fst (AddFileChunk store0 1 1 0 "h0" abc)) 1 1 0))).
    exact I. }
  split; [exact Hin|].
  destruct (run_ops_revision [OpAdd 1 1 0 "h0" abc; OpRemove 1 1 0] store0
              (fst (RemoveFileChunk (fst (AddFileChunk store0 1 1 0 "h0" abc)) 1 1 0))
              1 0 0 eq_refl Hin eq_refl) as (a' & A & B & _).
  - unfold int64_range, min_int64, max_int64. lia.
  - unfold int64_range, min_int64, max_int64. lia.
  - exists a'. split; [exact A | exact B].
Defined.

(** Along a run of successful chunk operations no stored chunk grows
    beyond the chunk size, and the chunk size stays what it was. *)
Theorem run_ops_chunks_within_size (ops : list chunk_op) (s s' : Storage) :
  chunks_within_size s ->
  run_ops s ops = Some s' ->
  chunks_within_size s' /\ ChunkSize s' = ChunkSize s.
Proof.
  revert s. induction ops as [|o ops IH]; intros s Hs Hrun.
  - simpl in Hrun. inversion Hrun; subst. auto.
  - simpl in Hrun. destruct (apply_op s o) as [s1|] eqn:Hop; [|discriminate].
    assert (H1 : chunks_within_size s1 /\ ChunkSize s1 = ChunkSize s).
    { destruct o as [u f n h c|u f n]; simpl in Hop.
      - destruct (AddFileChunk s u f n h c) as [s2 [x|e]] eqn:E; [|discriminate].
        inversion Hop; subst s2.
        apply AddFileChunk_Ok_inv in E. destruct E as (Hsize & _ & _ & ->).
        split; [|reflexivity].
        intros row Hin. simpl in Hin. apply in_app_iff in Hin.
        destruct Hin as [Hin|[<-|[]]].
        + apply filter_In in Hin. apply Hs. tauto.
        + exact Hsize.
      - destruct (RemoveFileChunk s u f n) as [s2 [[|] e]] eqn:E; [|discriminate].
        inversion Hop; subst s2.
        apply RemoveFileChunk_true_inv in E. destruct E as (_ & _ & h & c & _ & _ & ->).
        split; [|reflexivity].
        intros row Hin. simpl in Hin. apply filter_In in Hin. apply Hs. tauto. }
    destruct H1 as [Hs1 Hcs1].
    destruct (IH s1 Hs1 Hrun) as [A B]. split; [exact A | congruence].
Qed.

Lemma run_ops_chunks_within_size_witness :
  chunks_within_size (fst (AddFileChunk store0 1 1 0 "h0" abc)).
Proof.
  refine (proj1 (run_ops_chunks_within_size [OpAdd 1 1 0 "h0" abc] store0
                   (fst (AddFileChunk store0 1 1 0 "h0" abc)) _ eq_refl)).
  intros r [].
Defined.

(** *** Registering files *)

Lemma find_unique_key {R} (key : R -> Z) (l : list R) (r : R) :
  NoDup (map key l) -> In r l -> find (fun x => key x =? key r) l = Some r.
Proof.
  induction l as [|x l IH]; simpl; intros Hnd Hin; [contradiction|].
  inversion Hnd as [|? ? Hnotin Hnd']; subst.
  destruct Hin as [->|Hin]; [now rewrite Z.eqb_refl|].
  destruct (Z.eqb_spec (key x) (key r)) as [E|E].
  - exfalso. apply Hnotin. rewrite E. now apply in_map.
  - now apply IH.
Qed.

Lemma find_fresh_key {R} (key : R -> Z) (l : list R) (k : Z) :
  (forall r, In r l -> key r <> k) -> find (fun x => key x =? k) l = None.
Proof.
  induction l as [|x l IH]; simpl; intros H; [reflexivity|].
  destruct (Z.eqb_spec (key x) k) as [E|E].
  - exfalso. now apply (H x (or_introl eq_refl)).
  - apply IH. intros r Hr. apply H. now right.
Qed.

Lemma next_FileID_fresh (d : DB) : getFileInfo (next_FileID (FileInfoT d)) d = None.
Proof.
  unfold getFileInfo. apply find_fresh_key.
  intros r Hr. pose proof (next_FileID_above _ _ Hr). lia.
Qed.

(** [AddFileInfo] refuses a second file of the same name for the same
    user, and leaves the storage as it was. *)
Theorem AddFileInfo_duplicate (s : Storage) (u : Z) (name : string) (lm cc : Z)
    (fh : string) (fi0 : FileInfo) :
  In fi0 (FileInfoT (db s)) ->
  fi_UserID fi0 = u ->
  fi_FileName fi0 = name ->
  AddFileInfo s u name lm cc fh = (s, Err FileInfoInsertFailed).
Proof.
  intros Hin Hu Hn. unfold AddFileInfo, addFileInfo.
  assert (Hex : existsb (fun r => (fi_UserID r =? u) && String.eqb (fi_FileName r) name)
                        (FileInfoT (db s)) = true).
  { apply existsb_exists. exists fi0. split; [exact Hin|].
    rewrite Hu, Hn, Z.eqb_refl, String.eqb_refl. reflexivity. }
  rewrite Hex. simpl. now rewrite with_db_same.
Qed.

Lemma AddFileInfo_duplicate_witness :
  AddFileInfo store0 1 "a.txt" 20 5 "H2" = (store0, Err FileInfoInsertFailed).
Proof.
  refine (AddFileInfo_duplicate store0 1 "a.txt" 20 5 "H2"
            (mkFileInfo 1 1 "a.txt" 10 3 "H") _ eq_refl eq_refl).
  simpl. auto.
Defined.

(** In a reachable state, a file registered by [AddFileInfo] gets an id no
    file had, can be read back by its owner with [GetFileInfo], is reported
    with every chunk missing, and the files registered before are read as
    before. *)
Theorem AddFileInfo_then_GetFileInfo (s s' : Storage) (u : Z) (name : string)
    (lm cc : Z) (fh : string) (fi : FileInfo) :
  reachable s ->
  AddFileInfo s u name lm cc fh = (s', Ok fi) ->
  fi = mkFileInfo u (fi_FileID fi) name lm cc fh /\
  getFileInfo (fi_FileID fi) (db s) = None /\
  GetFileInfo s' u (fi_FileID fi) = (s', Ok fi) /\
  GetMissingChunkNumbersForFile s' u (fi_FileID fi) = (s', Ok (upto cc)) /\
  (forall f fi', getFileInfo f (db s) = Some fi' -> getFileInfo f (db s') = Some fi').
Proof.
  intros Hreach E.
  destruct (reachable_invariant s Hreach) as [_ Hacc].
  unfold AddFileInfo, addFileInfo in E.
  destruct (existsb _ (FileInfoT (db s))); simpl in E; [discriminate|].
  inversion E; subst s' fi. clear E. simpl fi_FileID.
  set (id := next_FileID (FileInfoT (db s))).
  set (new := mkFileInfo u id name lm cc fh).
  assert (Hfresh : getFileInfo id (db s) = None) by apply next_FileID_fresh.
  assert (Hget : find (fun r => fi_FileID r =? id) (FileInfoT (db s) ++ [new]) = Some new).
  { rewrite find_app_None; [|exact Hfresh]. simpl. subst new. simpl.
    now rewrite Z.eqb_refl. }
  assert (Hrows : chunk_rows (db s) id = []).
  { unfold chunk_rows.
    destruct (filter (fun r => fc_FileID r =? id) (FileChunks (db s))) as [|row l] eqn:Hf;
      [reflexivity|].
    exfalso.
    assert (Hin : In row (filter (fun r => fc_FileID r =? id) (FileChunks (db s))))
      by (rewrite Hf; now left).
    apply filter_In in Hin. destruct Hin as [Hin Hid]. apply Z.eqb_eq in Hid.
    destruct (Hacc row Hin) as (o & Ho & _).
    unfold getFileInfoOwner in Ho. rewrite Hid in Ho.
    unfold getFileInfo in Hfresh. rewrite Hfresh in Ho. discriminate. }
  split; [reflexivity|]. split; [exact Hfresh|]. split; [|split].
  - unfold GetFileInfo. tx_unfold. unfold getFileInfoOwner, getFileInfo. simpl.
    rewrite Hget. simpl. rewrite Z.eqb_refl. simpl. rewrite Hget. reflexivity.
  - unfold GetMissingChunkNumbersForFile. tx_unfold.
    unfold getFileInfoOwner, getFileInfo. simpl FileInfoT.
    rewrite Hget. simpl. rewrite Z.eqb_refl. simpl. rewrite Hget. simpl.
    do 2 f_equal.
    unfold getAllFileChunksByID. simpl FileChunks.
    fold (chunk_rows (db s) id). rewrite Hrows.
    exact (filter_missing_no_known _).
  - intros f fi' Hf. unfold getFileInfo in *. simpl.
    now apply find_app_Some.
Qed.

Lemma AddFileInfo_then_GetFileInfo_witness :
  let s' := fst (AddFileInfo store0 1 "b.txt" 20 2 "H2") in
  GetFileInfo s' 1 2 = (s', Ok (mkFileInfo 1 2 "b.txt" 20 2 "H2")) /\
  GetMissingChunkNumbersForFile s' 1 2 = (s', Ok (upto 2)).
Proof.
  intros s'.
  destruct (AddFileInfo_then_GetFileInfo store0 s' 1 "b.txt" 20 2 "H2"
              (mkFileInfo 1 2 "b.txt" 20 2 "H2") reachable_store0 eq_refl)
    as (_ & _ & A & B & _).
  split; [exact A | exact B].
Defined.

(** *** Invariants of the data model *)

Lemma FileInfoT_AddFileChunk (s : Storage) (u f n : Z) (h : string) (c : list byte) :
  FileInfoT (db (fst (AddFileChunk s u f n h c))) = FileInfoT (db s).
Proof.
  destruct (AddFileChunk s u f n h c) as [s' [x|e]] eqn:E; simpl.
  - apply AddFileChunk_Ok_inv in E. destruct E as (_ & _ & _ & ->). reflexivity.
  - apply AddFileChunk_Err_unchanged in E. now subst.
Qed.

Lemma FileInfoT_RemoveFileChunk (s : Storage) (u f n : Z) :
  FileInfoT (db (fst (RemoveFileChunk s u f n))) = FileInfoT (db s).
Proof.
  destruct (RemoveFileChunk s u f n) as [s' [[|] e]] eqn:E; simpl.
  - apply RemoveFileChunk_true_inv in E. destruct E as (_ & _ & h & c & _ & _ & ->).
    reflexivity.
  - apply RemoveFileChunk_false_unchanged in E. now subst.
Qed.

Lemma names_unique_addFileInfo (u : Z) (name : string) (lm cc : Z) (fh : string) (d : DB) :
  names_unique d -> names_unique (fst (addFileInfo u name lm cc fh d)).
Proof.
  unfold names_unique, addFileInfo. intros Hnd.
  destruct (existsb _ (FileInfoT d)) eqn:Hex; simpl; [exact Hnd|].
  rewrite map_app. simpl.
  apply NoDup_app; [exact Hnd | repeat constructor; intros [] |].
  intros k Hin [Hk|[]]. subst k.
  apply in_map_iff in Hin. destruct Hin as (x & Hx & Hin).
  inversion Hx; subst.
  assert (Htrue : existsb (fun r => (fi_UserID r =? fi_UserID x)
                                    && String.eqb (fi_FileName r) (fi_FileName x))
                          (FileInfoT d) = true).
  { apply existsb_exists. exists x. split; [exact Hin|].
    now rewrite Z.eqb_refl, String.eqb_refl. }
  rewrite Htrue in Hex. discriminate.
Qed.

(** In every state the storage verbs can reach: the key of every table is
    unique, no user has two files of the same name, every chunk row belongs
    to a registered file, and the owner of that file has a [UserInfo] row. *)
Theorem reachable_data_model (s : Storage) :
  reachable s ->
  keys_unique (db s) /\
  names_unique (db s) /\
  chunks_have_files (db s) /\
  chunks_accounted_to_users (db s).
Proof.
  intros Hreach.
  destruct (reachable_invariant s Hreach) as [HK Hacc].
  split; [exact HK|]. split; [|split; [|exact Hacc]].
  - clear HK Hacc.
    induction Hreach as [cs | s cs _ IH | s u q _ IH | s u a r _ IH | s u delta _ IH
                        | s u name lm cc fh _ IH | s u f n h c _ IH | s u f n _ IH].
    + constructor.
    + exact IH.
    + exact IH.
    + exact IH.
    + unfold UpdateUserInfo. unfold names_unique in *.
      destruct (updateUserInfo delta u (db s)) as [d' aff] eqn:E.
      assert (Hd : FileInfoT d' = FileInfoT (db s))
        by (unfold updateUserInfo in E; inversion E; reflexivity).
      destruct (negb (aff =? 1)); simpl; rewrite Hd; exact IH.
    + unfold AddFileInfo.
      pose proof (names_unique_addFileInfo u name lm cc fh (db s) IH) as H.
      destruct (addFileInfo u name lm cc fh (db s)) as [d' aff].
      destruct (negb (aff =? 1)); exact H.
    + unfold names_unique. rewrite FileInfoT_AddFileChunk. exact IH.
    + unfold names_unique. rewrite FileInfoT_RemoveFileChunk. exact IH.
  - intros row Hin. destruct (Hacc row Hin) as (o & Ho & _).
    unfold getFileInfoOwner in Ho. unfold getFileInfo.
    destruct (find (fun r => fi_FileID r =? fc_FileID row) (FileInfoT (db s)));
      [discriminate | discriminate].
Qed.

Lemma reachable_data_model_witness :
  keys_unique (db store_chunk2) /\ names_unique (db store_chunk2) /\
  chunks_have_files (db store_chunk2) /\ chunks_accounted_to_users (db store_chunk2).
Proof.
  apply (reachable_data_model store_chunk2).
  unfold store_chunk2. constructor. exact reachable_store0.
Defined.

(** *** Listing the files of a user *)

(** In a reachable state [GetAllUserFileInfos] returns exactly the files
    that [GetFileInfo] hands out to the same user, each of them once. *)
Theorem GetAllUserFileInfos_complete (s : Storage) (u : Z) :
  reachable s ->
  exists files,
    GetAllUserFileInfos s u = Ok files /\
    NoDup files /\
    forall fi, In fi files <-> GetFileInfo s u (fi_FileID fi) = (s, Ok fi).
Proof.
  intros Hreach.
  destruct (reachable_invariant s Hreach) as [(_ & _ & K3 & _) _].
  assert (Hrows : forall l,
             map (fun row => let '(fileID, fileName, lastMod, chunkCount, fileHash) := row in
                             mkFileInfo u fileID fileName lastMod chunkCount fileHash)
                 (map (fun r => (fi_FileID r, fi_FileName r, fi_LastMod r,
                                 fi_ChunkCount r, fi_FileHash r))
                      (filter (fun r => fi_UserID r =? u) l))
             = filter (fun r => fi_UserID r =? u) l).
  { induction l as [|x l IH]; simpl; [reflexivity|].
    destruct (Z.eqb_spec (fi_UserID x) u) as [E|E]; simpl; [|exact IH].
    rewrite IH. destruct x; simpl in *. now subst. }
  exists (filter (fun r => fi_UserID r =? u) (FileInfoT (db s))).
  split; [unfold GetAllUserFileInfos, getAllUserFiles; now rewrite Hrows|].
  split; [apply NoDup_filter; eapply NoDup_map_inv; exact K3|].
  intros fi. rewrite filter_In. split.
  - intros [Hin Hu]. apply Z.eqb_eq in Hu.
    pose proof (find_unique_key fi_FileID _ fi K3 Hin) as Hf.
    unfold GetFileInfo. tx_unfold. unfold getFileInfoOwner, getFileInfo.
    rewrite Hf. simpl. rewrite Hu, Z.eqb_refl. simpl. rewrite Hf. simpl.
    rewrite with_db_same. destruct fi; reflexivity.
  - unfold GetFileInfo. tx_unfold. unfold getFileInfoOwner, getFileInfo.
    destruct (find (fun r => fi_FileID r =? fi_FileID fi) (FileInfoT (db s)))
      as [row|] eqn:Hf; simpl; [|discriminate].
    destruct (Z.eqb_spec (fi_UserID row) u) as [Hu|Hu]; simpl; [|discriminate].
    rewrite Hf. simpl. intros H. injection H as _ Hrow.
    apply find_some in Hf. destruct Hf as [Hin Hid]. apply Z.eqb_eq in Hid.
    assert (Heq : row = fi).
    { rewrite <- Hrow, <- Hid. destruct row; reflexivity. }
    subst row. split; [exact Hin | now apply Z.eqb_eq].
Qed.

Lemma GetAllUserFileInfos_complete_witness :
  exists files,
    GetAllUserFileInfos store0 1 = Ok files /\
    (In (mkFileInfo 1 1 "a.txt" 10 3 "H") files <->
     GetFileInfo store0 1 1 = (store0, Ok (mkFileInfo 1 1 "a.txt" 10 3 "H"))).
Proof.
  destruct (GetAllUserFileInfos_complete store0 1 reachable_store0)
    as (files & A & _ & B).
  exists files. split; [exact A|]. exact (B (mkFileInfo 1 1 "a.txt" 10 3 "H")).
Defined.

(** *** Quotas and user information *)

(** [GetUserQuota] returns what [SetUserQuota] stored last for the user;
    the quotas of other users and every [UserInfo] row are untouched. *)
Theorem SetUserQuota_then_GetUserQuota (s : Storage) (u q : Z) :
  GetUserQuota (SetUserQuota s u q) u = Ok q /\
  (forall v, v <> u -> GetUserQuota (SetUserQuota s u q) v = GetUserQuota s v) /\
  (forall v, GetUserInfo (SetUserQuota s u q) v = GetUserInfo s v).
Proof.
  split; [|split].
  - unfold GetUserQuota, getUserQuota, SetUserQuota, setUserQuota. simpl.
    pose proof (find_replace_same perms_UserID (Perms (db s)) (mkPermsRow u q)) as F.
    simpl in F. rewrite F. reflexivity.
  - intros v Hv. unfold GetUserQuota, getUserQuota, SetUserQuota, setUserQuota. simpl.
    pose proof (find_replace_other perms_UserID (Perms (db s)) (mkPermsRow u q) v Hv) as F.
    simpl in F. rewrite F. reflexivity.
  - reflexivity.
Qed.

(** [GetUserInfo] returns what [SetUserInfo] stored last for the user,
    whatever the accounting was before; the rows of other users and every
    quota are untouched. *)
Theorem SetUserInfo_then_GetUserInfo (s : Storage) (u a r : Z) :
  GetUserInfo (SetUserInfo s u a r) u = Ok (a, r) /\
  (forall v, v <> u -> GetUserInfo (SetUserInfo s u a r) v = GetUserInfo s v) /\
  (forall v, GetUserQuota (SetUserInfo s u a r) v = GetUserQuota s v).
Proof.
  split; [|split].
  - unfold GetUserInfo, getUserInfo, SetUserInfo, setUserInfo. simpl.
    pose proof (find_replace_same ui_UserID (UserInfo (db s)) (mkUserInfoRow u a r)) as F.
    simpl in F. rewrite F. reflexivity.
  - intros v Hv. unfold GetUserInfo, getUserInfo, SetUserInfo, setUserInfo. simpl.
    pose proof (find_replace_other ui_UserID (UserInfo (db s)) (mkUserInfoRow u a r) v Hv) as F.
    simpl in F. rewrite F. reflexivity.
  - reflexivity.
Qed.

Lemma map_update_absent (delta u : Z) (l : list UserInfoRow) :
  find (fun r => ui_UserID r =? u) l = None ->
  map (fun r => if ui_UserID r =? u
                then mkUserInfoRow (ui_UserID r) (ui_Allocated r + delta) (ui_Revision r + 1)
                else r) l = l.
Proof.
  induction l as [|x l IH]; simpl; [reflexivity|].
  destruct (ui_UserID x =? u); [discriminate|]. intros H. now rewrite IH.
Qed.

(** [UpdateUserInfo] in a reachable state: for a user with a [UserInfo]
    row, where [allocated], [revision] and their updated values are 64-bit
    integers, it adds the delta to [allocated] and one to [revision], with
    no regard to the quota; for a user without one it fails and changes
    nothing. *)
Theorem UpdateUserInfo_effect (s : Storage) (u delta : Z) :
  reachable s ->
  match getUserInfo u (db s) with
  | Some (a, r) =>
      update_in_int64 a r delta ->
      exists s',
        UpdateUserInfo s u delta = (s', Ok tt) /\
        getUserInfo u (db s') = Some (a + delta, r + 1) /\
        int64_range (a + delta) /\
        int64_range (r + 1) /\
        (forall v, v <> u -> getUserInfo v (db s') = getUserInfo v (db s)) /\
        Perms (db s') = Perms (db s) /\
        FileChunks (db s') = FileChunks (db s)
  | None => UpdateUserInfo s u delta = (s, Err UserInfoUpdateFailed)
  end.
Proof.
  intros Hreach.
  destruct (reachable_invariant s Hreach) as [(_ & K2 & _ & _) _].
  destruct (getUserInfo u (db s)) as [[a r]|] eqn:Hi.
  - intros (_ & _ & Ra & Rr).
    pose proof (updateUserInfo_affected delta u (db s) (a, r) K2 Hi) as Haff.
    exists (with_db s (fst (updateUserInfo delta u (db s)))).
    split; [|split; [|split; [exact Ra|split; [exact Rr|split; [|split]]]]];
      try reflexivity.
    + unfold UpdateUserInfo.
      destruct (updateUserInfo delta u (db s)) as [d' aff]. simpl in *.
      subst aff. reflexivity.
    + apply (getUserInfo_update_same delta u (db s) a r Hi).
    + intros v Hv. apply (getUserInfo_update_other delta u v (db s) Hv).
  - unfold UpdateUserInfo, updateUserInfo, count_rows.
    unfold getUserInfo in Hi.
    destruct (find (fun r => ui_UserID r =? u) (UserInfo (db s))) eqn:Hf; [discriminate|].
    rewrite (find_key_None ui_UserID u _ Hf). simpl.
    rewrite (map_update_absent delta u _ Hf).
    destruct s as [cs d]. destruct d. reflexivity.
Qed.

Lemma UpdateUserInfo_effect_witness :
  update_in_int64 0 0 (-5) /\
  (exists s',
      UpdateUserInfo store0 1 (-5) = (s', Ok tt) /\
      getUserInfo 1 (db s') = Some (0 + -5, 0 + 1)) /\
  UpdateUserInfo store0 2 7 = (store0, Err UserInfoUpdateFailed).
Proof.
  assert (U : update_in_int64 0 0 (-5))
    by (unfold update_in_int64, int64_range, min_int64, max_int64; lia).
  split; [exact U|]. split.
  - pose proof (UpdateUserInfo_effect store0 1 (-5) reachable_store0) as H.
    simpl in H. destruct (H U) as (s' & A & B & _). exists s'. auto.
  - exact (UpdateUserInfo_effect store0 2 7 reachable_store0).
Defined.

(** *** Users *)

Lemma IsUsernameFree_existsb (users : list User) (name : string) :
  IsUsernameFree users name
  = negb (existsb (fun r => String.eqb (user_Name r) name) users).
Proof.
  unfold IsUsernameFree, lookupUserByName. f_equal.
  induction users as [|x l IH]; simpl; [reflexivity|].
  destruct (String.eqb (user_Name x) name) eqn:E; simpl; [now rewrite E | exact IH].
Qed.

Lemma next_UserID_above (l : list User) (r : User) :
  In r l -> user_ID r < next_UserID l.
Proof.
  unfold next_UserID.
  induction l as [|y l IH]; cbn [fold_right In]; intros Hin; [contradiction|].
  destruct Hin as [->|Hin]; [lia|]. specialize (IH Hin). lia.
Qed.

Lemma find_name_absent (users : list User) (name : string) :
  existsb (fun r => String.eqb (user_Name r) name) users = false ->
  find (fun r => String.eqb (user_Name r) name) users = None.
Proof.
  induction users as [|x l IH]; simpl; [reflexivity|].
  destruct (String.eqb (user_Name x) name); simpl; [discriminate | exact IH].
Qed.

(** A user added by [AddUser] gets an id above every id in use and is
    returned by [GetUser] under the new name with the salt and hash given;
    lookups of other names answer as before. *)
Theorem AddUser_then_GetUser (users users' : list User) (name salt : string)
    (hash : list byte) (usr : User) :
  AddUser users name salt hash = (users', inr usr) ->
  usr = mkUser (user_ID usr) name salt hash /\
  (forall r, In r users -> user_ID r < user_ID usr) /\
  GetUser users' name = inr usr /\
  (forall name', name' <> name -> GetUser users' name' = GetUser users name').
Proof.
  unfold AddUser, addUser.
  destruct (existsb (fun r => String.eqb (user_Name r) name) users) eqn:Hex;
    [discriminate|].
  intros H. inversion H; subst users' usr. clear H. simpl user_ID.
  split; [reflexivity|]. split; [intros r Hr; now apply next_UserID_above|].
  split.
  - unfold GetUser, getUser.
    rewrite find_app_None; [|now apply find_name_absent].
    simpl. now rewrite String.eqb_refl.
  - intros name' Hne. unfold GetUser, getUser.
    destruct (find (fun r => String.eqb (user_Name r) name') users) as [r|] eqn:Hf.
    + now rewrite (find_app_Some _ _ _ _ Hf).
    + rewrite (find_app_None _ _ _ Hf). simpl.
      destruct (String.eqb_spec name name'); [congruence | reflexivity].
Qed.

Lemma AddUser_then_GetUser_witness :
  GetUser (fst (AddUser [] "ann" "s" abc)) "ann" = inr (mkUser 1 "ann" "s" abc).
Proof.
  exact (proj1 (proj2 (proj2 (AddUser_then_GetUser [] (fst (AddUser [] "ann" "s" abc))
                                "ann" "s" abc (mkUser 1 "ann" "s" abc) eq_refl)))).
Defined.

(** [IsUsernameFree] tells what [AddUser] will do with a salted hash that
    is not empty: a free name is added, with the salt and hash given, a
    taken name is refused with the table unchanged, and a taken name is one
    that [GetUser] finds. *)
Theorem IsUsernameFree_decides_AddUser (users : list User) (name salt : string)
    (hash : list byte) :
  hash <> [] ->
  if IsUsernameFree users name
  then exists users' usr,
         AddUser users name salt hash = (users', inr usr) /\
         usr = mkUser (user_ID usr) name salt hash /\
         GetUser users' name = inr usr
  else AddUser users name salt hash = (users, inl UserInsertFailed) /\
       exists usr, GetUser users name = inr usr.
Proof.
  intros _.
  rewrite IsUsernameFree_existsb. unfold AddUser, addUser.
  destruct (existsb (fun r => String.eqb (user_Name r) name) users) eqn:Hex; simpl.
  - split; [reflexivity|].
    apply existsb_exists in Hex. destruct Hex as (r & Hin & Hr).
    unfold GetUser, getUser.
    destruct (find (fun r => String.eqb (user_Name r) name) users) as [x|] eqn:Hf.
    + simpl. eauto.
    + exfalso. pose proof (find_none _ _ Hf r Hin) as Hn. simpl in Hn. congruence.
  - eexists. eexists. split; [reflexivity|]. split; [reflexivity|].
    unfold GetUser, getUser.
    rewrite find_app_None; [|now apply find_name_absent].
    simpl. now rewrite String.eqb_refl.
Qed.

Lemma IsUsernameFree_decides_AddUser_witness :
  (exists users' usr,
      AddUser [] "ann" "s" abc = (users', inr usr) /\
      usr = mkUser (user_ID usr) "ann" "s" abc /\
      GetUser users' "ann" = inr usr) /\
  AddUser (fst (AddUser [] "ann" "s" abc)) "ann" "t" abc
  = (fst (AddUser [] "ann" "s" abc), inl UserInsertFailed).
Proof.
  split.
  - refine (IsUsernameFree_decides_AddUser [] "ann" "s" abc _). discriminate.
  - refine (proj1 (IsUsernameFree_decides_AddUser (fst (AddUser [] "ann" "s" abc))
                     "ann" "t" abc _)). discriminate.
Defined.

(** However users were added, no two rows of [Users] share a name or an id. *)
Theorem users_reachable_unique (users : list User) :
  users_reachable users ->
  NoDup (map user_Name users) /\ NoDup (map user_ID users).
Proof.
  induction 1 as [|users name salt hash _ [IHn IHi]]; [split; constructor|].
  unfold AddUser, addUser.
  destruct (existsb (fun r => String.eqb (user_Name r) name) users) eqn:Hex; simpl;
    [split; assumption|].
  rewrite !map_app. simpl. split.
  - apply NoDup_app; [exact IHn | repeat constructor; intros [] |].
    intros k Hin [Hk|[]]. subst k.
    apply in_map_iff in Hin. destruct Hin as (x & Hx & Hin).
    assert (Ht : existsb (fun r => String.eqb (user_Name r) name) users = true).
    { apply existsb_exists. exists x. split; [exact Hin|].
      rewrite Hx. apply String.eqb_refl. }
    congruence.
  - apply NoDup_app; [exact IHi | repeat constructor; intros [] |].
    intros k Hin [Hk|[]]. subst k.
    apply in_map_iff in Hin. destruct Hin as (x & Hx & Hin).
    pose proof (next_UserID_above _ _ Hin). lia.
Qed.

Lemma users_reachable_unique_witness :
  NoDup (map user_Name (fst (AddUser (fst (AddUser [] "ann" "s" abc)) "bob" "t" abc))).
Proof.
  apply (users_reachable_unique
           (fst (AddUser (fst (AddUser [] "ann" "s" abc)) "bob" "t" abc))).
  repeat constructor.
Defined.

(* ================================================================= *)
(** ** Further properties of the sync client                          *)
(* ================================================================= *)

(** *** Trimming *)

Lemma truncate_at_first_zero_prefix (b : list byte) :
  exists rest, b = truncate_at_first_zero b ++ rest.
Proof.
  induction b as [|x b [rest IH]]; simpl; [now exists []|].
  destruct (Byte.eqb x x00); [now exists (x :: b)|].
  exists rest. simpl. now rewrite <- IH.
Qed.

Lemma truncate_at_first_zero_idem (b : list byte) :
  truncate_at_first_zero (truncate_at_first_zero b) = truncate_at_first_zero b.
Proof.
  induction b as [|x b IH]; simpl; [reflexivity|].
  destruct (Byte.eqb x x00) eqn:E; simpl; [reflexivity|]. now rewrite E, IH.
Qed.

Lemma truncate_at_first_zero_no_zero (b : list byte) :
  ~ In x00 b -> truncate_at_first_zero b = b.
Proof.
  induction b as [|x b IH]; simpl; intros H; [reflexivity|].
  destruct (Byte.eqb x x00) eqn:E.
  - apply Byte.byte_dec_bl in E. exfalso. apply H. now left.
  - rewrite IH; [reflexivity|]. intros Hin. apply H. now right.
Qed.

(** What [syncDownload] writes for a chunk is a prefix of the chunk, is
    empty only for the empty chunk, is the whole chunk when the chunk holds
    no zero byte, and is not changed by trimming it again. *)
Theorem trimEOF_prefix (chunk : list byte) :
  (exists rest, chunk = trimEOF chunk ++ rest) /\
  (trimEOF chunk = [] -> chunk = []) /\
  (~ In x00 chunk -> trimEOF chunk = chunk) /\
  trimEOF (trimEOF chunk) = trimEOF chunk.
Proof.
  destruct chunk as [|x b].
  { split; [exists []; reflexivity|]. split; [reflexivity|]. split; reflexivity. }
  destruct (Byte.eqb x x00) eqn:E.
  - apply Byte.byte_dec_bl in E. subst x. rewrite !trimEOF_leading_zero.
    split; [exists []; now rewrite app_nil_r|]. split; [discriminate|]. split; reflexivity.
  - apply Byte.eqb_false in E. rewrite (trimEOF_truncates x b E).
    split; [apply truncate_at_first_zero_prefix|].
    assert (Hhead : truncate_at_first_zero (x :: b) = x :: truncate_at_first_zero b).
    { simpl. destruct (Byte.eqb x x00) eqn:E'; [|reflexivity].
      apply Byte.byte_dec_bl in E'. contradiction. }
    split; [rewrite Hhead; discriminate|].
    split; [apply truncate_at_first_zero_no_zero|].
    rewrite Hhead at 1. rewrite (trimEOF_truncates x _ E), <- Hhead.
    apply truncate_at_first_zero_idem.
Qed.

Section MoreClientFacts.

Variable E : Env.

(** *** Downloading *)

Lemma get_indices_cons_request (i rid : Z) (evs : list event) :
  get_indices (EvRequest (GetChunk rid i) :: evs) = i :: get_indices evs.
Proof. reflexivity. Qed.

Lemma syncDownload_from_trace (remoteID : Z) (filename : string) (n : nat) :
  forall (i cw : Z) (w w' : World E) (evs : list event) (cnt : Z)
         (err : option cerror),
    syncDownload_from E remoteID filename n i cw w = (w', evs, (cnt, err)) ->
    exists k : nat,
      get_indices evs = range i k /\
      (k <= n)%nat /\
      cnt - cw <= Z.of_nat (length (written evs)) <= cnt - cw + 1 /\
      (length (written evs) <= k)%nat /\
      put_indices evs = [] /\
      (err = None ->
       k = n /\ cnt = cw + Z.of_nat n /\ length (written evs) = n).
Proof.
  induction n as [|n IH]; intros i cw w w' evs cnt err H.
  - cbn in H. inversion H; subst. exists 0%nat. cbn.
    repeat split; try reflexivity; lia.
  - cbn [syncDownload_from] in H. unfold bind, doRequest in H.
    destruct (runAuthRequest E (GetChunk remoteID i) w) as [w1 [resp ok]].
    destruct ok; cbn [negb] in H.
    + destruct (unmarshalFileChunkGet E resp) as [chunkResp|].
      * unfold doWrite in H.
        destruct (fileWrite E filename (trimEOF (fc_Chunk chunkResp)) w1) as [w2 wrote].
        destruct wrote; cbn [negb] in H.
        -- destruct (syncDownload_from E remoteID filename n (i + 1) (cw + 1) w2)
             as [[w3 evs3] [cnt3 err3]] eqn:Hrec.
           inversion H; subst.
           destruct (IH _ _ _ _ _ _ _ Hrec) as (k & Hget & Hk & Hcnt & Hw & Hput & Hnone).
           exists (S k). rewrite range_S.
           unfold get_indices, written, put_indices in *. cbn [app flat_map length].
           split; [f_equal; exact Hget|].
           split; [lia|]. split; [lia|]. split; [lia|]. split; [exact Hput|].
           intros Hn. destruct (Hnone Hn) as (-> & -> & ->). repeat split; lia.
        -- cbn in H. inversion H; subst. exists 1%nat. rewrite range_S. cbn.
           split; [reflexivity|]. split; [lia|]. split; [lia|]. split; [lia|].
           split; [reflexivity | discriminate].
      * cbn in H. inversion H; subst. exists 1%nat. rewrite range_S. cbn.
        split; [reflexivity|]. split; [lia|]. split; [lia|]. split; [lia|].
        split; [reflexivity | discriminate].
    + cbn in H. inversion H; subst. exists 1%nat. rewrite range_S. cbn.
      split; [reflexivity|]. split; [lia|]. split; [lia|]. split; [lia|].
      split; [reflexivity | discriminate].
Qed.

(** Where the download loop stops with an error: at the chunk whose
    number is the number of chunks written so far, which the server did
    not give or which could not be written. *)
Lemma syncDownload_from_stop (remoteID : Z) (filename : string) (n : nat) :
  forall (i cw : Z) (w w' : World E) (evs : list event) (cnt : Z) (e : cerror),
    syncDownload_from E remoteID filename n i cw w = (w', evs, (cnt, Some e)) ->
    0 <= cnt - cw < Z.of_nat n /\
    get_indices evs = range i (S (Z.to_nat (cnt - cw))) /\
    ((e = EGetChunk /\
      length (written evs) = Z.to_nat (cnt - cw) /\
      exists wj : World E,
        get_answer E remoteID (i + (cnt - cw)) wj = None /\
        fst (runAuthRequest E (GetChunk remoteID (i + (cnt - cw))) wj) = w')
     \/
     (e = EWriteLocal /\
      length (written evs) = S (Z.to_nat (cnt - cw)) /\
      exists (wj : World E) (c : FileChunk),
        get_answer E remoteID (i + (cnt - cw)) wj = Some c /\
        fileWrite E filename (trimEOF (fc_Chunk c))
                  (fst (runAuthRequest E (GetChunk remoteID (i + (cnt - cw))) wj))
        = (w', false))).
Proof.
  induction n as [|n IH]; intros i cw w w' evs cnt e H.
  - cbn in H. inversion H.
  - cbn [syncDownload_from] in H. unfold bind, doRequest in H.
    destruct (runAuthRequest E (GetChunk remoteID i) w) as [w1 [resp ok]] eqn:Hget.
    destruct ok; cbn [negb] in H.
    + destruct (unmarshalFileChunkGet E resp) as [chunkResp|] eqn:Hjson.
      * unfold doWrite in H.
        destruct (fileWrite E filename (trimEOF (fc_Chunk chunkResp)) w1)
          as [w2 wrote] eqn:Hwrite.
        destruct wrote; cbn [negb] in H.
        -- destruct (syncDownload_from E remoteID filename n (i + 1) (cw + 1) w2)
             as [[w3 evs3] [cnt3 err3]] eqn:Hrec.
           inversion H; subst.
           destruct (IH _ _ _ _ _ _ _ Hrec) as (Hk & Hidx & Hcase).
           replace (i + 1 + (cnt - (cw + 1))) with (i + (cnt - cw)) in Hcase by lia.
           assert (HS : S (Z.to_nat (cnt - (cw + 1))) = Z.to_nat (cnt - cw)) by lia.
           split; [lia|]. split.
           { rewrite range_S. unfold get_indices in *. cbn [app flat_map].
             f_equal. rewrite <- HS. exact Hidx. }
           unfold written in *. cbn [app flat_map length].
           destruct Hcase as [(He & Hlen & wj & Ha & Hw) | (He & Hlen & wj & c & Ha & Hw)].
           ++ left. split; [exact He|]. split; [lia|]. exists wj. auto.
           ++ right. split; [exact He|]. split; [lia|]. exists wj, c. auto.
        -- cbn in H. inversion H; subst.
           replace (cnt - cnt) with 0 by lia. rewrite Z.add_0_r.
           split; [lia|]. split; [rewrite range_S; reflexivity|].
           right. split; [reflexivity|]. split; [reflexivity|].
           exists w, chunkResp. unfold get_answer. rewrite Hget, Hjson.
           split; [reflexivity | exact Hwrite].
      * cbn in H. inversion H; subst.
        replace (cnt - cnt) with 0 by lia. rewrite Z.add_0_r.
        split; [lia|]. split; [rewrite range_S; reflexivity|].
        left. split; [reflexivity|]. split; [reflexivity|].
        exists w. unfold get_answer. rewrite Hget, Hjson. split; reflexivity.
    + cbn in H. inversion H; subst.
      replace (cnt - cnt) with 0 by lia. rewrite Z.add_0_r.
      split; [lia|]. split; [rewrite range_S; reflexivity|].
      left. split; [reflexivity|]. split; [reflexivity|].
      exists w. unfold get_answer. rewrite Hget. split; reflexivity.
Qed.

(** [syncDownload] opens the local file for writing first, then asks for
    the chunks 0, 1, 2, ... in ascending order and stops at the first
    chunk it cannot get or write; it writes one chunk per answer, counts
    the writes that went through, and uploads nothing.  When it ends
    without error it has asked for and written every chunk below
    [chunkCount], and the count is [chunkCount].  When it ends with an
    error, either the file could not be opened and nothing else was done,
    or the count [cnt] is below [chunkCount] and chunk [cnt] is where it
    stopped: the server did not give it, or the write of it failed.  Where
    the file can be opened and written and the server gives every chunk,
    it ends without error. *)
Theorem syncDownload_in_order (remoteID : Z) (filename remoteFilepath : string)
    (chunkCount : Z) (w w' : World E) (evs : list event) (cnt : Z)
    (err : option cerror) :
  syncDownload E remoteID filename remoteFilepath chunkCount w = (w', evs, (cnt, err)) ->
  (exists k : nat,
      get_indices evs = range 0 k /\
      (length (written evs) <= k <= Z.to_nat chunkCount)%nat) /\
  cnt <= Z.of_nat (length (written evs)) <= cnt + 1 /\
  put_indices evs = [] /\
  (exists evs', evs = EvOpenTrunc filename :: evs') /\
  (err = None ->
   snd (openTrunc E filename w) = true /\
   get_indices evs = upto chunkCount /\
   cnt = Z.of_nat (Z.to_nat chunkCount) /\
   length (written evs) = Z.to_nat chunkCount) /\
  (forall e, err = Some e ->
     (e = EOpenLocal /\ openTrunc E filename w = (w', false) /\
      evs = [EvOpenTrunc filename] /\ cnt = 0)
     \/
     (snd (openTrunc E filename w) = true /\
      download_stopped E remoteID filename chunkCount w' evs cnt e)) /\
  (downloads_never_fail E remoteID filename chunkCount -> err = None).
Proof.
  unfold syncDownload, bind, doOpenTrunc. intros H.
  destruct (openTrunc E filename w) as [w1 opened] eqn:Hopen.
  destruct opened; cbn [negb] in H.
  - destruct (syncDownload_from E remoteID filename (Z.to_nat chunkCount) 0 0 w1)
      as [[w2 evs2] [cnt2 err2]] eqn:Hloop.
    inversion H; subst.
    destruct (syncDownload_from_trace _ _ _ _ _ _ _ _ _ _ Hloop)
      as (k & Hget & Hk & Hcnt & Hw & Hput & Hnone).
    assert (Hstop : forall e, err = Some e ->
                      download_stopped E remoteID filename chunkCount w'
                        ([EvOpenTrunc filename] ++ evs2) cnt e).
    { intros e ->.
      destruct (syncDownload_from_stop _ _ _ _ _ _ _ _ _ _ Hloop) as (Hc & Hidx & Hcase).
      replace (0 + (cnt - 0)) with cnt in Hcase by lia.
      replace (cnt - 0) with cnt in * by lia.
      unfold download_stopped. split; [lia|].
      unfold get_indices, written in *. cbn [app flat_map].
      split.
      { rewrite <- range_0_upto.
        replace (Z.to_nat (cnt + 1)) with (S (Z.to_nat cnt)) by lia. exact Hidx. }
      exact Hcase. }
    unfold get_indices, written, put_indices in *. cbn [app flat_map].
    split; [exists k; split; [exact Hget | lia]|].
    split; [lia|]. split; [exact Hput|].
    split; [eexists; reflexivity|].
    split.
    { intros Hn. destruct (Hnone Hn) as (-> & -> & Hlen).
      split; [reflexivity|].
      split; [exact Hget|]. split; [lia | exact Hlen]. }
    split.
    { intros e He. right. split; [reflexivity|].
      exact (Hstop e He). }
    intros (_ & Hanswer & Hwrite).
    destruct err as [e|]; [|reflexivity]. exfalso.
    destruct (Hstop e eq_refl) as (Hc & _ & [(_ & _ & wj & Ha & _) | (_ & _ & wj & c & _ & Hf)]).
    + exact (Hanswer cnt wj Hc Ha).
    + pose proof (Hwrite (trimEOF (fc_Chunk c))
                    (fst (runAuthRequest E (GetChunk remoteID cnt) wj))) as Ht.
      rewrite Hf in Ht. discriminate.
  - cbn in H. inversion H; subst.
    split; [exists 0%nat; split; [reflexivity | cbn; lia]|].
    split; [cbn; lia|]. split; [reflexivity|].
    split; [eexists; reflexivity|].
    split; [discriminate|].
    split.
    { intros e He. inversion He; subst e. left. auto. }
    intros (Hop & _). specialize (Hop w). rewrite Hopen in Hop. discriminate.
Qed.

(** *** Uploading *)

(** [syncUpload] registers the file first, under the remote path and with
    the local modification time, chunk count and hash; when that request or
    its answer fails, no chunk is put.  Otherwise it puts the chunks 0, 1,
    2, ... in ascending order, and when it ends without error it has put
    every chunk below [localChunkCount]. *)
Theorem syncUpload_registers_first (filename remoteFilepath : string)
    (localLastMod localChunkCount : Z) (localHash : string) (w w' : World E)
    (evs : list event) (n : Z) (e : option cerror) :
  syncUpload E filename remoteFilepath localLastMod localChunkCount localHash w
  = (w', evs, (n, e)) ->
  exists evs',
    evs = EvRequest (PostFile (mkFilePutRequest remoteFilepath localLastMod
                                                localChunkCount localHash)) :: evs' /\
    (exists k : nat,
        put_indices evs' = range 0 k /\
        (k <= Z.to_nat localChunkCount)%nat /\
        n <= Z.of_nat k <= n + 1) /\
    (e = None ->
     put_indices evs' = upto localChunkCount /\
     n = Z.of_nat (Z.to_nat localChunkCount)) /\
    (forall resp ok w1,
        runAuthRequest E (PostFile (mkFilePutRequest remoteFilepath localLastMod
                                                     localChunkCount localHash)) w
        = (w1, (resp, ok)) ->
        ok = false \/ unmarshalFilePut E resp = None ->
        evs' = [] /\ n = 0 /\ e <> None).
Proof.
  unfold syncUpload, bind, doRequest. intros H.
  destruct (runAuthRequest E (PostFile (mkFilePutRequest remoteFilepath localLastMod
                                          localChunkCount localHash)) w)
    as [w1 [resp ok]].
  destruct ok; cbn [negb] in H.
  - destruct (unmarshalFilePut E resp) as [remoteID|] eqn:Hjson.
    + unfold forEachChunk in H.
      destruct (forEachChunk_from E (flagChunkSize E) filename (uploadChunk E remoteID)
                  (Z.to_nat localChunkCount) 0 0 w1) as [[w2 evs2] [acc2 err2]] eqn:Hloop.
      destruct (forEachChunk_upload _ _ _ _ _ _ _ _ _ _ _ _ Hloop)
        as (k & Hput & Hk & Hacc & Hnone).
      exists evs2.
      destruct err2 as [e2|]; cbn in H; inversion H; subst; rewrite app_nil_r.
      * split; [reflexivity|].
        split; [exists k; repeat split; try assumption; lia|].
        split; [discriminate|].
        intros resp' ok' w1' Hr [Hok|Hj]; inversion Hr; subst; congruence.
      * destruct (Hnone eq_refl) as [-> Hn].
        split; [reflexivity|].
        split; [exists (Z.to_nat localChunkCount); repeat split; try assumption; lia|].
        split; [intros _; split; [exact Hput | lia]|].
        intros resp' ok' w1' Hr [Hok|Hj]; inversion Hr; subst; congruence.
    + cbn in H. inversion H; subst. exists [].
      split; [reflexivity|].
      split; [exists 0%nat; repeat split; try reflexivity; lia|].
      split; [discriminate|]. intros. repeat split. discriminate.
  - cbn in H. inversion H; subst. exists [].
    split; [reflexivity|].
    split; [exists 0%nat; repeat split; try reflexivity; lia|].
    split; [discriminate|]. intros. repeat split. discriminate.
Qed.

(** [syncUploadNewer] deletes the remote file first.  When the deletion
    fails it sends nothing else and reports no upload.  It puts a chunk
    only after the deletion and the registration of the new file have
    succeeded, and when it ends without error it has deleted, registered
    and put every chunk below [localChunkCount], in this order. *)
Theorem syncUploadNewer_deletes_first (remoteFileID : Z) (filename remoteFilepath : string)
    (localLastMod localChunkCount : Z) (localHash : string) (w w1 w' : World E)
    (resp : body E) (ok : bool) (evs : list event) (n : Z) (e : option cerror) :
  runAuthRequest E (DeleteFile remoteFileID) w = (w1, (resp, ok)) ->
  syncUploadNewer E remoteFileID filename remoteFilepath localLastMod localChunkCount
                  localHash w = (w', evs, (n, e)) ->
  exists evs',
    evs = EvRequest (DeleteFile remoteFileID) :: evs' /\
    (ok = false -> evs' = [] /\ n = 0 /\ e = Some ERemoveRemote) /\
    (put_indices evs' <> [] ->
     ok = true /\
     exists evs'',
       evs' = EvRequest (PostFile (mkFilePutRequest remoteFilepath localLastMod
                                                    localChunkCount localHash)) :: evs'') /\
    (e = None ->
     exists evs'',
       evs' = EvRequest (PostFile (mkFilePutRequest remoteFilepath localLastMod
                                                    localChunkCount localHash)) :: evs'' /\
       put_indices evs'' = upto localChunkCount /\
       n = Z.of_nat (Z.to_nat localChunkCount)).
Proof.
  intros Hreq. unfold syncUploadNewer, bind, doRequest. rewrite Hreq.
  destruct ok; cbn [negb].
  - unfold syncUpload, bind, doRequest.
    destruct (runAuthRequest E (PostFile (mkFilePutRequest remoteFilepath localLastMod
                                            localChunkCount localHash)) w1)
      as [w2 [resp2 ok2]].
    destruct ok2; cbn [negb].
    + destruct (unmarshalFilePut E resp2) as [remoteID|].
      * unfold forEachChunk.
        destruct (forEachChunk_from E (flagChunkSize E) filename (uploadChunk E remoteID)
                    (Z.to_nat localChunkCount) 0 0 w2) as [[w3 evs3] [acc3 err3]] eqn:Hloop.
        destruct (forEachChunk_upload _ _ _ _ _ _ _ _ _ _ _ _ Hloop)
          as (k & Hput & Hk & Hacc & Hnone).
        destruct err3 as [e3|]; cbn; intros H; inversion H; subst;
          rewrite app_nil_r; eexists; (split; [reflexivity|]);
          (split; [discriminate|]); (split; [intros _; split; [reflexivity|]; eauto|]).
        -- discriminate.
        -- intros _. destruct (Hnone eq_refl) as [-> Hn].
           eexists. split; [reflexivity|]. split; [exact Hput | lia].
      * cbn. intros H. inversion H; subst. eexists. split; [reflexivity|].
        split; [discriminate|]. split; [intros _; split; [reflexivity|]; eauto|].
        discriminate.
    + cbn. intros H. inversion H; subst. eexists. split; [reflexivity|].
      split; [discriminate|]. split; [intros _; split; [reflexivity|]; eauto|].
      discriminate.
  - intros H. inversion H; subst. exists [].
    split; [reflexivity|]. split; [auto|].
    split; [intros C; now contradiction C | discriminate].
Qed.

End MoreClientFacts.

Lemma syncDownload_in_order_witness :
  let run := syncDownload (canned_env scenario_remote_newer) 1 "a.txt" "a.txt" 3 tt in
  downloads_never_fail (canned_env scenario_remote_newer) 1 "a.txt" 3 /\
  snd run = (3, None) /\
  get_indices (snd (fst run)) = upto 3 /\
  length (written (snd (fst run))) = 3%nat /\
  put_indices (snd (fst run)) = [].
Proof.
  intros run.
  assert (Hnever : downloads_never_fail (canned_env scenario_remote_newer) 1 "a.txt" 3).
  { split; [intros w; reflexivity|]. split; [|intros b w; reflexivity].
    intros i w Hi.
    assert (Hcases : i = 0 \/ i = 1 \/ i = 2) by lia.
    destruct Hcases as [-> | [-> | ->]]; discriminate. }
  split; [exact Hnever|].
  destruct (syncDownload_in_order (canned_env scenario_remote_newer) 1 "a.txt" "a.txt" 3
              tt (fst (fst run)) (snd (fst run)) (fst (snd run)) (snd (snd run)) eq_refl)
    as (_ & _ & Hput & _ & Hnone & _ & Hlive).
  pose proof (Hlive Hnever) as He.
  destruct (Hnone He) as (_ & A & B & C).
  split; [|split; [exact A|split; [exact C | exact Hput]]].
  rewrite (surjective_pairing (snd run)). rewrite He, B. reflexivity.
Defined.

Lemma syncUpload_registers_first_witness :
  let run := syncUpload (canned_env scenario_unregistered) "a.txt" "r.txt" 10 3 "H" tt in
  exists evs',
    snd (fst run) = EvRequest (PostFile (mkFilePutRequest "r.txt" 10 3 "H")) :: evs' /\
    put_indices evs' = upto 3.
Proof.
  intros run.
  destruct (syncUpload_registers_first (canned_env scenario_unregistered)
              "a.txt" "r.txt" 10 3 "H" tt (fst (fst run)) (snd (fst run))
              (fst (snd run)) (snd (snd run)) eq_refl)
    as (evs' & A & _ & B & _).
  exists evs'. split; [exact A|]. exact (proj1 (B eq_refl)).
Defined.

Lemma syncUploadNewer_deletes_first_witness :
  let run := syncUploadNewer (canned_env scenario_local_newer) 1 "a.txt" "a.txt"
                             20 3 "G" tt in
  exists evs'',
    snd (fst run)
    = EvRequest (DeleteFile 1)
        :: EvRequest (PostFile (mkFilePutRequest "a.txt" 20 3 "G")) :: evs'' /\
    put_indices evs'' = upto 3.
Proof.
  intros run.
  destruct (syncUploadNewer_deletes_first (canned_env scenario_local_newer) 1
              "a.txt" "a.txt" 20 3 "G" tt tt (fst (fst run)) CEmpty true
              (snd (fst run)) (fst (snd run)) (snd (snd run)) eq_refl eq_refl)
    as (evs' & A & _ & _ & B).
  destruct (B eq_refl) as (evs'' & C & D & _).
  exists evs''. split; [|exact D]. rewrite A, C. reflexivity.
Defined.

(** *** The decisions of [runSyncFile] *)

Section SyncDecisions.

Variable E : Env.

(** When the server does not answer the lookup by name, [runSyncFile]
    uploads the local file as a new file: the status is
    [syncStatusLocalNewer] when the upload goes through and
    [syncStatusMissing] with an error when it does not; when the local
    file cannot be hashed, nothing is sent. *)
Theorem runSyncFile_unregistered (localFilename remoteFilepath : string)
    (w w1 : World E) (resp : body E) :
  runAuthRequest E (GetFileByName remoteFilepath) w = (w1, (resp, false)) ->
  runSyncFile E localFilename remoteFilepath w
  = match CalcFileHashInfo E (flagChunkSize E) localFilename w1 with
    | None => (w1, [EvRequest (GetFileByName remoteFilepath)],
               (syncStatusMissing, 0, Some ECalcHash))
    | Some (localChunkCount, localLastMod, localHash) =>
        let '(w', evs, (n, e)) :=
          syncUpload E localFilename remoteFilepath localLastMod localChunkCount
                     localHash w1 in
        (w', EvRequest (GetFileByName remoteFilepath) :: evs,
         match e with
         | Some _ => (syncStatusMissing, n, Some EUploadFile)
         | None => (syncStatusLocalNewer, n, None)
         end)
    end.
Proof.
  intros Hreq. unfold runSyncFile, bind, doRequest, doCalcFileHashInfo.
  rewrite Hreq. cbn [negb].
  destruct (CalcFileHashInfo E (flagChunkSize E) localFilename w1)
    as [[[lcc llm] lh]|]; [|reflexivity].
  destruct (syncUpload E localFilename remoteFilepath llm lcc lh w1)
    as [[w' evs] [n e]].
  destruct e; cbn; now rewrite app_nil_r.
Qed.

(** When the file is registered on the server and there is no local file,
    [runSyncFile] downloads it, whatever the server says about missing
    chunks: the run is the lookup followed by [syncDownload] of the remote
    chunk count, and the status is [syncStatusRemoteNewer]. *)
Theorem runSyncFile_local_absent (localFilename remoteFilepath : string)
    (w w1 : World E) (resp : body E) (remote : FileGetResponse) :
  runAuthRequest E (GetFileByName remoteFilepath) w = (w1, (resp, true)) ->
  unmarshalFileGet E resp = Some remote ->
  fileExists E localFilename w1 = false ->
  runSyncFile E localFilename remoteFilepath w
  = let '(w', evs, (n, e)) :=
      syncDownload E (fi_FileID (fgr_FileInfo remote)) localFilename remoteFilepath
                   (fi_ChunkCount (fgr_FileInfo remote)) w1 in
    (w', EvRequest (GetFileByName remoteFilepath) :: evs,
     (syncStatusRemoteNewer, n, e)).
Proof.
  intros Hreq Hjson Hstat. unfold runSyncFile, bind, doRequest, doStat.
  rewrite Hreq. cbn [negb]. rewrite Hjson, Hstat. cbn [negb].
  destruct (syncDownload E (fi_FileID (fgr_FileInfo remote)) localFilename
              remoteFilepath (fi_ChunkCount (fgr_FileInfo remote)) w1)
    as [[w' evs] [n e]].
  cbn. now rewrite app_nil_r.
Qed.

(** Without extra-strict mode, equal whole-file hashes, equal chunk counts
    and no missing chunks make [runSyncFile] answer [syncStatusSame] after
    the lookup alone, whatever the two modification times are. *)
Theorem runSyncFile_same_without_strict (localFilename remoteFilepath : string)
    (w w1 : World E) (resp : body E) (remote : FileGetResponse)
    (localLastMod : Z) :
  flagExtraStrict E = false ->
  runAuthRequest E (GetFileByName remoteFilepath) w = (w1, (resp, true)) ->
  unmarshalFileGet E resp = Some remote ->
  fileExists E localFilename w1 = true ->
  CalcFileHashInfo E (flagChunkSize E) localFilename w1
  = Some (fi_ChunkCount (fgr_FileInfo remote), localLastMod,
          fi_FileHash (fgr_FileInfo remote)) ->
  MissingChunks remote = [] ->
  runSyncFile E localFilename remoteFilepath w
  = (w1, [EvRequest (GetFileByName remoteFilepath)], (syncStatusSame, 0, None)).
Proof.
  intros Hstrict Hreq Hjson Hstat Hcalc Hmiss.
  unfold runSyncFile, bind, doRequest, doStat, doCalcFileHashInfo.
  rewrite Hreq. cbn [negb]. rewrite Hjson, Hstat. cbn [negb]. rewrite Hcalc.
  rewrite String.eqb_refl, Hmiss, Hstrict. cbn [length Z.of_nat Z.eqb andb].
  rewrite Z.eqb_refl. reflexivity.
Qed.

(** When the local and the remote file differ in hash, chunk count or by
    missing chunks, the modification times decide: a newer local file
    replaces the remote one ([syncUploadNewer], [syncStatusLocalNewer]), an
    older local file is overwritten by a download ([syncDownload],
    [syncStatusRemoteNewer]), and with equal times and no missing chunks
    the run ends in the unreconciled-difference error without sending or
    writing anything. *)
Theorem runSyncFile_resolves_by_time (localFilename remoteFilepath : string)
    (w w1 : World E) (resp : body E) (remote : FileGetResponse)
    (localChunkCount localLastMod : Z) (localHash : string) :
  runAuthRequest E (GetFileByName remoteFilepath) w = (w1, (resp, true)) ->
  unmarshalFileGet E resp = Some remote ->
  fileExists E localFilename w1 = true ->
  CalcFileHashInfo E (flagChunkSize E) localFilename w1
  = Some (localChunkCount, localLastMod, localHash) ->
  localHash <> fi_FileHash (fgr_FileInfo remote) \/
  MissingChunks remote <> [] \/
  localChunkCount <> fi_ChunkCount (fgr_FileInfo remote) ->
  (localLastMod > fi_LastMod (fgr_FileInfo remote) ->
   runSyncFile E localFilename remoteFilepath w
   = let '(w', evs, (n, e)) :=
       syncUploadNewer E (fi_FileID (fgr_FileInfo remote)) localFilename
                       remoteFilepath localLastMod localChunkCount localHash w1 in
     (w', EvRequest (GetFileByName remoteFilepath) :: evs,
      (syncStatusLocalNewer, n, e))) /\
  (localLastMod < fi_LastMod (fgr_FileInfo remote) ->
   runSyncFile E localFilename remoteFilepath w
   = let '(w', evs, (n, e)) :=
       syncDownload E (fi_FileID (fgr_FileInfo remote)) localFilename
                    remoteFilepath (fi_ChunkCount (fgr_FileInfo remote)) w1 in
     (w', EvRequest (GetFileByName remoteFilepath) :: evs,
      (syncStatusRemoteNewer, n, e))) /\
  (localLastMod = fi_LastMod (fgr_FileInfo remote) ->
   MissingChunks remote = [] ->
   runSyncFile E localFilename remoteFilepath w
   = (w1, [EvRequest (GetFileByName remoteFilepath)], (0, 0, Some EUnreconciled))).
Proof.
  intros Hreq Hjson Hstat Hcalc Hdiff.
  assert (Hcond : String.eqb localHash (fi_FileHash (fgr_FileInfo remote))
                  && (Z.of_nat (length (MissingChunks remote)) =? 0)
                  && (localChunkCount =? fi_ChunkCount (fgr_FileInfo remote)) = false).
  { destruct Hdiff as [H|[H|H]].
    - apply String.eqb_neq in H. now rewrite H.
    - destruct (MissingChunks remote); [contradiction|].
      cbn [length]. rewrite Nat2Z.inj_succ.
      replace (Z.succ (Z.of_nat (length l)) =? 0) with false
        by (symmetry; apply Z.eqb_neq; lia).
      now rewrite andb_false_r.
    - apply Z.eqb_neq in H. rewrite H. now rewrite andb_false_r. }
  assert (Hrun : runSyncFile E localFilename remoteFilepath w
                 = let '(w', evs, res) :=
                     resolveDifference E remote localFilename remoteFilepath
                                       localChunkCount localLastMod localHash w1 in
                   (w', EvRequest (GetFileByName remoteFilepath) :: evs, res)).
  { unfold runSyncFile, bind, doRequest, doStat, doCalcFileHashInfo.
    rewrite Hreq. cbn [negb]. rewrite Hjson, Hstat. cbn [negb]. rewrite Hcalc, Hcond.
    destruct (resolveDifference E remote localFilename remoteFilepath
                localChunkCount localLastMod localHash w1) as [[w' evs] res].
    reflexivity. }
  rewrite Hrun. unfold resolveDifference, bind.
  split; [|split].
  - intros Hgt. destruct (Z.gtb_spec localLastMod (fi_LastMod (fgr_FileInfo remote)));
      [|lia].
    destruct (syncUploadNewer E (fi_FileID (fgr_FileInfo remote)) localFilename
                remoteFilepath localLastMod localChunkCount localHash w1)
      as [[w' evs] [n e]].
    cbn. now rewrite app_nil_r.
  - intros Hlt. destruct (Z.gtb_spec localLastMod (fi_LastMod (fgr_FileInfo remote)));
      [lia|].
    destruct (Z.ltb_spec localLastMod (fi_LastMod (fgr_FileInfo remote))); [|lia].
    destruct (syncDownload E (fi_FileID (fgr_FileInfo remote)) localFilename
                remoteFilepath (fi_ChunkCount (fgr_FileInfo remote)) w1)
      as [[w' evs] [n e]].
    cbn. now rewrite app_nil_r.
  - intros Heq Hmiss.
    destruct (Z.gtb_spec localLastMod (fi_LastMod (fgr_FileInfo remote))); [lia|].
    destruct (Z.ltb_spec localLastMod (fi_LastMod (fgr_FileInfo remote))); [lia|].
    rewrite Hmiss. reflexivity.
Qed.

End SyncDecisions.

Lemma runSyncFile_unregistered_witness :
  snd (runSyncFile (canned_env scenario_unregistered) "a.txt" "a.txt" tt)
  = (syncStatusLocalNewer, 3, None).
Proof.
  rewrite (runSyncFile_unregistered (canned_env scenario_unregistered)
             "a.txt" "a.txt" tt tt CEmpty eq_refl).
  reflexivity.
Defined.

Lemma runSyncFile_local_absent_witness :
  snd (runSyncFile (canned_env scenario_leading_zero) "a.txt" "a.txt" tt)
  = (syncStatusRemoteNewer, 1, None).
Proof.
  rewrite (runSyncFile_local_absent (canned_env scenario_leading_zero)
             "a.txt" "a.txt" tt tt _ _ eq_refl eq_refl eq_refl).
  reflexivity.
Defined.

Lemma runSyncFile_same_without_strict_witness :
  runSyncFile (canned_env scenario_same_lax) "a.txt" "a.txt" tt
  = (tt, [EvRequest (GetFileByName "a.txt")], (syncStatusSame, 0, None)).
Proof.
  exact (runSyncFile_same_without_strict (canned_env scenario_same_lax)
           "a.txt" "a.txt" tt tt _ remote_abc 99
           eq_refl eq_refl eq_refl eq_refl eq_refl eq_refl).
Defined.

Lemma runSyncFile_resolves_by_time_witness :
  snd (runSyncFile (canned_env scenario_local_newer) "a.txt" "a.txt" tt)
  = (syncStatusLocalNewer, 3, None) /\
  snd (runSyncFile (canned_env scenario_remote_newer) "a.txt" "a.txt" tt)
  = (syncStatusRemoteNewer, 3, None) /\
  runSyncFile (canned_env scenario_unreconciled) "a.txt" "a.txt" tt
  = (tt, [EvRequest (GetFileByName "a.txt")], (0, 0, Some EUnreconciled)).
Proof.
  assert (Hne : "G"%string <> "H"%string) by discriminate.
  split; [|split].
  - rewrite (proj1 (runSyncFile_resolves_by_time (canned_env scenario_local_newer)
                      "a.txt" "a.txt" tt tt _ remote_abc 3 20 "G"
                      eq_refl eq_refl eq_refl eq_refl (or_introl Hne)) eq_refl).
    reflexivity.
  - rewrite (proj1 (proj2 (runSyncFile_resolves_by_time (canned_env scenario_remote_newer)
                             "a.txt" "a.txt" tt tt _ remote_abc 3 5 "G"
                             eq_refl eq_refl eq_refl eq_refl (or_introl Hne))) eq_refl).
    reflexivity.
  - exact (proj2 (proj2 (runSyncFile_resolves_by_time (canned_env scenario_unreconciled)
                           "a.txt" "a.txt" tt tt _ remote_abc 3 10 "G"
                           eq_refl eq_refl eq_refl eq_refl (or_introl Hne)))
                 eq_refl eq_refl).
Defined.

(** *** Extra-strict comparison of chunk hashes *)

Section StrictFacts.

Variable E : Env.

Lemma compare_loop_agree (filename : string) (remoteChunks : list FileChunk)
    (w : World E) (n : nat) :
  forall i,
    (forall j, i <= j < i + Z.of_nat n -> chunk_agrees E filename remoteChunks w j) ->
    exists evs,
      forEachChunk_from E (flagChunkSize E) filename (compareChunk E remoteChunks)
                        n i false w
      = (w, evs, (false, None)) /\
      compared evs = range i n /\
      requests evs = [] /\
      written evs = [].
Proof.
  induction n as [|n IH]; intros i Hall.
  - exists []. repeat split; reflexivity.
  - destruct (Hall i ltac:(lia)) as (b & rc & Hread & Hnth & Hhash).
    destruct (IH (i + 1)) as (evs & Hloop & Hcmp & Hreq & Hwr).
    { intros j Hj. apply Hall. lia. }
    exists (EvReadChunk filename i :: EvCompareHash i :: evs).
    split; [|split; [|split]].
    + cbn [forEachChunk_from]. unfold bind, doReadChunk. rewrite Hread.
      unfold compareChunk at 1, bind, emit. rewrite Hnth.
      rewrite Hhash, String.eqb_refl. cbn [negb]. unfold ret at 1.
      rewrite Hloop. reflexivity.
    + rewrite range_S. unfold compared in *. cbn [flat_map app]. now rewrite Hcmp.
    + exact Hreq.
    + exact Hwr.
Qed.

Lemma compare_loop_differ (filename : string) (remoteChunks : list FileChunk)
    (w : World E) (n : nat) :
  forall (i : Z) (d : nat),
    (d < n)%nat ->
    (forall m, i <= m < i + Z.of_nat d -> chunk_agrees E filename remoteChunks w m) ->
    chunk_differs E filename remoteChunks w (i + Z.of_nat d) ->
    exists evs,
      forEachChunk_from E (flagChunkSize E) filename (compareChunk E remoteChunks)
                        n i false w
      = (w, evs, (true, None)) /\
      compared evs = range i (S d) /\
      requests evs = [] /\
      written evs = [].
Proof.
  induction n as [|n IH]; intros i d Hd Hall Hdiff; [lia|].
  destruct d as [|d].
  - rewrite Z.add_0_r in Hdiff.
    destruct Hdiff as (b & rc & Hread & Hnth & Hhash).
    exists [EvReadChunk filename i; EvCompareHash i].
    split; [|split; [|split]]; try reflexivity.
    + cbn [forEachChunk_from]. unfold bind, doReadChunk. rewrite Hread.
      unfold compareChunk, bind, emit. rewrite Hnth.
      apply String.eqb_neq in Hhash. rewrite Hhash. reflexivity.
    + rewrite range_S. reflexivity.
  - destruct (Hall i ltac:(lia)) as (b & rc & Hread & Hnth & Hhash).
    destruct (IH (i + 1) d) as (evs & Hloop & Hcmp & Hreq & Hwr).
    { lia. }
    { intros m Hm. apply Hall. lia. }
    { replace (i + 1 + Z.of_nat d) with (i + Z.of_nat (S d)) by lia. exact Hdiff. }
    exists (EvReadChunk filename i :: EvCompareHash i :: evs).
    split; [|split; [|split]].
    + cbn [forEachChunk_from]. unfold bind, doReadChunk. rewrite Hread.
      unfold compareChunk at 1, bind, emit. rewrite Hnth.
      rewrite Hhash, String.eqb_refl. cbn [negb]. unfold ret at 1.
      rewrite Hloop. reflexivity.
    + rewrite range_S. unfold compared in *. cbn [flat_map app]. now rewrite Hcmp.
    + exact Hreq.
    + exact Hwr.
Qed.

(** In extra-strict mode, with equal whole-file hashes, equal chunk counts
    and no missing chunks, [runSyncFile] fetches the chunk list and, when
    every local chunk hashes to the hash listed for it, compares all of
    them in ascending order and answers [syncStatusSame]; it sends no other
    request and writes nothing. *)
Theorem runSyncFile_strict_all_agree (localFilename remoteFilepath : string)
    (w w1 w2 : World E) (resp resp2 : body E) (ok2 : bool)
    (remote : FileGetResponse) (localChunkCount localLastMod : Z)
    (localHash : string) (remoteChunks : list FileChunk) :
  flagExtraStrict E = true ->
  runAuthRequest E (GetFileByName remoteFilepath) w = (w1, (resp, true)) ->
  unmarshalFileGet E resp = Some remote ->
  fileExists E localFilename w1 = true ->
  CalcFileHashInfo E (flagChunkSize E) localFilename w1
  = Some (localChunkCount, localLastMod, localHash) ->
  localHash = fi_FileHash (fgr_FileInfo remote) ->
  MissingChunks remote = [] ->
  localChunkCount = fi_ChunkCount (fgr_FileInfo remote) ->
  runAuthRequest E (GetChunkList (fi_FileID (fgr_FileInfo remote))) w1
  = (w2, (resp2, ok2)) ->
  unmarshalFileChunks E resp2 = Some remoteChunks ->
  Z.of_nat (length remoteChunks) = localChunkCount ->
  (forall i, 0 <= i < localChunkCount ->
             chunk_agrees E localFilename remoteChunks w2 i) ->
  exists evs,
    runSyncFile E localFilename remoteFilepath w
    = (w2,
       EvRequest (GetFileByName remoteFilepath)
         :: EvRequest (GetChunkList (fi_FileID (fgr_FileInfo remote))) :: evs,
       (syncStatusSame, 0, None)) /\
    compared evs = upto localChunkCount /\
    requests evs = [] /\
    written evs = [].
Proof.
  intros Hstrict Hreq Hjson Hstat Hcalc Hhash Hmiss Hcount Hreq2 Hjson2 Hlen Hall.
  destruct (compare_loop_agree localFilename remoteChunks w2
              (Z.to_nat localChunkCount) 0) as (evs & Hloop & Hcmp & Hrq & Hwr).
  { intros j Hj. apply Hall. lia. }
  exists evs. split; [|split; [exact Hcmp | split; [exact Hrq | exact Hwr]]].
  unfold runSyncFile, bind, doRequest, doStat, doCalcFileHashInfo.
  rewrite Hreq. cbn [negb]. rewrite Hjson, Hstat. cbn [negb]. rewrite Hcalc.
  rewrite Hhash, String.eqb_refl, Hmiss. cbn [length Z.of_nat Z.eqb andb].
  rewrite <- Hcount, Z.eqb_refl, Hstrict, Hreq2, Hjson2.
  rewrite Hlen, Z.eqb_refl. unfold forEachChunk. rewrite Hloop.
  cbn. now rewrite app_nil_r.
Qed.

(** In the same situation, when the local chunks agree with the listed
    hashes up to chunk [j] and chunk [j] does not, [runSyncFile] compares
    the chunks 0 to [j] and no further, and goes on as for two files that
    differ: the modification times decide, and with equal times the run
    ends in the unreconciled-difference error. *)
Theorem runSyncFile_strict_mismatch (localFilename remoteFilepath : string)
    (w w1 w2 : World E) (resp resp2 : body E) (ok2 : bool)
    (remote : FileGetResponse) (localChunkCount localLastMod : Z)
    (localHash : string) (remoteChunks : list FileChunk) (j : Z) :
  flagExtraStrict E = true ->
  runAuthRequest E (GetFileByName remoteFilepath) w = (w1, (resp, true)) ->
  unmarshalFileGet E resp = Some remote ->
  fileExists E localFilename w1 = true ->
  CalcFileHashInfo E (flagChunkSize E) localFilename w1
  = Some (localChunkCount, localLastMod, localHash) ->
  localHash = fi_FileHash (fgr_FileInfo remote) ->
  MissingChunks remote = [] ->
  localChunkCount = fi_ChunkCount (fgr_FileInfo remote) ->
  runAuthRequest E (GetChunkList (fi_FileID (fgr_FileInfo remote))) w1
  = (w2, (resp2, ok2)) ->
  unmarshalFileChunks E resp2 = Some remoteChunks ->
  Z.of_nat (length remoteChunks) = localChunkCount ->
  0 <= j < localChunkCount ->
  (forall i, 0 <= i < j -> chunk_agrees E localFilename remoteChunks w2 i) ->
  chunk_differs E localFilename remoteChunks w2 j ->
  exists evs,
    compared evs = upto (j + 1) /\
    requests evs = [] /\
    written evs = [] /\
    runSyncFile E localFilename remoteFilepath w
    = (let '(w', evsR, res) :=
         resolveDifference E remote localFilename remoteFilepath localChunkCount
                           localLastMod localHash w2 in
       (w',
        EvRequest (GetFileByName remoteFilepath)
          :: EvRequest (GetChunkList (fi_FileID (fgr_FileInfo remote)))
          :: evs ++ evsR,
        res)) /\
    (localLastMod = fi_LastMod (fgr_FileInfo remote) ->
     snd (runSyncFile E localFilename remoteFilepath w) = (0, 0, Some EUnreconciled)).
Proof.
  intros Hstrict Hreq Hjson Hstat Hcalc Hhash Hmiss Hcount Hreq2 Hjson2 Hlen Hj
         Hall Hdiff.
  destruct (compare_loop_differ localFilename remoteChunks w2
              (Z.to_nat localChunkCount) 0 (Z.to_nat j))
    as (evs & Hloop & Hcmp & Hrq & Hwr).
  { lia. }
  { intros m Hm. apply Hall. lia. }
  { replace (0 + Z.of_nat (Z.to_nat j)) with j by lia. exact Hdiff. }
  assert (Hrun : runSyncFile E localFilename remoteFilepath w
                 = (let '(w', evsR, res) :=
                      resolveDifference E remote localFilename remoteFilepath
                                        localChunkCount localLastMod localHash w2 in
                    (w',
                     EvRequest (GetFileByName remoteFilepath)
                       :: EvRequest (GetChunkList (fi_FileID (fgr_FileInfo remote)))
                       :: evs ++ evsR,
                     res))).
  { unfold runSyncFile, bind, doRequest, doStat, doCalcFileHashInfo.
    rewrite Hreq. cbn [negb]. rewrite Hjson, Hstat. cbn [negb]. rewrite Hcalc.
    rewrite Hhash, String.eqb_refl, Hmiss. cbn [length Z.of_nat Z.eqb andb].
    rewrite <- Hcount, Z.eqb_refl, Hstrict, Hreq2, Hjson2.
    rewrite Hlen, Z.eqb_refl. unfold forEachChunk. rewrite Hloop. cbn [negb].
    rewrite <- Hhash.
    destruct (resolveDifference E remote localFilename remoteFilepath localChunkCount
                localLastMod localHash w2) as [[w' evsR] res].
    reflexivity. }
  exists evs. split; [|split; [exact Hrq | split; [exact Hwr | split; [exact Hrun|]]]].
  - rewrite Hcmp. unfold upto.
    replace (Z.to_nat (j + 1)) with (S (Z.to_nat j)) by lia. reflexivity.
  - intros Hmod. rewrite Hrun. unfold resolveDifference.
    destruct (Z.gtb_spec localLastMod (fi_LastMod (fgr_FileInfo remote))); [lia|].
    destruct (Z.ltb_spec localLastMod (fi_LastMod (fgr_FileInfo remote))); [lia|].
    rewrite Hmiss. reflexivity.
Qed.

End StrictFacts.

Lemma canned_chunk_agrees (sc : Scenario) (data : list byte) (i : Z) (rc : FileChunk) :
  sc_local sc = Some data ->
  nth_error (sc_remoteChunks sc) (Z.to_nat i) = Some rc ->
  string_of_list_byte
    (firstn (Z.to_nat (sc_chunkSize sc)) (skipn (Z.to_nat (i * sc_chunkSize sc)) data))
  = fc_ChunkHash rc ->
  chunk_agrees (canned_env sc) "a.txt" (sc_remoteChunks sc) tt i.
Proof.
  intros Hl Hn Hh. unfold chunk_agrees. simpl. rewrite Hl.
  eexists. exists rc. split; [reflexivity|]. split; [exact Hn | exact Hh].
Qed.

Lemma runSyncFile_strict_all_agree_witness :
  exists evs,
    runSyncFile (canned_env scenario_strict_same) "a.txt" "a.txt" tt
    = (tt, EvRequest (GetFileByName "a.txt") :: EvRequest (GetChunkList 1) :: evs,
       (syncStatusSame, 0, None)) /\
    compared evs = upto 3.
Proof.
  destruct (runSyncFile_strict_all_agree (canned_env scenario_strict_same)
              "a.txt" "a.txt" tt tt tt (CFileGet remote_abc)
              (CFileChunks (sc_remoteChunks scenario_strict_same)) true
              remote_abc 3 10 "H" (sc_remoteChunks scenario_strict_same)
              eq_refl eq_refl eq_refl eq_refl eq_refl eq_refl eq_refl eq_refl
              eq_refl eq_refl eq_refl) as (evs & A & B & _).
  - intros i Hi.
    assert (Hcases : i = 0 \/ i = 1 \/ i = 2) by lia.
    destruct Hcases as [-> | [-> | ->]];
      eapply (canned_chunk_agrees scenario_strict_same); reflexivity.
  - exists evs. split; [exact A | exact B].
Defined.

Lemma runSyncFile_strict_mismatch_witness :
  snd (runSyncFile (canned_env scenario_strict_mismatch) "a.txt" "a.txt" tt)
  = (0, 0, Some EUnreconciled).
Proof.
  destruct (runSyncFile_strict_mismatch (canned_env scenario_strict_mismatch)
              "a.txt" "a.txt" tt tt tt (CFileGet remote_abc)
              (CFileChunks (sc_remoteChunks scenario_strict_mismatch)) true
              remote_abc 3 10 "H" (sc_remoteChunks scenario_strict_mismatch) 1
              eq_refl eq_refl eq_refl eq_refl eq_refl eq_refl eq_refl eq_refl
              eq_refl eq_refl eq_refl) as (evs & _ & _ & _ & _ & A).
  - lia.
  - intros i Hi. assert (i = 0) by lia. subst i.
    eapply (canned_chunk_agrees scenario_strict_mismatch); reflexivity.
  - unfold chunk_differs. simpl. eexists. eexists.
    split; [reflexivity|]. split; [reflexivity|]. discriminate.
  - apply A. reflexivity.
Defined.

(* ================================================================= *)
(** ** Properties of the file listing route                           *)
(* ================================================================= *)

Import Routes.

(** [GET /api/files] behind [authenticateToken].  A request whose token
    does not verify is answered with 403 and the storage is not asked.  A
    request with a valid token is answered from the one call of
    [GetAllUserFileInfos] with the user id of the token: with 404 when
    that call fails, and with the files it returns otherwise; the 401 of
    the handler is never the answer.  Whenever the answer lists files read
    from the tables, they are the files of the user the token names, every
    one of them a row of [FileInfo] of that user. *)
Theorem filesRoute_serves_own_files (Request Token : Type)
    (VerifyToken : Request -> option Token)
    (GetUserFromToken : Token -> string * Z)
    (getAll : Z -> result (list FileInfo)) (s : Storage) (r : Request) :
  match VerifyToken r with
  | None =>
      filesRoute Request Token VerifyToken GetUserFromToken getAll r
      = HttpError "Failed to authenticate." StatusForbidden
  | Some token =>
      match getAll (snd (GetUserFromToken token)) with
      | Err _ =>
          filesRoute Request Token VerifyToken GetUserFromToken getAll r
          = HttpError "Failed to get files for the user" StatusNotFound
      | Ok files =>
          filesRoute Request Token VerifyToken GetUserFromToken getAll r
          = AllFilesGetResponse files
      end /\
      (forall files,
          filesRoute Request Token VerifyToken GetUserFromToken
                     (GetAllUserFileInfos s) r
          = AllFilesGetResponse files ->
          GetAllUserFileInfos s (snd (GetUserFromToken token)) = Ok files /\
          (forall fi, In fi files ->
                      fi_UserID fi = snd (GetUserFromToken token) /\
                      exists row, In row (FileInfoT (db s)) /\
                                  fi_FileID row = fi_FileID fi /\
                                  fi_UserID row = fi_UserID fi /\
                                  fi_FileName row = fi_FileName fi) /\
          (forall row, In row (FileInfoT (db s)) ->
                       fi_UserID row = snd (GetUserFromToken token) ->
                       exists fi, In fi files /\ fi_FileID fi = fi_FileID row))
  end.
Proof.
  unfold filesRoute, authenticateToken.
  destruct (VerifyToken r) as [token|]; [|reflexivity].
  destruct (GetUserFromToken token) as [username userid]. simpl.
  split; [destruct (getAll userid); reflexivity|].
  intros files H. inversion H; subst files. clear H.
  split; [reflexivity|]. split.
  - intros fi Hin. unfold getAllUserFiles in Hin. rewrite map_map in Hin.
    apply in_map_iff in Hin. destruct Hin as (row & <- & Hrow).
    apply filter_In in Hrow. destruct Hrow as [Hrow Hu]. apply Z.eqb_eq in Hu.
    split; [reflexivity|]. exists row. simpl. auto.
  - intros row Hrow Hu.
    exists (mkFileInfo userid (fi_FileID row) (fi_FileName row) (fi_LastMod row)
                       (fi_ChunkCount row) (fi_FileHash row)).
    split; [|reflexivity].
    unfold getAllUserFiles. rewrite map_map. apply in_map_iff.
    exists row. split; [reflexivity|]. apply filter_In.
    split; [exact Hrow | now apply Z.eqb_eq].
Qed.

Lemma filesRoute_serves_own_files_witness :
  let route := filesRoute bool unit (fun b : bool => if b then Some tt else None)
                          (fun _ => ("ann"%string, 1)) in
  route (GetAllUserFileInfos store0) false
  = HttpError "Failed to authenticate." StatusForbidden /\
  route (fun _ => Err SqlErrNoRows) true
  = HttpError "Failed to get files for the user" StatusNotFound /\
  route (GetAllUserFileInfos store0) true
  = AllFilesGetResponse [mkFileInfo 1 1 "a.txt" 10 3 "H"].
Proof.
  intros route.
  split; [|split].
  - exact (filesRoute_serves_own_files bool unit
             (fun b : bool => if b then Some tt else None)
             (fun _ => ("ann"%string, 1)) (GetAllUserFileInfos store0) store0 false).
  - exact (proj1 (filesRoute_serves_own_files bool unit
                    (fun b : bool => if b then Some tt else None)
                    (fun _ => ("ann"%string, 1)) (fun _ => Err SqlErrNoRows) store0 true)).
  - exact (proj1 (filesRoute_serves_own_files bool unit
                    (fun b : bool => if b then Some tt else None)
                    (fun _ => ("ann"%string, 1)) (GetAllUserFileInfos store0) store0 true)).
Defined.
